(** * Backup / restore archivator: the archive pipelines and their statistics

    A shallow embedding of [backup_folder.py] and [restore_folder.py].

    - Python [int] is [Z]; sizes reported by the file system are [N].
    - Python [float] results ([compression_ratio], [progress_percent], the
      free-space estimate) are computed in exact rational arithmetic [Q].
    - [bytes] is [list byte]; paths are strings, relative to the directory they
      live in (the source directory for a backup, the target directory for a
      restore).
    - Exceptions are values of [exn]; a computation is a state and exception
      monad [M]: the state survives a raise, as the attributes of a Python
      object do.
    - The file system, the ZIP codec ([zipfile], [pyzipper]) and the user's
      Ctrl+C are the outside world: each pipeline reads them from a record of
      oracles ([World]).
    - The progress callback is the caller's code.  It is modelled as an
      observer: a call records the snapshot it is given and returns.
    - A [str] typed at a prompt is the list of its code points; the prompts
      of [getpass] are an oracle that gives the outcome of each call.
    - Printing is left out: [print] changes nothing that the code reads. *)

From Stdlib Require Import ZArith NArith QArith List String Ascii Lia Bool.
From Stdlib Require Import Strings.Byte.
From stdpp Require Import gmap strings list.
From Equations Require Import Equations.
Import ListNotations.

Local Open Scope Z_scope.

Definition bytes := list byte.

#[global] Instance byte_eq_dec : EqDecision byte := Byte.byte_eq_dec.

(** ** Python exceptions *)

Module Py.

Inductive exn : Type :=
| FileNotFoundError (msg : string)
| PermissionError (msg : string)
| OSError (msg : string)
| ValueError (msg : string)
| RuntimeError (msg : string)
| NotImplementedError (msg : string)
| BadZipFile (msg : string)
| KeyError (msg : string)
| KeyboardInterrupt.

(** [str(e)] *)
Definition str (e : exn) : string :=
  match e with
  | FileNotFoundError m | PermissionError m | OSError m | ValueError m
  | RuntimeError m | NotImplementedError m | BadZipFile m | KeyError m => m
  | KeyboardInterrupt => ""
  end.

(** [except (OSError, PermissionError)]: [FileNotFoundError] and
    [PermissionError] are subclasses of [OSError]. *)
Definition is_OSError (e : exn) : bool :=
  match e with
  | FileNotFoundError _ | PermissionError _ | OSError _ => true
  | _ => false
  end.

(** [except RuntimeError]: [NotImplementedError] is a subclass. *)
Definition is_RuntimeError (e : exn) : bool :=
  match e with
  | RuntimeError _ | NotImplementedError _ => true
  | _ => false
  end.

Definition is_BadZipFile (e : exn) : bool :=
  match e with BadZipFile _ => true | _ => false end.

Definition is_KeyboardInterrupt (e : exn) : bool :=
  match e with KeyboardInterrupt => true | _ => false end.

(** [except Exception]: everything here but [KeyboardInterrupt]. *)
Definition is_Exception (e : exn) : bool := negb (is_KeyboardInterrupt e).

Inductive result (A : Type) : Type :=
| Ok (a : A)
| Raise (e : exn).
Arguments Ok {A} a.
Arguments Raise {A} e.

Definition raised {A} (r : result A) : option exn :=
  match r with Ok _ => None | Raise e => Some e end.

(** [s.lower()] on ASCII letters. *)
Definition lower_ascii (c : ascii) : ascii :=
  let n := N_of_ascii c in
  if ((65 <=? n) && (n <=? 90))%N then ascii_of_N (n + 32) else c.

Fixpoint lower (s : string) : string :=
  match s with
  | EmptyString => EmptyString
  | String c s' => String (lower_ascii c) (lower s')
  end.

(** [sub in s] *)
Definition contains (sub s : string) : bool :=
  match Stdlib.Strings.String.index 0 sub s with
  | Some _ => true
  | None => false
  end.

(** Truthiness of an optional bytes value: [None] and [b''] are false. *)
Definition truthy (pwd : option bytes) : bool :=
  match pwd with
  | Some (_ :: _) => true
  | _ => false
  end.

(** [name.endswith('/')] *)
Fixpoint ends_with_slash (s : string) : bool :=
  match s with
  | EmptyString => false
  | String c EmptyString => Ascii.eqb c "/"
  | String _ s' => ends_with_slash s'
  end.

Section Monad.
Context {S : Type}.

Definition M (A : Type) : Type := S -> result A * S.

Definition ret {A} (a : A) : M A := fun s => (Ok a, s).

Definition raise {A} (e : exn) : M A := fun s => (Raise e, s).

Definition bind {A B} (m : M A) (k : A -> M B) : M B :=
  fun s =>
    match m s with
    | (Ok a, s') => k a s'
    | (Raise e, s') => (Raise e, s')
    end.

Definition get : M S := fun s => (Ok s, s).

Definition modify (f : S -> S) : M unit := fun s => (Ok tt, f s).

(** lift the result of an oracle *)
Definition lift {A} (r : result A) : M A := fun s => (r, s).

Definition lift_raises (o : option exn) : M unit :=
  fun s => match o with Some e => (Raise e, s) | None => (Ok tt, s) end.

(** [try: m  except <those e with h e = Some k>: k] *)
Definition try_except {A} (m : M A) (h : exn -> option (M A)) : M A :=
  fun s =>
    match m s with
    | (Ok a, s') => (Ok a, s')
    | (Raise e, s') =>
        match h e with
        | Some k => k s'
        | None => (Raise e, s')
        end
    end.

(** [try: m  finally: f] *)
Definition try_finally {A} (m : M A) (f : M unit) : M A :=
  fun s =>
    match m s with
    | (r, s') =>
        match f s' with
        | (Ok _, s'') => (r, s'')
        | (Raise e, s'') => (Raise e, s'')
        end
    end.

Definition when (b : bool) (m : M unit) : M unit :=
  if b then m else ret tt.

(** [for x in l: body x] *)
Fixpoint for_each {A} (l : list A) (body : A -> M unit) : M unit :=
  match l with
  | [] => ret tt
  | x :: l' => bind (body x) (fun _ => for_each l' body)
  end.

End Monad.

Arguments M : clear implicits.

End Py.

Import Py.

Declare Scope py_scope.
Delimit Scope py_scope with py.
Notation "x <- m ;; k" := (bind m (fun x => k))
  (at level 100, m at next level, right associativity) : py_scope.
Notation "m ;; k" := (bind m (fun _ => k))
  (at level 100, right associativity) : py_scope.
Local Open Scope py_scope.

(** ** Text and its UTF-8 encoding ([str.encode('utf-8')]) *)

Module Utf8.

(** a [str], as its code points; a Python string holds none above
    [0x10FFFF] *)
Definition text : Type := list N.

Definition to_byte (n : N) : byte :=
  match Byte.of_N n with Some b => b | None => x00 end.

(** the bytes of one code point; a surrogate cannot be encoded, which
    raises [UnicodeEncodeError], a subclass of [ValueError] *)
Definition encode_char (cp : N) : result bytes :=
  (if cp <? 128 then Ok [to_byte cp]
   else if cp <? 2048 then
     Ok [to_byte (192 + cp / 64); to_byte (128 + cp mod 64)]
   else if cp <? 65536 then
     if (55296 <=? cp) && (cp <=? 57343)
     then Raise (ValueError "surrogates not allowed")
     else Ok [to_byte (224 + cp / 4096); to_byte (128 + (cp / 64) mod 64);
              to_byte (128 + cp mod 64)]
   else if cp <? 1114112 then
     Ok [to_byte (240 + cp / 262144); to_byte (128 + (cp / 4096) mod 64);
         to_byte (128 + (cp / 64) mod 64); to_byte (128 + cp mod 64)]
   else Raise (ValueError "not a code point"))%N.

Fixpoint encode (s : text) : result bytes :=
  match s with
  | [] => Ok []
  | cp :: s' =>
      match encode_char cp with
      | Raise e => Raise e
      | Ok first =>
          match encode s' with
          | Raise e => Raise e
          | Ok rest => Ok (first ++ rest)
          end
      end
  end.

End Utf8.

(** ** Insertion-ordered dictionaries ([dict]) *)

Module Dict.
Section Dict.
Context {V : Type}.

Definition t := list (string * V).

(** [d[k] = v]: an existing key keeps its place. *)
Fixpoint set (k : string) (v : V) (d : t) : t :=
  match d with
  | [] => [(k, v)]
  | (k', v') :: d' =>
      if String.eqb k k' then (k, v) :: d' else (k', v') :: set k v d'
  end.

(** [d.get(k)] *)
Fixpoint get (k : string) (d : t) : option V :=
  match d with
  | [] => None
  | (k', v') :: d' => if String.eqb k k' then Some v' else get k d'
  end.

(** iteration order of [for k in d] *)
Definition keys (d : t) : list string := map fst d.

Definition values (d : t) : list V := map snd d.
End Dict.
Arguments t : clear implicits.
End Dict.

(** ** ZIP containers

    What [zipfile] and [pyzipper] keep of an archive: its entries in the order
    of the central directory.  An entry carries its stored name, its
    uncompressed bytes, its declared uncompressed size and how it is
    encrypted.  Compression is the codec's business and is not modelled:
    reading an entry gives back the bytes that were written. *)

Module Zip.

Inductive Encryption : Type :=
| Plain
| ZipCrypto (key : bytes)
| WZ_AES (key : bytes).

Record ZipEntry : Type := mkEntry {
  filename : string;
  data : bytes;
  file_size : N;
  encryption : Encryption;
}.

(** [ZipInfo.is_dir()] *)
Definition is_dir (e : ZipEntry) : bool := ends_with_slash (filename e).

(** The two classes the code opens archives with. *)
Inductive Backend : Type := ZipFile | AESZipFile.

(** An open archive. *)
Record Handle : Type := mkHandle {
  backend : Backend;
  entries : list ZipEntry;
  pwd : option bytes;
}.

(** [archive.setpassword(p)]: a falsy password clears it. *)
Definition setpassword (p : option bytes) (h : Handle) : Handle :=
  mkHandle (backend h) (entries h) (if truthy p then p else None).

(** [archive.namelist()] *)
Definition namelist (h : Handle) : list string := map filename (entries h).

(** [archive.infolist()] *)
Definition infolist (h : Handle) : list ZipEntry := entries h.

(** [archive.getinfo(name)]: the name table is filled in directory order, so
    a later entry of the same name replaces an earlier one. *)
Fixpoint getinfo_in (name : string) (es : list ZipEntry) : option ZipEntry :=
  match es with
  | [] => None
  | e :: es' =>
      match getinfo_in name es' with
      | Some e' => Some e'
      | None => if String.eqb name (filename e) then Some e else None
      end
  end.

Definition getinfo (h : Handle) (name : string) : option ZipEntry :=
  getinfo_in name (entries h).

Definition bytes_eqb (a b : bytes) : bool := bool_decide (a = b).

Definition msg_password_required : string :=
  "File is encrypted, password required for extraction".
Definition msg_bad_password : string := "Bad password for file".
Definition msg_unsupported : string :=
  "That compression method is not supported".

(** Opening one entry for reading with the password in force.  An encrypted
    entry without a password is refused first; [zipfile] then has no
    decompressor for an AES entry; otherwise the password is checked. *)
Definition decrypt (b : Backend) (e : ZipEntry) (p : option bytes)
  : result bytes :=
  match encryption e with
  | Plain => Ok (data e)
  | ZipCrypto key =>
      match p with
      | None => Raise (RuntimeError msg_password_required)
      | Some p' =>
          if bytes_eqb p' key then Ok (data e)
          else Raise (RuntimeError msg_bad_password)
      end
  | WZ_AES key =>
      match p with
      | None => Raise (RuntimeError msg_password_required)
      | Some p' =>
          match b with
          | ZipFile => Raise (NotImplementedError msg_unsupported)
          | AESZipFile =>
              if bytes_eqb p' key then Ok (data e)
              else Raise (RuntimeError msg_bad_password)
          end
      end
  end.

(** [archive.open(name, pwd=p)] followed by reading it all, and
    [archive.read(name, pwd=p)]: a falsy [p] falls back on the password of
    the handle. *)
Definition read (h : Handle) (name : string) (p : option bytes)
  : result bytes :=
  match getinfo h name with
  | None => Raise (KeyError "There is no item named that in the archive")
  | Some e => decrypt (backend h) e (if truthy p then p else pwd h)
  end.

(** the password an entry was encrypted with *)
Definition key_of (e : ZipEntry) : option bytes :=
  match encryption e with
  | Plain => None
  | ZipCrypto key | WZ_AES key => Some key
  end.

(** [p] is missing or is not the password of the encrypted entry [e] *)
Definition wrong_password (p : option bytes) (e : ZipEntry) : Prop :=
  exists key, key_of e = Some key /\ (truthy p = false \/ p <> Some key).

(** [archive.testzip()]: reads every entry by name; an exception other than
    [BadZipFile] escapes. *)
Fixpoint testzip_in (h : Handle) (names : list string) : result unit :=
  match names with
  | [] => Ok tt
  | n :: names' =>
      match read h n None with
      | Ok _ => testzip_in h names'
      | Raise e => if is_BadZipFile e then Ok tt else Raise e
      end
  end.

Definition testzip (h : Handle) : result unit := testzip_in h (namelist h).

(** What is stored at a path that is supposed to be an archive. *)
Inductive DiskFile : Type :=
| NotAZip
| Container (es : list ZipEntry).

(** [cls(path, 'r')] *)
Definition open_read (b : Backend) (f : DiskFile) : result Handle :=
  match f with
  | NotAZip => Raise (BadZipFile "File is not a zip file")
  | Container es => Ok (mkHandle b es None)
  end.

(** An archive open for writing: the class it was made with, whether
    [encryption=WZ_AES] was passed, and the password set on it. *)
Record WriteHandle : Type := mkWriteHandle {
  w_backend : Backend;
  w_aes : bool;
  w_pwd : option bytes;
}.

(** How [archive.writestr(arcname, data)] stores an entry: an archive made
    for AES encryption refuses to write without a password. *)
Definition writestr (h : WriteHandle) (arcname : string) (file_data : bytes)
  : result ZipEntry :=
  let size := N.of_nat (length file_data) in
  match w_backend h, w_aes h with
  | AESZipFile, true =>
      match w_pwd h with
      | Some p => Ok (mkEntry arcname file_data size (WZ_AES p))
      | None => Raise (RuntimeError "WZ_AES encryption requires a password.")
      end
  | _, _ => Ok (mkEntry arcname file_data size Plain)
  end.

End Zip.

(** ** backup_folder.py *)

Module Backup.

Definition MAX_COMPRESSION_LEVEL : Z := 9.
Definition CHUNK_SIZE : Z := 8 * 1024 * 1024.
Definition PROGRESS_UPDATE_INTERVAL : Z := 10.
Definition DISK_SPACE_RESERVE_RATIO : Q := 11 # 10.
Definition COMPRESSION_ESTIMATE_RATIO : Q := 1 # 2.

(** [int(x)] of a float: truncation toward zero. *)
Definition int_of_Q (q : Q) : Z := Z.quot (Qnum q) (Z.pos (Qden q)).

Record ArchiveStats : Type := mkStats {
  total_files : Z;
  processed_files : Z;
  total_size : Z;
  processed_size : Z;
  archive_size : Z;
  skipped_files : Z;
}.

Definition ArchiveStats0 : ArchiveStats := mkStats 0 0 0 0 0 0.

Definition compression_ratio (self : ArchiveStats) : Q :=
  if total_size self =? 0 then 0
  else (1 - inject_Z (archive_size self) / inject_Z (total_size self)) * 100.

Definition progress_percent (self : ArchiveStats) : Q :=
  if total_size self =? 0 then 0
  else (inject_Z (processed_size self) / inject_Z (total_size self)) * 100.

(** *** FileProcessor *)

(** [file.read(size)] on a regular file opened in binary mode: the bytes read
    and what is left after them.  A negative size reads to the end. *)
Fixpoint take (size : Z) (rest : bytes) : bytes :=
  match rest with
  | [] => []
  | b :: rest' => if size <=? 0 then [] else b :: take (size - 1) rest'
  end.

Fixpoint drop (size : Z) (rest : bytes) : bytes :=
  match rest with
  | [] => []
  | b :: rest' => if size <=? 0 then rest else drop (size - 1) rest'
  end.

Definition file_read (size : Z) (rest : bytes) : bytes * bytes :=
  if size <? 0 then (rest, []) else (take size rest, drop size rest).

Lemma file_read_length size rest :
  (length (fst (file_read size rest)) + length (snd (file_read size rest))
   = length rest)%nat.
Proof.
  unfold file_read. destruct (size <? 0); simpl; [lia|].
  revert size. induction rest as [|b rest IH]; intros size; simpl; [reflexivity|].
  destruct (size <=? 0); simpl; [reflexivity|].
  specialize (IH (size - 1)). lia.
Qed.

Definition inspect {A} (a : A) : {b : A | a = b} := exist _ a eq_refl.

(** The [while True] loop of [read_file_chunked]: [rest] is what the file
    still holds after the current position, [file_data] the bytearray. *)
Equations? read_loop (chunk_size : Z) (rest : bytes) (file_data : bytes)
  : bytes by wf (length rest) lt :=
  read_loop chunk_size rest file_data
    with inspect (fst (file_read chunk_size rest)) := {
    | exist _ [] _ => file_data
    | exist _ (b :: chunk) _ =>
        read_loop chunk_size (snd (file_read chunk_size rest))
                  (file_data ++ b :: chunk) }.
Proof.
  pose proof (file_read_length chunk_size rest) as H.
  rewrite e in H. simpl in H. lia.
Qed.

(** [open_rb] is the outcome of opening the file and the bytes it holds. *)
Definition read_file_chunked (chunk_size : Z) (open_rb : result bytes)
  : result bytes :=
  match open_rb with
  | Ok content => Ok (read_loop chunk_size content [])
  | Raise e => Raise e
  end.

Definition read_file_direct (open_rb : result bytes) : result bytes :=
  match open_rb with
  | Ok content => Ok content
  | Raise e => Raise e
  end.

(** *** The world a backup runs in *)

Record World : Type := mkWorld {
  (** [source_dir.exists()], [source_dir.is_dir()] *)
  source_exists : bool;
  source_is_dir : bool;
  (** what [source_dir.rglob('*')] yields, in order, as paths relative to the
      source directory, and the exception that ends the traversal, if any *)
  rglob : list string;
  rglob_raises : option exn;
  is_file : string -> bool;
  (** [file_path.stat().st_size] *)
  st_size : string -> result N;
  (** opening a file for reading, and its bytes *)
  open_rb : string -> result bytes;
  (** a failure of the operating system while an entry is written *)
  writestr_raises : string -> option exn;
  (** [backup_path.parent.exists()] and [shutil.disk_usage(...).free] *)
  parent_exists : bool;
  free_space : N;
  (** whether [import pyzipper] succeeds *)
  pyzipper_installed : bool;
  (** what is at [backup_path] before the run *)
  backup_path_before : option Zip.DiskFile;
  (** [backup_path.stat().st_size] while the archive is still open *)
  stat_archive : list Zip.ZipEntry -> N;
  (** whether [backup_path.unlink()] raises *)
  unlink_fails : bool;
}.

(** The arguments of [BackupCreator(...)] that are not paths. *)
Record BackupCreator : Type := mkCreator {
  password : option bytes;
  progress_callback : bool;
}.

Inductive Event : Type :=
| StatsSet (s : ArchiveStats)     (* an attribute of [self.stats] was assigned *)
| Progress (s : ArchiveStats)     (* [progress_callback(self.stats)] *)
| Opened
| Wrote (arcname : string)
| Closed
| Unlinked.

Record State : Type := mkState {
  stats : ArchiveStats;
  _file_sizes : Dict.t N;
  archive : option Zip.WriteHandle;       (* the open archive, if any *)
  backup_file : option Zip.DiskFile;       (* what is at [backup_path] *)
  log : list Event;
}.

Definition initial (w : World) : State :=
  mkState ArchiveStats0 [] None (backup_path_before w) [].

Definition emit (e : Event) : M State unit :=
  modify (fun s => mkState (stats s) (_file_sizes s) (archive s)
                           (backup_file s) (log s ++ [e])).

(** an assignment to an attribute of [self.stats] *)
Definition update_stats (f : ArchiveStats -> ArchiveStats) : M State unit :=
  modify (fun s => mkState (f (stats s)) (_file_sizes s) (archive s)
                           (backup_file s) (log s ++ [StatsSet (f (stats s))])).

Definition set_file_size (file_path : string) (file_size : N) : M State unit :=
  modify (fun s => mkState (stats s) (Dict.set file_path file_size (_file_sizes s))
                           (archive s) (backup_file s) (log s)).

Definition set_archive (a : option Zip.WriteHandle) : M State unit :=
  modify (fun s => mkState (stats s) (_file_sizes s) a (backup_file s) (log s)).

Definition set_backup_file (f : option Zip.DiskFile) : M State unit :=
  modify (fun s => mkState (stats s) (_file_sizes s) (archive s) f (log s)).

Definition add_total_size (n : Z) (s : ArchiveStats) : ArchiveStats :=
  mkStats (total_files s) (processed_files s) (total_size s + n)
          (processed_size s) (archive_size s) (skipped_files s).
Definition add_total_files (n : Z) (s : ArchiveStats) : ArchiveStats :=
  mkStats (total_files s + n) (processed_files s) (total_size s)
          (processed_size s) (archive_size s) (skipped_files s).
Definition add_processed_files (n : Z) (s : ArchiveStats) : ArchiveStats :=
  mkStats (total_files s) (processed_files s + n) (total_size s)
          (processed_size s) (archive_size s) (skipped_files s).
Definition add_processed_size (n : Z) (s : ArchiveStats) : ArchiveStats :=
  mkStats (total_files s) (processed_files s) (total_size s)
          (processed_size s + n) (archive_size s) (skipped_files s).
Definition add_skipped_files (n : Z) (s : ArchiveStats) : ArchiveStats :=
  mkStats (total_files s) (processed_files s) (total_size s)
          (processed_size s) (archive_size s) (skipped_files s + n).
Definition set_archive_size (n : Z) (s : ArchiveStats) : ArchiveStats :=
  mkStats (total_files s) (processed_files s) (total_size s)
          (processed_size s) n (skipped_files s).

(** [if self.progress_callback: self.progress_callback(self.stats)] *)
Definition report (c : BackupCreator) : M State unit :=
  if progress_callback c then s <- get ;; emit (Progress (stats s))
  else ret tt.

(** *** BackupCreator *)

Definition validate_source (w : World) : M State unit :=
  if negb (source_exists w) then
    raise (FileNotFoundError "Source directory not found")
  else if negb (source_is_dir w) then
    raise (ValueError "Path is not a directory")
  else ret tt.

(** one turn of the scanning loop *)
Definition scan_file (w : World) (file_path : string) : M State unit :=
  if negb (is_file w file_path) then ret tt
  else
    try_except
      (file_size <- lift (st_size w file_path) ;;
       set_file_size file_path file_size ;;
       update_stats (add_total_size (Z.of_N file_size)) ;;
       update_stats (add_total_files 1))
      (fun e => if is_OSError e then Some (ret tt) else None).

Definition calculate_total_size (w : World) : M State unit :=
  if negb (source_exists w) then ret tt
  else
    try_except
      (for_each (rglob w) (scan_file w) ;; lift_raises (rglob_raises w))
      (fun e => if is_KeyboardInterrupt e then Some (raise e) else None).

Definition estimated_size (total : Z) : Z :=
  int_of_Q (inject_Z total * COMPRESSION_ESTIMATE_RATIO
            * DISK_SPACE_RESERVE_RATIO).

Definition check_disk_space (w : World) : M State unit :=
  if negb (parent_exists w) then ret tt
  else
    s <- get ;;
    if Z.of_N (free_space w) <? estimated_size (total_size (stats s)) then
      raise (OSError "Insufficient disk space.")
    else ret tt.

(** [ZipArchiveManager(use_password)]: the class chosen and the
    [use_password] flag after the constructor. *)
Definition _get_zip_class (w : World) (use_password : bool)
  : Zip.Backend * bool :=
  if negb use_password then (Zip.ZipFile, false)
  else if pyzipper_installed w then (Zip.AESZipFile, true)
  else (Zip.ZipFile, false).

(** [ZipArchiveManager.create_archive]: creates or truncates the file. *)
Definition manager_create_archive (w : World) (c : BackupCreator)
  : M State unit :=
  let '(zip_class, use_password) :=
    _get_zip_class w (match password c with Some _ => true | None => false end) in
  if negb (parent_exists w) then
    raise (FileNotFoundError "No such file or directory")
  else
    set_backup_file (Some (Zip.Container [])) ;;
    emit Opened ;;
    set_archive (Some (Zip.mkWriteHandle zip_class use_password
                         (if use_password && truthy (password c)
                          then password c else None))).

(** [archive.writestr(arcname, file_data, ...)] *)
Definition archive_writestr (w : World) (arcname : string) (file_data : bytes)
  : M State unit :=
  s <- get ;;
  match archive s, backup_file s with
  | Some h, Some (Zip.Container es) =>
      entry <- lift (Zip.writestr h arcname file_data) ;;
      lift_raises (writestr_raises w arcname) ;;
      set_backup_file (Some (Zip.Container (es ++ [entry]))) ;;
      emit (Wrote arcname)
  | _, _ => raise (ValueError "Attempt to use ZIP archive that was already closed")
  end.

Definition _add_file_to_archive (w : World) (file_path arcname : string)
  : M State bool :=
  try_except
    (s <- get ;;
     let continue (file_size : N) : M State bool :=
       file_data <- lift (if Z.of_N file_size >? CHUNK_SIZE
                          then read_file_chunked CHUNK_SIZE (open_rb w file_path)
                          else read_file_direct (open_rb w file_path)) ;;
       archive_writestr w arcname file_data ;;
       update_stats (add_processed_files 1) ;;
       update_stats (add_processed_size (Z.of_N file_size)) ;;
       ret true in
     match Dict.get file_path (_file_sizes s) with
     | Some file_size => continue file_size
     | None =>
         match st_size w file_path with
         | Ok file_size => continue file_size
         | Raise e =>
             if is_OSError e then
               update_stats (add_skipped_files 1) ;; ret false
             else raise e
         end
     end)
    (fun e => if is_OSError e
              then Some (update_stats (add_skipped_files 1) ;; ret false)
              else None).

(** one turn of the archiving loop *)
Definition archive_file (w : World) (c : BackupCreator) (file_path : string)
  : M State unit :=
  _add_file_to_archive w file_path file_path ;;
  s <- get ;;
  when (processed_files (stats s) mod PROGRESS_UPDATE_INTERVAL =? 0)
       (report c).

Definition close_archive : M State unit :=
  set_archive None ;; emit Closed.

(** the body of [with ... as archive:] *)
Definition write_entries (w : World) (c : BackupCreator) : M State unit :=
  report c ;;
  s <- get ;;
  try_except
    (for_each (Dict.keys (_file_sizes s)) (archive_file w c))
    (fun e => if is_KeyboardInterrupt e then Some (raise e) else None) ;;
  s <- get ;;
  when (negb (processed_files (stats s) mod PROGRESS_UPDATE_INTERVAL =? 0))
       (report c) ;;
  s <- get ;;
  match backup_file s with
  | Some (Zip.Container es) =>
      update_stats (set_archive_size (Z.of_N (stat_archive w es)))
  | Some Zip.NotAZip => update_stats (set_archive_size 0)
  | None => update_stats (set_archive_size 0)
  end.

(** the first [try] block of [create_archive] *)
Definition prepare (w : World) : M State unit :=
  try_except
    (validate_source w ;; calculate_total_size w ;; check_disk_space w)
    (fun e => if is_KeyboardInterrupt e then Some (raise e) else None).

(** the second [try] block without its handler *)
Definition write_archive (w : World) (c : BackupCreator) : M State unit :=
  manager_create_archive w c ;;
  try_finally (write_entries w c) close_archive.

(** the [except KeyboardInterrupt] handler of the second block *)
Definition remove_incomplete (w : World) : M State unit :=
  s <- get ;;
  match backup_file s with
  | Some _ =>
      if unlink_fails w then ret tt
      else set_backup_file None ;; emit Unlinked
  | None => ret tt
  end.

(** the second [try] block *)
Definition write_phase (w : World) (c : BackupCreator) : M State unit :=
  try_except (write_archive w c)
    (fun e => if is_KeyboardInterrupt e
              then Some (remove_incomplete w ;; raise e)
              else None).

Definition create_archive (w : World) (c : BackupCreator) : M State unit :=
  prepare w ;; write_phase w c.

(** a whole run, from a fresh [BackupCreator] *)
Definition run (w : World) (c : BackupCreator) : result unit * State :=
  create_archive w c (initial w).

Definition assigned (e : Event) : option ArchiveStats :=
  match e with StatsSet st => Some st | _ => None end.

Definition reported_to_callback (e : Event) : option ArchiveStats :=
  match e with Progress st => Some st | _ => None end.

(** every value [self.stats] has had, in order *)
Definition history (s : State) : list ArchiveStats :=
  ArchiveStats0 :: omap assigned (log s).

(** the snapshots the progress callback was called with, in order *)
Definition progress_log (s : State) : list ArchiveStats :=
  omap reported_to_callback (log s).

(** *** The command line: [get_password] *)

(** [getpass] gives the outcome of the [n]-th call of [getpass.getpass],
    counted from 0.  The result comes with the number of calls made. *)
Definition get_password (getpass : nat -> result Utf8.text)
  : result bytes * nat :=
  match getpass 0%nat with
  | Raise e => (Raise e, 1%nat)
  | Ok [] => (Raise (ValueError "Password cannot be empty"), 1%nat)
  | Ok password =>
      match getpass 1%nat with
      | Raise e => (Raise e, 2%nat)
      | Ok password_confirm =>
          if bool_decide (password = password_confirm)
          then (Utf8.encode password, 2%nat)
          else (Raise (ValueError "Passwords do not match"), 2%nat)
      end
  end.

End Backup.

(** ** restore_folder.py *)

Module Restore.

Definition PROGRESS_UPDATE_INTERVAL : Z := 10.
Definition CHUNK_SIZE : Z := 8 * 1024 * 1024.

Record RestoreStats : Type := mkStats {
  total_files : Z;
  extracted_files : Z;
  total_size : Z;
  extracted_size : Z;
  skipped_files : Z;
  errors : Z;
}.

Definition RestoreStats0 : RestoreStats := mkStats 0 0 0 0 0 0.

Definition progress_percent (self : RestoreStats) : Q :=
  if total_files self =? 0 then 0
  else (inject_Z (extracted_files self) / inject_Z (total_files self)) * 100.

(** What happens when the bytes of an entry are copied to its target path:
    the copy completes, the target cannot be opened for writing, or the copy
    stops with an exception after some bytes have reached the file. *)
Inductive WriteOutcome : Type :=
| Written
| OpenFailed (e : exn)
| Broken (copied : nat) (e : exn).

Record World : Type := mkWorld {
  (** what is at [archive_path], [archive_path.is_file()] and
      [archive_path.stat().st_size] *)
  archive_file : option Zip.DiskFile;
  archive_is_file : bool;
  archive_st_size : N;
  (** whether [import pyzipper] succeeds *)
  pyzipper_installed : bool;
  (** [target_dir.anchor] is not empty; [Path(anchor).exists()];
      [target_dir.parent.exists()]; free space on that drive *)
  target_has_anchor : bool;
  anchor_exists : bool;
  parent_exists : bool;
  free_space : N;
  (** [target_dir.mkdir(parents=True, exist_ok=True)] *)
  target_mkdir_raises : option exn;
  (** [target_path.parent.mkdir(...)] for the entry of that name *)
  mkdir_raises : string -> option exn;
  write_outcome : string -> WriteOutcome;
  (** the files under [target_dir] before the run, by relative path *)
  target_before : gmap string bytes;
}.

(** The arguments of [RestoreExtractor(...)] that are not paths. *)
Record RestoreExtractor : Type := mkExtractor {
  password : option bytes;
  progress_callback : bool;
}.

Inductive Event : Type :=
| StatsSet (s : RestoreStats)
| Progress (s : RestoreStats)
| Opened (b : Zip.Backend)
| Closed
| Touched (file_name : string).   (* the target file was opened for writing *)

Record State : Type := mkState {
  stats : RestoreStats;
  archive : option Zip.Handle;      (* the local [archive] of [extract_archive] *)
  open_handles : nat;               (* archive handles open at the moment *)
  target : gmap string bytes;       (* the files under [target_dir] *)
  log : list Event;
}.

Definition initial (w : World) : State :=
  mkState RestoreStats0 None 0 (target_before w) [].

Definition emit (e : Event) : M State unit :=
  modify (fun s => mkState (stats s) (archive s) (open_handles s) (target s)
                           (log s ++ [e])).

Definition update_stats (f : RestoreStats -> RestoreStats) : M State unit :=
  modify (fun s => mkState (f (stats s)) (archive s) (open_handles s) (target s)
                           (log s ++ [StatsSet (f (stats s))])).

Definition set_archive (a : option Zip.Handle) : M State unit :=
  modify (fun s => mkState (stats s) a (open_handles s) (target s) (log s)).

Definition set_open_handles (f : nat -> nat) : M State unit :=
  modify (fun s => mkState (stats s) (archive s) (f (open_handles s))
                           (target s) (log s)).

Definition write_target (file_name : string) (content : bytes) : M State unit :=
  modify (fun s => mkState (stats s) (archive s) (open_handles s)
                           (<[file_name := content]> (target s))
                           (log s ++ [Touched file_name])).

Definition set_total_files (n : Z) (s : RestoreStats) : RestoreStats :=
  mkStats n (extracted_files s) (total_size s) (extracted_size s)
          (skipped_files s) (errors s).
Definition add_total_size (n : Z) (s : RestoreStats) : RestoreStats :=
  mkStats (total_files s) (extracted_files s) (total_size s + n)
          (extracted_size s) (skipped_files s) (errors s).
Definition add_extracted_files (n : Z) (s : RestoreStats) : RestoreStats :=
  mkStats (total_files s) (extracted_files s + n) (total_size s)
          (extracted_size s) (skipped_files s) (errors s).
Definition add_extracted_size (n : Z) (s : RestoreStats) : RestoreStats :=
  mkStats (total_files s) (extracted_files s) (total_size s)
          (extracted_size s + n) (skipped_files s) (errors s).
Definition add_skipped_files (n : Z) (s : RestoreStats) : RestoreStats :=
  mkStats (total_files s) (extracted_files s) (total_size s)
          (extracted_size s) (skipped_files s + n) (errors s).
Definition add_errors (n : Z) (s : RestoreStats) : RestoreStats :=
  mkStats (total_files s) (extracted_files s) (total_size s)
          (extracted_size s) (skipped_files s) (errors s + n).

Definition report (c : RestoreExtractor) : M State unit :=
  if progress_callback c then s <- get ;; emit (Progress (stats s))
  else ret tt.

(** *** ArchiveOpener *)

(** [cls(self.archive_path, 'r')] *)
Definition open_handle (w : World) (b : Zip.Backend) : M State Zip.Handle :=
  match archive_file w with
  | None => raise (FileNotFoundError "No such file or directory")
  | Some f =>
      h <- lift (Zip.open_read b f) ;;
      set_open_handles S ;; emit (Opened b) ;; ret h
  end.

(** [archive.close()] *)
Definition close_handle : M State unit :=
  set_open_handles Nat.pred ;; emit Closed.

Definition msg_required_or_incorrect : string := "Password required or incorrect".
Definition msg_incorrect : string := "Incorrect password".
Definition msg_install_pyzipper : string :=
  "Archive appears to be encrypted. Install pyzipper: pip install pyzipper".

(** the body of the [with] of [is_password_protected]: a first read without
    a password *)
Definition probe (h : Zip.Handle) : result bool :=
  match Zip.namelist h with
  | [] => Ok false
  | first :: _ =>
      match Zip.read h first None with
      | Ok _ => Ok false
      | Raise e => if is_RuntimeError e then Ok true else Raise e
      end
  end.

(** [ArchiveOpener.is_password_protected] on a fresh opener, whose cache is
    empty; both archives are closed by their [with] *)
Definition is_password_protected (w : World) : result bool :=
  match archive_file w with
  | None => Raise (FileNotFoundError "No such file or directory")
  | Some f =>
      match
        match Zip.open_read Zip.ZipFile f with
        | Ok h => probe h
        | Raise e => Raise e
        end
      with
      | Ok b => Ok b
      | Raise e =>
          if is_BadZipFile e then
            if negb (pyzipper_installed w) then Ok true
            else
              match
                match Zip.open_read Zip.AESZipFile f with
                | Ok h => probe h
                | Raise e' => Raise e'
                end
              with
              | Ok b => Ok b
              | Raise e' =>
                  if is_RuntimeError e' || is_BadZipFile e' then Ok true
                  else Raise e'
              end
          else Raise e
      end
  end.

Definition open_archive (w : World) (password : option bytes)
  : M State Zip.Handle :=
  try_except
    (h <- open_handle w Zip.ZipFile ;;
     let archive := if truthy password then Zip.setpassword password h else h in
     match Zip.namelist archive with
     | first :: _ =>
         try_except
           (lift (Zip.read archive first password) ;; ret archive)
           (fun e => if is_RuntimeError e
                     then Some (close_handle ;;
                                raise (RuntimeError msg_required_or_incorrect))
                     else None)
     | [] => ret archive
     end)
    (fun e =>
       if is_BadZipFile e || is_RuntimeError e then
         Some (if negb (pyzipper_installed w) then
                 raise (RuntimeError msg_install_pyzipper)
               else
                 try_except
                   (h <- open_handle w Zip.AESZipFile ;;
                    let archive :=
                      if truthy password then Zip.setpassword password h else h in
                    match Zip.namelist archive with
                    | first :: _ =>
                        lift (Zip.read archive first None) ;; ret archive
                    | [] => ret archive
                    end)
                   (fun e' =>
                      if is_RuntimeError e' then
                        Some (if contains "Bad password" (str e')
                                 || contains "password" (lower (str e'))
                              then raise (RuntimeError msg_incorrect)
                              else raise e')
                      else None))
       else None).

(** *** RestoreExtractor *)

Definition validate_archive (w : World) (c : RestoreExtractor) : M State unit :=
  match archive_file w with
  | None => raise (FileNotFoundError "Archive not found")
  | Some _ =>
      if negb (archive_is_file w) then raise (ValueError "Path is not a file")
      else
        try_except
          (h <- open_archive w (password c) ;;
           try_finally (lift (Zip.testzip h)) close_handle)
          (fun e =>
             if is_RuntimeError e then
               Some (if contains "password" (lower (str e))
                     then raise (RuntimeError msg_required_or_incorrect)
                     else raise e)
             else if is_BadZipFile e then
               Some (raise (BadZipFile
                              "Archive is corrupted or not a valid ZIP file"))
             else None)
  end.

(** [target_drive.exists()] *)
Definition target_drive_exists (w : World) : bool :=
  if target_has_anchor w then anchor_exists w else parent_exists w.

Definition check_disk_space (w : World) : M State unit :=
  match archive_file w with
  | None => raise (FileNotFoundError "No such file or directory")
  | Some _ =>
      let archive_size := Z.of_N (archive_st_size w) in
      if negb (target_drive_exists w) then ret tt
      else
        let required_space := archive_size * 2 in
        if Z.of_N (free_space w) <? required_space then
          raise (OSError "Not enough disk space.")
        else ret tt
  end.

(** the two nested [with] blocks that copy one entry to its target path *)
Definition copy_entry (w : World) (file_name : string) (file_data : bytes)
  : M State unit :=
  match write_outcome w file_name with
  | Written => write_target file_name file_data
  | OpenFailed e => raise e
  | Broken copied e =>
      write_target file_name (firstn copied file_data) ;; raise e
  end.

(** the two [except] clauses of the extraction loop *)
Definition entry_except (e : exn) : option (M State unit) :=
  if is_OSError e then
    Some (update_stats (add_skipped_files 1) ;;
          update_stats (add_errors 1))
  else if is_RuntimeError e then
    Some (if contains "password" (lower (str e))
          then raise (RuntimeError msg_incorrect)
          else raise e)
  else None.

(** one turn of the extraction loop *)
Definition extract_file (w : World) (c : RestoreExtractor) (h : Zip.Handle)
    (file_name : string) : M State unit :=
  try_except
    (match Zip.getinfo h file_name with
     | None => raise (KeyError "There is no item named that in the archive")
     | Some file_info =>
         if Zip.is_dir file_info then ret tt
         else
           lift_raises (mkdir_raises w file_name) ;;
           file_data <- lift (Zip.read h file_name (password c)) ;;
           copy_entry w file_name file_data ;;
           update_stats (add_extracted_files 1) ;;
           update_stats (add_extracted_size (Z.of_N (Zip.file_size file_info))) ;;
           s <- get ;;
           when ((extracted_files (stats s) mod PROGRESS_UPDATE_INTERVAL =? 0)
                 || (extracted_files (stats s) =? total_files (stats s)))
                (report c)
     end)
    entry_except.

(** [for file_info in archive.infolist(): ...] *)
Definition count_size (file_info : Zip.ZipEntry) : M State unit :=
  if Zip.is_dir file_info then ret tt
  else update_stats (add_total_size (Z.of_N (Zip.file_size file_info))).

(** the body of the [try] of [extract_archive] *)
Definition extract_entries (w : World) (c : RestoreExtractor) : M State unit :=
  h <- open_archive w (password c) ;;
  set_archive (Some h) ;;
  let file_list := Zip.namelist h in
  update_stats (set_total_files (Z.of_nat (length file_list))) ;;
  for_each (Zip.infolist h) count_size ;;
  report c ;;
  for_each file_list (extract_file w c h).

(** the [finally] clause *)
Definition close_if_open : M State unit :=
  s <- get ;;
  match archive s with
  | Some _ => close_handle
  | None => ret tt
  end.

Definition extract_archive (w : World) (c : RestoreExtractor) : M State unit :=
  validate_archive w c ;;
  check_disk_space w ;;
  lift_raises (target_mkdir_raises w) ;;
  try_finally
    (try_except (extract_entries w c)
       (fun e => if is_KeyboardInterrupt e then Some (raise e) else None))
    close_if_open ;;
  report c.

Definition run (w : World) (c : RestoreExtractor) : result unit * State :=
  extract_archive w c (initial w).

Definition assigned (e : Event) : option RestoreStats :=
  match e with StatsSet st => Some st | _ => None end.

Definition reported_to_callback (e : Event) : option RestoreStats :=
  match e with Progress st => Some st | _ => None end.

(** every value [self.stats] has had, in order *)
Definition history (s : State) : list RestoreStats :=
  RestoreStats0 :: omap assigned (log s).

(** the snapshots the progress callback was called with, in order *)
Definition progress_log (s : State) : list RestoreStats :=
  omap reported_to_callback (log s).

Definition touched (e : Event) : option string :=
  match e with Touched file_name => Some file_name | _ => None end.

(** the target files that were opened for writing, in order *)
Definition written (s : State) : list string := omap touched (log s).

(** *** The command line: [verify_password] and [get_password] *)

Definition verify_password (w : World) (password : bytes) : M State bool :=
  try_except
    (h <- open_archive w (Some password) ;;
     try_finally
       (match Zip.namelist h with
        | first :: _ => lift (Zip.read h first None) ;; ret true
        | [] => ret true
        end)
       close_handle)
    (fun e => if is_RuntimeError e then Some (ret false)
              else if is_Exception e then Some (ret false)
              else None).

(** the [for attempt in range(1, max_attempts + 1)] loop: [remaining] turns
    are left and [asked] calls of [getpass.getpass] have been made *)
Fixpoint get_password_loop (getpass : nat -> result Utf8.text)
    (remaining asked : nat) : result bytes * nat :=
  match remaining with
  | O => (Raise (ValueError "Maximum password attempts exceeded"), asked)
  | S remaining' =>
      match getpass asked with
      | Raise e => (Raise e, S asked)
      | Ok [] => get_password_loop getpass remaining' (S asked)
      | Ok password => (Utf8.encode password, S asked)
      end
  end.

(** [getpass] gives the outcome of the [n]-th call of [getpass.getpass],
    counted from 0.  The result comes with the number of calls made. *)
Definition get_password (getpass : nat -> result Utf8.text)
    (max_attempts : Z) : result bytes * nat :=
  get_password_loop getpass (Z.to_nat max_attempts) 0.

End Restore.

(** ** Predicates on runs *)

Module BackupInv.
Import Backup.

(** the counters of a backup are consistent *)
Definition consistent (st : ArchiveStats) : Prop :=
  0 <= processed_files st /\ 0 <= skipped_files st
  /\ processed_files st + skipped_files st <= total_files st
  /\ 0 <= processed_size st <= total_size st.

(** sum of the cached sizes *)
Definition cached_total (d : Dict.t N) : Z :=
  fold_right (fun kv acc => Z.of_N (snd kv) + acc) 0 d.

(** sum of the cached sizes of the paths in [l] *)
Definition planned (d : Dict.t N) (l : list string) : Z :=
  fold_right (fun k acc => match Dict.get k d with
                           | Some z => Z.of_N z + acc
                           | None => acc
                           end) 0 l.

(** after the scan, before the first file is archived *)
Definition scanned (s : State) : Prop :=
  processed_files (stats s) = 0 /\ skipped_files (stats s) = 0
  /\ processed_size (stats s) = 0
  /\ Z.of_nat (length (_file_sizes s)) <= total_files (stats s)
  /\ cached_total (_file_sizes s) <= total_size (stats s)
  /\ NoDup (Dict.keys (_file_sizes s))
  /\ Forall consistent (history s).

(** while the files [l] are still to be archived *)
Definition archiving (d : Dict.t N) (l : list string) (s : State) : Prop :=
  _file_sizes s = d
  /\ Forall (fun k => is_Some (Dict.get k d)) l
  /\ 0 <= processed_files (stats s) /\ 0 <= skipped_files (stats s)
  /\ processed_files (stats s) + skipped_files (stats s)
      + Z.of_nat (length l) <= total_files (stats s)
  /\ 0 <= processed_size (stats s)
  /\ processed_size (stats s) + planned d l <= total_size (stats s)
  /\ Forall consistent (history s).

(** every value the counters have had is consistent, the current one too *)
Definition sound (s : State) : Prop :=
  consistent (stats s) /\ Forall consistent (history s).

(** the state after [file_path] went into the archive as [entry] *)
Definition processed (arcname : string) (file_size : N) (entry : Zip.ZipEntry)
    (es : list Zip.ZipEntry) (s : State) : State :=
  mkState (add_processed_size (Z.of_N file_size)
             (add_processed_files 1 (stats s)))
          (_file_sizes s) (archive s)
          (Some (Zip.Container (es ++ [entry])))
          (log s ++ [Wrote arcname;
                     StatsSet (add_processed_files 1 (stats s));
                     StatsSet (add_processed_size (Z.of_N file_size)
                                 (add_processed_files 1 (stats s)))]).

(** the state after a file was skipped *)
Definition skipped (s : State) : State :=
  mkState (add_skipped_files 1 (stats s)) (_file_sizes s) (archive s)
          (backup_file s)
          (log s ++ [StatsSet (add_skipped_files 1 (stats s))]).

(** the state after the progress callback was called *)
Definition reported (s : State) : State :=
  mkState (stats s) (_file_sizes s) (archive s) (backup_file s)
          (log s ++ [Progress (stats s)]).

(** how one call of [_add_file_to_archive] can end *)
Inductive added (w : World) (file_path arcname : string) (file_size : N)
    (s : State) : result bool * State -> Prop :=
| added_ok h es content entry :
    archive s = Some h ->
    backup_file s = Some (Zip.Container es) ->
    open_rb w file_path = Ok content ->
    Zip.writestr h arcname content = Ok entry ->
    writestr_raises w arcname = None ->
    added w file_path arcname file_size s
          (Ok true, processed arcname file_size entry es s)
| added_skipped :
    added w file_path arcname file_size s (Ok false, skipped s)
| added_raise e :
    is_OSError e = false ->
    added w file_path arcname file_size s (Raise e, s).

(** no callback has been made yet *)
Definition silent (s : State) : Prop := progress_log s = [].

(** what the callback has been told while the files are archived: [first] is
    the first snapshot *)
Definition announced (first : ArchiveStats) (s : State) : Prop :=
  (exists rest, progress_log s = first :: rest)
  /\ 0 <= processed_files (stats s)
  /\ (forall k, 0 < k -> 10 * k <= processed_files (stats s) ->
        exists st, In st (progress_log s) /\ processed_files st = 10 * k)
  /\ (processed_files (stats s) mod PROGRESS_UPDATE_INTERVAL = 0 ->
        last (progress_log s) = Some (stats s)).

(** no archive is open *)
Definition closed (s : State) : Prop := archive s = None.

(** the scan caches [file_path]: it is a regular file and [stat] works *)
Definition scannable (w : World) (file_path : string) : bool :=
  is_file w file_path
  && match st_size w file_path with Ok _ => true | Raise _ => false end.

(** the archive file is at the backup path *)
Definition on_disk (s : State) : Prop :=
  exists es, backup_file s = Some (Zip.Container es).

(** [file_path] can be opened and read, and its entry can be written *)
Definition archivable (w : World) (file_path : string) : bool :=
  match open_rb w file_path, writestr_raises w file_path with
  | Ok _, None => true
  | _, _ => false
  end.

End BackupInv.

Module RestoreInv.
Import Restore.

(** the counters of a restore are consistent *)
Definition consistent (st : RestoreStats) : Prop :=
  0 <= extracted_files st /\ 0 <= skipped_files st
  /\ extracted_files st + skipped_files st <= total_files st.

(** nothing has been extracted or skipped yet *)
Definition pristine (s : State) : Prop :=
  extracted_files (stats s) = 0 /\ skipped_files (stats s) = 0
  /\ 0 <= total_files (stats s)
  /\ Forall consistent (history s).

(** while the entries [l] are still to be extracted *)
Definition extracting (l : list string) (s : State) : Prop :=
  0 <= extracted_files (stats s) /\ 0 <= skipped_files (stats s)
  /\ extracted_files (stats s) + skipped_files (stats s)
      + Z.of_nat (length l) <= total_files (stats s)
  /\ Forall consistent (history s).

Definition sound (s : State) : Prop :=
  consistent (stats s) /\ Forall consistent (history s).

(** the entries [l] were counted and none has been extracted or skipped *)
Definition ready (l : list string) (s : State) : Prop :=
  pristine s /\ total_files (stats s) = Z.of_nat (length l).

(** [s] differs from [s0] in handles and in events that are neither
    assignments to the counters nor writes to the target directory *)
Definition untouched (s0 s : State) : Prop :=
  stats s = stats s0 /\ target s = target s0
  /\ history s = history s0 /\ progress_log s = progress_log s0
  /\ written s = written s0.

(** the state after the bytes [content] reached [file_name] *)
Definition copied (file_name : string) (content : bytes) (s : State) : State :=
  mkState (stats s) (archive s) (open_handles s)
          (<[file_name := content]> (target s))
          (log s ++ [Touched file_name]).

(** the state after the counters recorded an extracted entry *)
Definition counted (file_size : N) (s : State) : State :=
  mkState (add_extracted_size (Z.of_N file_size)
             (add_extracted_files 1 (stats s)))
          (archive s) (open_handles s) (target s)
          (log s ++ [StatsSet (add_extracted_files 1 (stats s));
                     StatsSet (add_extracted_size (Z.of_N file_size)
                                 (add_extracted_files 1 (stats s)))]).

(** the state after the counters recorded a skipped entry *)
Definition skipped (s : State) : State :=
  mkState (add_errors 1 (add_skipped_files 1 (stats s)))
          (archive s) (open_handles s) (target s)
          (log s ++ [StatsSet (add_skipped_files 1 (stats s));
                     StatsSet (add_errors 1 (add_skipped_files 1 (stats s)))]).

Definition reported (s : State) : State :=
  mkState (stats s) (archive s) (open_handles s) (target s)
          (log s ++ [Progress (stats s)]).

(** the callback fires after an extraction that brings the count to a
    multiple of ten or to the number of entries *)
Definition due (st : RestoreStats) : bool :=
  (extracted_files st mod PROGRESS_UPDATE_INTERVAL =? 0)
  || (extracted_files st =? total_files st).

(** where one turn of the extraction loop can be when it stops early: at its
    start, or after part of the entry was copied *)
Definition halfway (w : World) (c : RestoreExtractor) (h : Zip.Handle)
    (file_name : string) (s mid : State) : Prop :=
  mid = s
  \/ exists content copied_bytes e,
       Zip.read h file_name (password c) = Ok content
       /\ write_outcome w file_name = Broken copied_bytes e
       /\ mid = copied file_name (firstn copied_bytes content) s.

(** how one turn of the extraction loop can end *)
Inductive extracted (w : World) (c : RestoreExtractor) (h : Zip.Handle)
    (file_name : string) (s : State) : result unit * State -> Prop :=
| extracted_dir file_info :
    Zip.getinfo h file_name = Some file_info ->
    Zip.is_dir file_info = true ->
    extracted w c h file_name s (Ok tt, s)
| extracted_file file_info content :
    Zip.getinfo h file_name = Some file_info ->
    Zip.is_dir file_info = false ->
    mkdir_raises w file_name = None ->
    Zip.read h file_name (password c) = Ok content ->
    write_outcome w file_name = Written ->
    extracted w c h file_name s
      (Ok tt,
       let s1 := counted (Zip.file_size file_info) (copied file_name content s) in
       if due (stats s1) && progress_callback c then reported s1 else s1)
| extracted_skipped mid :
    halfway w c h file_name s mid ->
    extracted w c h file_name s (Ok tt, skipped mid)
| extracted_raise mid e :
    halfway w c h file_name s mid ->
    is_OSError e = false ->
    extracted w c h file_name s (Raise e, mid).

(** the entries are counted, nothing is extracted, no callback was made *)
Definition counted_up (n : Z) (s : State) : Prop :=
  extracted_files (stats s) = 0 /\ skipped_files (stats s) = 0
  /\ total_files (stats s) = n /\ progress_log s = [].

(** what the callback has been told while the entries are extracted *)
Definition announced (first : RestoreStats) (s : State) : Prop :=
  (exists rest, progress_log s = first :: rest)
  /\ 0 <= extracted_files (stats s)
  /\ total_files (stats s) = total_files first
  /\ (forall k, 0 < k -> 10 * k <= extracted_files (stats s) ->
        exists st, In st (progress_log s) /\ extracted_files st = 10 * k).

(** every file that was in the target directory before the run, and every
    file the run has opened for writing, is in the target directory *)
Definition nothing_removed (w : World) (s : State) : Prop :=
  (forall file_name, In file_name (written s) ->
                     is_Some (target s !! file_name))
  /\ (forall file_name, is_Some (target_before w !! file_name) ->
                        is_Some (target s !! file_name)).

(** the local [archive] of [extract_archive] holds the open handle *)
Definition holding (h : Zip.Handle) (n : nat) (s : State) : Prop :=
  archive s = Some h /\ open_handles s = n.

(** what the rest of a run may rely on after a step that only counts or
    logs: the local [archive] and the target directory are as before *)
Definition same_files (s s' : State) : Prop :=
  archive s' = archive s /\ target s' = target s.


End RestoreInv.

(** ** A directory, its backup and its restore *)

Module RoundTrip.

(** the regular files [rglob] yields, as paths relative to the source *)
Definition files (w : Backup.World) : list string :=
  List.filter (Backup.is_file w) (Backup.rglob w).

Definition content_of (w : Backup.World) (file_path : string) : bytes :=
  match Backup.open_rb w file_path with
  | Ok content => content
  | Raise _ => []
  end.

(** the source directory as a map from relative paths to contents *)
Definition directory (w : Backup.World) : gmap string bytes :=
  list_to_map (map (fun file_path => (file_path, content_of w file_path))
                   (files w)).

(** the archive handle [create_archive] writes with *)
Definition writer (w : Backup.World) (c : Backup.BackupCreator)
  : Zip.WriteHandle :=
  let chosen :=
    Backup._get_zip_class w (match Backup.password c with
                             | Some _ => true | None => false end) in
  Zip.mkWriteHandle (fst chosen) (snd chosen)
                    (if snd chosen && truthy (Backup.password c)
                     then Backup.password c else None).

(** how the entries of the backup are encrypted *)
Definition encryption_of (w : Backup.World) (c : Backup.BackupCreator)
  : Zip.Encryption :=
  match Zip.w_backend (writer w c), Zip.w_aes (writer w c),
        Zip.w_pwd (writer w c) with
  | Zip.AESZipFile, true, Some p => Zip.WZ_AES p
  | _, _, _ => Zip.Plain
  end.

(** the entry a file is stored as *)
Definition entry_of (w : Backup.World) (c : Backup.BackupCreator)
    (file_path : string) : Zip.ZipEntry :=
  Zip.mkEntry file_path (content_of w file_path)
              (N.of_nat (length (content_of w file_path)))
              (encryption_of w c).

(** the files a list of entries describes *)
Definition files_of (l : list Zip.ZipEntry) : gmap string bytes :=
  list_to_map (map (fun e => (Zip.filename e, Zip.data e)) l).

(** A backup that nothing disturbs: the source is a directory whose traversal
    ends normally and lists every regular file once, every regular file can be
    examined and read, the space preflight lets the backup through, the
    archive can be created and written, and a password, if any, is not
    empty. *)
Record calm_backup (w : Backup.World) (c : Backup.BackupCreator) : Prop := {
  calm_source : Backup.source_exists w = true /\ Backup.source_is_dir w = true;
  calm_traversal : Backup.rglob_raises w = None;
  calm_listing : NoDup (files w);
  calm_paths : forall p, In p (files w) -> ends_with_slash p = false;
  calm_stat : forall p, In p (files w) -> exists n, Backup.st_size w p = Ok n;
  calm_read : forall p, In p (files w) ->
                        exists content, Backup.open_rb w p = Ok content;
  calm_write : forall p, Backup.writestr_raises w p = None;
  calm_parent : Backup.parent_exists w = true;
  calm_space :
    fst (Backup.check_disk_space w
           (snd (Backup.calculate_total_size w (Backup.initial w)))) = Ok tt;
  calm_password :
    Backup.password c = None \/ truthy (Backup.password c) = true;
}.

(** A restore into an empty directory that nothing disturbs. *)
Record calm_restore (rw : Restore.World) : Prop := {
  calm_is_file : Restore.archive_is_file rw = true;
  calm_room :
    Restore.target_drive_exists rw = false
    \/ Z.of_N (Restore.archive_st_size rw) * 2 <= Z.of_N (Restore.free_space rw);
  calm_target : Restore.target_mkdir_raises rw = None;
  calm_mkdir : forall n, Restore.mkdir_raises rw n = None;
  calm_copy : forall n, Restore.write_outcome rw n = Restore.Written;
  calm_empty : Restore.target_before rw = ∅;
}.

(** A restore that nothing disturbs, into a directory that may hold files. *)
Record undisturbed (rw : Restore.World) : Prop := {
  undisturbed_is_file : Restore.archive_is_file rw = true;
  undisturbed_room :
    Restore.target_drive_exists rw = false
    \/ Z.of_N (Restore.archive_st_size rw) * 2 <= Z.of_N (Restore.free_space rw);
  undisturbed_target : Restore.target_mkdir_raises rw = None;
  undisturbed_mkdir : forall n, Restore.mkdir_raises rw n = None;
  undisturbed_copy : forall n, Restore.write_outcome rw n = Restore.Written;
}.

End RoundTrip.

(** ** Sample inputs *)

Module Samples.

(** the stats of the repository's test of the ratio: 1000 bytes into 500 *)
Definition half_compressed : Backup.ArchiveStats :=
  Backup.mkStats 0 0 1000 0 500 0.

(** a restore with room to spare and a file system that never fails, of the
    archive stored as [f] *)
Definition calm_restore (f : Zip.DiskFile) : Restore.World :=
  Restore.mkWorld (Some f) true 100 true true true true 1000 None
                  (fun _ => None) (fun _ => Restore.Written) ∅.

(** an archive that holds one empty file *)
Definition one_empty_file : Zip.DiskFile :=
  Zip.Container [Zip.mkEntry "empty.txt" [] 0 Zip.Plain].

Definition no_password : Restore.RestoreExtractor :=
  Restore.mkExtractor None true.

(** a source directory that holds one file of 1001 zero bytes; 550 bytes are
    free where the archive goes *)
Definition zeros : bytes := repeat x00 1001.

Definition zeros_world : Backup.World :=
  Backup.mkWorld true true ["zeros.bin"] None (fun _ => true)
                 (fun _ => Ok 1001%N) (fun _ => Ok zeros) (fun _ => None)
                 true 550 true None (fun _ => 131%N) false.

Definition plain_backup : Backup.BackupCreator := Backup.mkCreator None true.

(** the same directory, archived to a path whose parent does not exist *)
Definition nowhere_world : Backup.World :=
  Backup.mkWorld true true ["zeros.bin"] None (fun _ => true)
                 (fun _ => Ok 1001%N) (fun _ => Ok zeros) (fun _ => None)
                 false 0 true None (fun _ => 131%N) false.

(** a restore to a drive that does not exist *)
Definition no_drive_restore (f : option Zip.DiskFile) : Restore.World :=
  Restore.mkWorld f true 100 true true false false 0 None
                  (fun _ => None) (fun _ => Restore.Written) ∅.

(** twelve files of one byte each *)
Definition dozen : list string :=
  ["f01"; "f02"; "f03"; "f04"; "f05"; "f06";
   "f07"; "f08"; "f09"; "f10"; "f11"; "f12"].

Definition dozen_world : Backup.World :=
  Backup.mkWorld true true dozen None (fun _ => true)
                 (fun _ => Ok 1%N) (fun _ => Ok [x2a]) (fun _ => None)
                 true 1000 true None (fun _ => 1200%N) false.

(** the archive [dozen_world] is backed up to *)
Definition dozen_archive : Zip.DiskFile :=
  Zip.Container (map (fun name => Zip.mkEntry name [x2a] 1 Zip.Plain) dozen).

(** an archive whose two entries are AES-encrypted with the password "pw" *)
Definition the_password : bytes := [x70; x77].

Definition protected_entry : Zip.ZipEntry :=
  Zip.mkEntry "a.txt" [x68; x69] 2 (Zip.WZ_AES the_password).

Definition protected_entries : list Zip.ZipEntry :=
  [protected_entry;
   Zip.mkEntry "b.txt" [x68; x6f] 2 (Zip.WZ_AES the_password)].

Definition protected_archive : Zip.DiskFile :=
  Zip.Container protected_entries.

(** a restore that supplies the password "no" *)
Definition wrong_guess : Restore.RestoreExtractor :=
  Restore.mkExtractor (Some [x6e; x6f]) true.

(** three files; Ctrl+C arrives while the second one is read *)
Definition interrupted_world : Backup.World :=
  Backup.mkWorld true true ["file0.txt"; "file1.txt"; "file2.txt"] None
                 (fun _ => true) (fun _ => Ok 9%N)
                 (fun file_path => if String.eqb file_path "file1.txt"
                                   then Raise KeyboardInterrupt
                                   else Ok [x63; x6f; x6e; x74; x65; x6e; x74;
                                            x20; x30])
                 (fun _ => None) true 1000 true None (fun _ => 150%N) false.

(** the same, on a file system that refuses to delete the archive *)
Definition interrupted_undeletable_world : Backup.World :=
  Backup.mkWorld true true ["file0.txt"; "file1.txt"; "file2.txt"] None
                 (fun _ => true) (fun _ => Ok 9%N)
                 (fun file_path => if String.eqb file_path "file1.txt"
                                   then Raise KeyboardInterrupt
                                   else Ok [x63; x6f; x6e; x74; x65; x6e; x74;
                                            x20; x30])
                 (fun _ => None) true 1000 true None (fun _ => 150%N) true.

(** a restore of two entries; Ctrl+C arrives after one byte of the second
    entry has been copied *)
Definition two_entries : Zip.DiskFile :=
  Zip.Container [Zip.mkEntry "one.txt" [x31; x31] 2 Zip.Plain;
                 Zip.mkEntry "two.txt" [x32; x32] 2 Zip.Plain].

Definition interrupted_restore : Restore.World :=
  Restore.mkWorld (Some two_entries) true 100 true true true true 1000 None
                  (fun _ => None)
                  (fun file_name => if String.eqb file_name "two.txt"
                                    then Restore.Broken 1 KeyboardInterrupt
                                    else Restore.Written)
                  ∅.

(** the directory of the usage example: two files, one in a subdirectory *)
Definition content_1 : bytes := [x63; x6f; x6e; x74; x65; x6e; x74; x20; x31].
Definition content_2 : bytes := [x63; x6f; x6e; x74; x65; x6e; x74; x20; x32].

Definition tree_world : Backup.World :=
  Backup.mkWorld true true ["file1.txt"; "subdir"; "subdir/file2.txt"] None
                 (fun file_path => negb (String.eqb file_path "subdir"))
                 (fun _ => Ok 9%N)
                 (fun file_path => if String.eqb file_path "file1.txt"
                                   then Ok content_1 else Ok content_2)
                 (fun _ => None) true 1000 true None (fun _ => 300%N) false.

(** a backup and a restore that use the password "pw" *)
Definition protected_backup : Backup.BackupCreator :=
  Backup.mkCreator (Some the_password) true.

Definition right_password : Restore.RestoreExtractor :=
  Restore.mkExtractor (Some the_password) true.

(** the archive [tree_world] is backed up to with that password *)
Definition tree_archive : Zip.DiskFile :=
  Zip.Container
    [Zip.mkEntry "file1.txt" content_1 9 (Zip.WZ_AES the_password);
     Zip.mkEntry "subdir/file2.txt" content_2 9 (Zip.WZ_AES the_password)].

(** a backup of a path that does not exist *)
Definition no_source_world : Backup.World :=
  Backup.mkWorld false false [] None (fun _ => false)
                 (fun _ => Raise (FileNotFoundError "No such file or directory"))
                 (fun _ => Raise (FileNotFoundError "No such file or directory"))
                 (fun _ => None) true 1000 true None (fun _ => 0%N) false.

(** a backup of a path that is a regular file *)
Definition file_as_source_world : Backup.World :=
  Backup.mkWorld true false [] None (fun _ => false)
                 (fun _ => Raise (OSError "Not a directory"))
                 (fun _ => Raise (OSError "Not a directory"))
                 (fun _ => None) true 1000 true None (fun _ => 0%N) false.

(** three files: the second cannot be read; when [third_fails], the name of
    the third cannot be encoded for the archive *)
Definition mixed_world (third_fails : bool) : Backup.World :=
  Backup.mkWorld true true ["a.txt"; "locked.txt"; "c.txt"] None
                 (fun _ => true) (fun _ => Ok 2%N)
                 (fun file_path => if String.eqb file_path "locked.txt"
                                   then Raise (PermissionError "Permission denied")
                                   else Ok [x68; x69])
                 (fun arcname => if third_fails && String.eqb arcname "c.txt"
                                 then Some (ValueError "surrogates not allowed")
                                 else None)
                 true 1000 true None (fun _ => 150%N) false.



(** a restore from a path that is a directory *)
Definition directory_as_archive : Restore.World :=
  Restore.mkWorld (Some Zip.NotAZip) false 100 true true true true 1000 None
                  (fun _ => None) (fun _ => Restore.Written) ∅.

(** a restore of a 100-byte archive with 199 bytes free *)
Definition tight_restore : Restore.World :=
  Restore.mkWorld (Some two_entries) true 100 true true true true 199 None
                  (fun _ => None) (fun _ => Restore.Written) ∅.

(** an archive made by another tool: it lists the directory [docs/] *)
Definition folder_entries : list Zip.ZipEntry :=
  [Zip.mkEntry "a.txt" [x61] 1 Zip.Plain;
   Zip.mkEntry "docs/" [] 0 Zip.Plain;
   Zip.mkEntry "docs/b.txt" [x62] 1 Zip.Plain].

Definition folder_restore : Restore.World :=
  Restore.mkWorld (Some (Zip.Container folder_entries)) true 100 true true
                  true true 1000 None (fun _ => None)
                  (fun _ => Restore.Written) ∅.

(** a restore of [two_entries] into a directory that holds two files, one
    of them under the name of an entry *)
Definition used_restore : Restore.World :=
  Restore.mkWorld (Some two_entries) true 100 true true true true 1000 None
                  (fun _ => None) (fun _ => Restore.Written)
                  (<["one.txt" := [x6f; x6c; x64]]>
                     (<["notes.txt" := [x6e]]> ∅)).


End Samples.

(** * Properties *)

(** ** Arithmetic of the derived statistics *)

Section Ratios.
Local Open Scope Q_scope.

(** [a / t] for integers, [t] positive *)
Lemma Qdiv_inject_pos (a : Z) (p : positive) :
  inject_Z a / inject_Z (Z.pos p) == a # p.
Proof.
  unfold Qdiv, Qinv, inject_Z, Qmult, Qeq. simpl. lia.
Qed.

Lemma percent_le_100 (a : Z) (p : positive) :
  (a <= Z.pos p)%Z -> (a # p) * 100 <= 100.
Proof.
  intros H. unfold Qle, Qmult. simpl. lia.
Qed.

Lemma percent_nonneg (a : Z) (p : positive) :
  (0 <= a)%Z -> 0 <= (a # p) * 100.
Proof.
  intros H. unfold Qle, Qmult. simpl. lia.
Qed.

Lemma percent_eq_100 (a : Z) (p : positive) :
  (a # p) * 100 == 100 -> a = Z.pos p.
Proof.
  unfold Qeq, Qmult. simpl. lia.
Qed.

Lemma percent_100 (p : positive) : (Z.pos p # p) * 100 == 100.
Proof.
  unfold Qeq, Qmult. simpl. lia.
Qed.
End Ratios.

(** C6.  For non-negative [archive_size] and [total_size] the compression
    ratio is [(1 - archive_size/total_size) * 100] when [total_size > 0] and
    [0] when [total_size = 0]; it never exceeds 100, and it is negative as
    soon as the archive is larger than the data. *)
Theorem compression_ratio_formula (s : Backup.ArchiveStats) :
  0 <= Backup.archive_size s ->
  0 <= Backup.total_size s ->
  (Backup.total_size s = 0 -> (Backup.compression_ratio s == 0)%Q)
  /\ (0 < Backup.total_size s ->
      (Backup.compression_ratio s ==
       (1 - inject_Z (Backup.archive_size s) / inject_Z (Backup.total_size s))
       * 100)%Q)
  /\ (Backup.compression_ratio s <= 100)%Q
  /\ (0 < Backup.total_size s < Backup.archive_size s ->
      (Backup.compression_ratio s < 0)%Q).
Proof.
  intros Ha Ht. unfold Backup.compression_ratio.
  destruct (Backup.total_size s) as [|p|p] eqn:E; simpl.
  - repeat split; intros; try reflexivity; try lia. discriminate.
  - repeat split; intros; try discriminate; try reflexivity.
    + rewrite Qdiv_inject_pos. unfold Qle, Qminus, Qplus, Qopp, Qmult. simpl. lia.
    + rewrite Qdiv_inject_pos. unfold Qlt, Qminus, Qplus, Qopp, Qmult. simpl. lia.
  - lia.
Qed.

Lemma compression_ratio_formula_witness :
  (Backup.compression_ratio Samples.half_compressed <= 100)%Q
  /\ (Backup.compression_ratio Samples.half_compressed == 50)%Q.
Proof.
  split; [|reflexivity].
  apply (compression_ratio_formula Samples.half_compressed); simpl; lia.
Defined.

(** ** Reading a file in chunks *)

Lemma file_read_app size rest :
  fst (Backup.file_read size rest) ++ snd (Backup.file_read size rest) = rest.
Proof.
  unfold Backup.file_read. destruct (size <? 0); simpl.
  - apply app_nil_r.
  - revert size. induction rest as [|b rest IH]; intros size; simpl; [reflexivity|].
    destruct (size <=? 0); simpl; [reflexivity|]. now rewrite IH.
Qed.

Lemma file_read_eof size rest :
  size <> 0 -> fst (Backup.file_read size rest) = [] -> rest = [].
Proof.
  unfold Backup.file_read. intros Hs.
  destruct (size <? 0) eqn:E; simpl; [easy|].
  destruct rest as [|b rest]; simpl; [easy|].
  destruct (size <=? 0) eqn:E'; [lia|discriminate].
Qed.

(** The loop returns the bytearray followed by everything the file still had,
    whatever the chunk size, as long as a read can make progress. *)
Lemma read_loop_all chunk_size rest file_data :
  chunk_size <> 0 ->
  Backup.read_loop chunk_size rest file_data = file_data ++ rest.
Proof.
  intros Hs. funelim (Backup.read_loop chunk_size rest file_data).
  - rewrite (file_read_eof _ _ Hs e). now rewrite app_nil_r.
  - rewrite H by assumption. rewrite <- app_assoc, <- e.
    now rewrite file_read_app.
Qed.

(** C7.  For one and the same file, whatever its size, [read_file_chunked]
    with the 8 MiB chunk size and [read_file_direct] give the same outcome:
    the same bytes, or the same exception when the file cannot be opened. *)
Theorem chunked_equals_direct (open_rb : result bytes) :
  Backup.read_file_chunked Backup.CHUNK_SIZE open_rb
  = Backup.read_file_direct open_rb.
Proof.
  destruct open_rb as [content|e]; simpl; [|reflexivity].
  rewrite read_loop_all by (unfold Backup.CHUNK_SIZE; lia). reflexivity.
Qed.

(** ** The monad: how state flows through the combinators *)

Section MonadLemmas.
Context {S : Type}.
Implicit Types (I : S -> Prop).

(** [m] keeps [I], however it ends *)
Definition keeps I {A} (m : M S A) : Prop := forall s, I s -> I (snd (m s)).

Lemma keeps_ret I {A} (a : A) : keeps I (ret a).
Proof. intros s H. exact H. Qed.

Lemma keeps_raise I {A} (e : exn) : keeps I (@raise S A e).
Proof. intros s H. exact H. Qed.

Lemma keeps_lift I {A} (r : result A) : keeps I (lift r).
Proof. intros s H. exact H. Qed.

Lemma keeps_lift_raises I (o : option exn) : keeps I (lift_raises o).
Proof. intros s H. unfold lift_raises. now destruct o. Qed.

Lemma keeps_modify I (f : S -> S) :
  (forall s, I s -> I (f s)) -> keeps I (modify f).
Proof. intros Hf s H. now apply Hf. Qed.

Lemma keeps_bind I {A B} (m : M S A) (k : A -> M S B) :
  keeps I m -> (forall a, keeps I (k a)) -> keeps I (bind m k).
Proof.
  intros Hm Hk s H. unfold bind. specialize (Hm s H).
  destruct (m s) as [[a|e] s']; simpl in *; [now apply Hk | exact Hm].
Qed.

Lemma keeps_get I {A} (k : S -> M S A) :
  (forall s, I s -> I (snd (k s s))) -> keeps I (bind get k).
Proof. intros Hk s H. unfold bind, get. now apply Hk. Qed.

Lemma keeps_try_except I {A} (m : M S A) (h : exn -> option (M S A)) :
  keeps I m -> (forall e k, h e = Some k -> keeps I k) ->
  keeps I (try_except m h).
Proof.
  intros Hm Hh s H. unfold try_except. specialize (Hm s H).
  destruct (m s) as [[a|e] s']; simpl in *; [exact Hm|].
  destruct (h e) as [k|] eqn:E; [now apply (Hh e k E) | exact Hm].
Qed.

Lemma keeps_try_finally I {A} (m : M S A) (f : M S unit) :
  keeps I m -> keeps I f -> keeps I (try_finally m f).
Proof.
  intros Hm Hf s H. unfold try_finally. specialize (Hm s H).
  destruct (m s) as [r s']; simpl in *. specialize (Hf s' Hm).
  destruct (f s') as [[[]|e] s'']; exact Hf.
Qed.

Lemma keeps_when I (b : bool) (m : M S unit) :
  keeps I m -> keeps I (when b m).
Proof. intros Hm. destruct b; [exact Hm | apply keeps_ret]. Qed.

Lemma keeps_for_each I {A} (l : list A) (body : A -> M S unit) :
  (forall x, keeps I (body x)) -> keeps I (for_each l body).
Proof.
  intros Hb. induction l as [|x l IH]; simpl; [apply keeps_ret|].
  apply keeps_bind; [apply Hb | intros _; exact IH].
Qed.

(** from [P] before to [Q] after, however [m] ends *)
Definition triple (P : S -> Prop) {A} (m : M S A) (Q : S -> Prop) : Prop :=
  forall s, P s -> Q (snd (m s)).

Lemma triple_bind (P Q R : S -> Prop) {A B} (m : M S A) (k : A -> M S B) :
  triple P m Q -> (forall s, Q s -> R s) -> (forall a, triple Q (k a) R) ->
  triple P (bind m k) R.
Proof.
  intros Hm Hw Hk s H. unfold bind. specialize (Hm s H).
  destruct (m s) as [[a|e] s']; simpl in *; [now apply Hk | now apply Hw].
Qed.

Lemma triple_get (P Q : S -> Prop) {A} (k : S -> M S A) :
  (forall s, P s -> Q (snd (k s s))) -> triple P (bind get k) Q.
Proof. intros Hk s H. unfold bind, get. now apply Hk. Qed.

Lemma triple_try_raise (P Q : S -> Prop) {A} (m : M S A)
    (h : exn -> option (M S A)) :
  triple P m Q -> (forall e k, h e = Some k -> exists e', k = raise e') ->
  triple P (try_except m h) Q.
Proof.
  intros Hm Hh s H. unfold try_except. specialize (Hm s H).
  destruct (m s) as [[a|e] s']; simpl in *; [exact Hm|].
  destruct (h e) as [k|] eqn:E; [|exact Hm].
  destruct (Hh e k E) as [e' ->]. exact Hm.
Qed.

Lemma triple_weaken (P P' Q Q' : S -> Prop) {A} (m : M S A) :
  triple P' m Q' -> (forall s, P s -> P' s) -> (forall s, Q' s -> Q s) ->
  triple P m Q.
Proof. intros Hm HP HQ s H. apply HQ, Hm, HP, H. Qed.

(** a loop invariant that depends on what is left to do *)
Lemma for_each_invariant {A} (J : list A -> S -> Prop) (body : A -> M S unit) :
  (forall x l s, J (x :: l) s -> J l (snd (body x s))) ->
  (forall x l s, J (x :: l) s -> J l s) ->
  forall l s, J l s -> J [] (snd (for_each l body s)).
Proof.
  intros Hstep Hweak.
  assert (Hall : forall l s, J l s -> J [] s).
  { induction l as [|x l IH]; intros s H; [exact H|]. eapply IH, Hweak, H. }
  induction l as [|x l IH]; intros s H; simpl; [exact H|].
  unfold bind. specialize (Hstep x l s H).
  destruct (body x s) as [[[]|e] s']; simpl in *.
  - now apply IH.
  - now apply (Hall l).
Qed.
End MonadLemmas.

(** ** Dictionaries *)

Section DictLemmas.
Context {V : Type}.
Implicit Types (d : Dict.t V) (k : string) (v : V).

Lemma dict_get_set k k' v d :
  Dict.get k' (Dict.set k v d)
  = if String.eqb k' k then Some v else Dict.get k' d.
Proof.
  induction d as [|[k0 v0] d IH]; simpl.
  - reflexivity.
  - destruct (String.eqb k k0) eqn:E; simpl.
    + apply String.eqb_eq in E. subst k0.
      destruct (String.eqb k' k); reflexivity.
    + rewrite IH. destruct (String.eqb k' k0) eqn:E0; [|reflexivity].
      apply String.eqb_eq in E0. subst k0.
      destruct (String.eqb k' k) eqn:E1; [|reflexivity].
      apply String.eqb_eq in E1. subst k'. rewrite String.eqb_refl in E. discriminate.
Qed.

Lemma dict_keys_set_in k v d k' :
  k' ∈ Dict.keys (Dict.set k v d) <-> k' = k \/ k' ∈ Dict.keys d.
Proof.
  unfold Dict.keys.
  induction d as [|[k0 v0] d IH]; simpl.
  - rewrite list_elem_of_singleton. rewrite elem_of_nil. tauto.
  - destruct (String.eqb k k0) eqn:E; simpl.
    + apply String.eqb_eq in E. subst k0. rewrite !elem_of_cons. tauto.
    + rewrite !elem_of_cons, IH. tauto.
Qed.

Lemma dict_keys_set_NoDup k v d :
  NoDup (Dict.keys d) -> NoDup (Dict.keys (Dict.set k v d)).
Proof.
  unfold Dict.keys.
  induction d as [|[k0 v0] d IH]; simpl; intros H.
  - apply NoDup_singleton.
  - apply NoDup_cons in H as [Hn Hd].
    destruct (String.eqb k k0) eqn:E; simpl.
    + apply String.eqb_eq in E. subst k0. now apply NoDup_cons.
    + apply NoDup_cons. split; [|now apply IH].
      intros Hin. apply (dict_keys_set_in k v d k0) in Hin as [->|Hin].
      * rewrite String.eqb_refl in E. discriminate.
      * now apply Hn.
Qed.

Lemma dict_length_set k v d :
  (length (Dict.set k v d) <= S (length d))%nat.
Proof.
  induction d as [|[k0 v0] d IH]; simpl; [lia|].
  destruct (String.eqb k k0); simpl; lia.
Qed.

Lemma dict_get_key k d : k ∈ Dict.keys d -> is_Some (Dict.get k d).
Proof.
  unfold Dict.keys.
  induction d as [|[k0 v0] d IH]; simpl; intros H.
  - now apply elem_of_nil in H.
  - destruct (String.eqb k k0) eqn:E; [eauto|].
    apply elem_of_cons in H as [->|H]; [|now apply IH].
    rewrite String.eqb_refl in E. discriminate.
Qed.
End DictLemmas.

(** ** Backup: the counters stay consistent *)

Section BackupCounters.
Import Backup BackupInv.

Lemma cached_total_nonneg d : 0 <= cached_total d.
Proof. induction d as [|[k v] d IH]; simpl; lia. Qed.

Lemma cached_total_set k v d :
  cached_total (Dict.set k v d) <= cached_total d + Z.of_N v.
Proof.
  induction d as [|[k0 v0] d IH]; simpl; [lia|].
  destruct (String.eqb k k0); simpl; lia.
Qed.

Lemma planned_nonneg d l : 0 <= planned d l.
Proof.
  induction l as [|k l IH]; simpl; [lia|]. destruct (Dict.get k d); lia.
Qed.

Lemma planned_cons_fresh k v d l :
  k ∉ l -> planned ((k, v) :: d) l = planned d l.
Proof.
  induction l as [|k' l IH]; simpl; intros H; [reflexivity|].
  apply not_elem_of_cons in H as [Hne Hl]. rewrite (IH Hl).
  destruct (String.eqb k' k) eqn:E; [|reflexivity].
  apply String.eqb_eq in E. congruence.
Qed.

Lemma planned_keys d :
  NoDup (Dict.keys d) -> planned d (Dict.keys d) = cached_total d.
Proof.
  unfold Dict.keys.
  induction d as [|[k v] d IH]; simpl; intros H; [reflexivity|].
  apply NoDup_cons in H as [Hn Hd].
  rewrite String.eqb_refl, planned_cons_fresh by exact Hn.
  now rewrite IH.
Qed.

Lemma history_app st d a f l evs :
  history (mkState st d a f (l ++ evs))
  = (ArchiveStats0 :: omap assigned l) ++ omap assigned evs.
Proof. unfold history. simpl. now rewrite omap_app. Qed.

Lemma consistent_history_app s st d a f evs :
  Forall consistent (history s) ->
  Forall consistent (omap assigned evs) ->
  Forall consistent (history (mkState st d a f (log s ++ evs))).
Proof.
  intros H He. rewrite history_app. apply Forall_app. now split.
Qed.

Lemma consistent_history_update (f : ArchiveStats -> ArchiveStats) s :
  Forall consistent (history s) -> consistent (f (stats s)) ->
  Forall consistent (history (snd (update_stats f s))).
Proof.
  intros H Hf. unfold update_stats, modify. simpl.
  apply consistent_history_app; [exact H|].
  constructor; [exact Hf | constructor].
Qed.

Lemma scan_file_scanned w file_path : keeps scanned (scan_file w file_path).
Proof.
  intros s (Hp & Hk & Hz & Hlen & Hsum & Hnd & Hh).
  unfold scan_file. destruct (is_file w file_path); simpl;
    [|repeat split; assumption].
  unfold try_except, bind, lift.
  destruct (st_size w file_path) as [file_size|e]; simpl.
  - pose proof (cached_total_nonneg (_file_sizes s)) as Hnn.
    pose proof (cached_total_set file_path file_size (_file_sizes s)) as Hset.
    pose proof (dict_length_set file_path file_size (_file_sizes s)) as Hl.
    unfold scanned. simpl. rewrite <- app_assoc.
    repeat split; try assumption; try lia.
    + now apply dict_keys_set_NoDup.
    + apply consistent_history_app; [exact Hh|].
      repeat constructor; simpl; lia.
  - destruct (is_OSError e); simpl; repeat split; assumption.
Qed.

Lemma calculate_total_size_scanned w : keeps scanned (calculate_total_size w).
Proof.
  unfold calculate_total_size. destruct (source_exists w); simpl;
    [|apply keeps_ret].
  apply keeps_try_except.
  - apply keeps_bind; [|intros _; apply keeps_lift_raises].
    apply keeps_for_each. intros x. apply scan_file_scanned.
  - intros e k Hk. destruct (is_KeyboardInterrupt e); [|discriminate].
    injection Hk as <-. apply keeps_raise.
Qed.

Lemma initial_scanned w : scanned (initial w).
Proof.
  unfold scanned, initial, history. simpl.
  repeat split; try lia; try constructor.
  - unfold consistent. simpl. lia.
  - constructor.
Qed.

Lemma check_disk_space_state w s : snd (check_disk_space w s) = s.
Proof.
  unfold check_disk_space. destruct (parent_exists w); simpl; [|reflexivity].
  unfold bind, get. simpl.
  destruct (_ <? _); reflexivity.
Qed.

Lemma validate_source_state w s : snd (validate_source w s) = s.
Proof.
  unfold validate_source.
  destruct (source_exists w), (source_is_dir w); reflexivity.
Qed.

Lemma prepare_scanned w : keeps scanned (prepare w).
Proof.
  unfold prepare. apply keeps_try_except.
  - apply keeps_bind.
    + intros s H. now rewrite validate_source_state.
    + intros _. apply keeps_bind; [apply calculate_total_size_scanned|].
      intros _ s H. now rewrite check_disk_space_state.
  - intros e k Hk. destruct (is_KeyboardInterrupt e); [|discriminate].
    injection Hk as <-. apply keeps_raise.
Qed.
End BackupCounters.

Section BackupWriting.
Import Backup BackupInv.

Lemma read_either_way file_size open_rb :
  (if Z.of_N file_size >? CHUNK_SIZE
   then read_file_chunked CHUNK_SIZE open_rb
   else read_file_direct open_rb)
  = open_rb.
Proof.
  destruct (_ >? _), open_rb as [content|e]; try reflexivity.
  simpl. rewrite read_loop_all by (unfold CHUNK_SIZE; lia). reflexivity.
Qed.

(** What [_add_file_to_archive] does for a file whose size is cached. *)
Lemma _add_file_to_archive_cases w file_path arcname file_size s :
  Dict.get file_path (_file_sizes s) = Some file_size ->
  added w file_path arcname file_size s
        (_add_file_to_archive w file_path arcname s).
Proof.
  intros Hget.
  unfold _add_file_to_archive, archive_writestr.
  unfold try_except, bind, get, lift, lift_raises, update_stats,
    emit, set_backup_file, modify, ret, raise.
  simpl. rewrite Hget, read_either_way.
  destruct (open_rb w file_path) as [content|e] eqn:Ho.
  - destruct (archive s) as [h|] eqn:Ha;
      [|apply (added_raise _ _ _ _ _ (ValueError _)); reflexivity].
    destruct (backup_file s) as [[|es]|] eqn:Hb;
      try (apply (added_raise _ _ _ _ _ (ValueError _)); reflexivity).
    destruct (Zip.writestr h arcname content) as [entry|e] eqn:Hw.
    + destruct (writestr_raises w arcname) as [e|] eqn:Hr.
      * destruct (is_OSError e) eqn:He; simpl.
        -- apply added_skipped.
        -- now apply added_raise.
      * simpl.
        replace (mkState _ _ _ _ _)
          with (processed arcname file_size entry es s).
        { eapply added_ok; eassumption. }
        unfold processed. simpl. rewrite Ha. f_equal.
        now rewrite <- !app_assoc.
    + destruct (is_OSError e) eqn:He; simpl.
      * apply added_skipped.
      * now apply added_raise.
  - destruct (is_OSError e) eqn:He; simpl.
    + apply added_skipped.
    + now apply added_raise.
Qed.

Lemma consistent_archiving d l s :
  archiving d l s -> consistent (stats s).
Proof.
  intros (Hd & Hk & Hp & Hsk & Hcnt & Hps & Hsz & Hh).
  pose proof (planned_nonneg d l). unfold consistent. lia.
Qed.

Lemma archiving_reported d l s : archiving d l s -> archiving d l (reported s).
Proof.
  intros (Hd & Hk & Hp & Hsk & Hcnt & Hps & Hsz & Hh).
  unfold archiving, reported. simpl.
  repeat split; try assumption.
  apply consistent_history_app; [exact Hh | constructor].
Qed.

Lemma report_reported c s :
  snd (report c s) = if progress_callback c then reported s else s.
Proof. unfold report. destruct (progress_callback c); reflexivity. Qed.

Lemma archiving_report c d l : keeps (archiving d l) (report c).
Proof.
  intros s H. rewrite report_reported.
  destruct (progress_callback c); [now apply archiving_reported | exact H].
Qed.

Lemma archive_file_archiving w c d file_path l s :
  archiving d (file_path :: l) s ->
  archiving d l (snd (archive_file w c file_path s)).
Proof.
  intros (Hd & Hk & Hp & Hsk & Hcnt & Hps & Hsz & Hh).
  apply Forall_cons in Hk as [[sz Hget] Hk].
  simpl in Hsz. rewrite Hget in Hsz. simpl length in Hcnt.
  pose proof (planned_nonneg d l) as Hpl.
  unfold archive_file. unfold bind at 1.
  rewrite <- Hd in Hget.
  destruct (_add_file_to_archive_cases w file_path file_path sz s Hget)
    as [h es content entry Ha Hb Ho Hw Hr| |e He].
  - apply keeps_get; [|].
    { intros s0 H0. apply keeps_when; [apply archiving_report | exact H0]. }
    unfold archiving, processed. simpl.
    repeat split; try assumption; try lia.
    apply consistent_history_app; [exact Hh|].
    repeat constructor; simpl; lia.
  - apply keeps_get; [|].
    { intros s0 H0. apply keeps_when; [apply archiving_report | exact H0]. }
    unfold archiving, skipped. simpl.
    repeat split; try assumption; try lia.
    apply consistent_history_app; [exact Hh|].
    repeat constructor; simpl; lia.
  - simpl. unfold archiving. repeat split; try assumption; lia.
Qed.

Lemma archiving_weaken d (file_path : string) l s :
  archiving d (file_path :: l) s -> archiving d l s.
Proof.
  intros (Hd & Hk & Hp & Hsk & Hcnt & Hps & Hsz & Hh).
  apply Forall_cons in Hk as [[sz Hget] Hk].
  simpl in Hsz. rewrite Hget in Hsz. simpl length in Hcnt.
  unfold archiving. repeat split; try assumption; lia.
Qed.

Lemma scanned_archiving s :
  scanned s -> archiving (_file_sizes s) (Dict.keys (_file_sizes s)) s.
Proof.
  intros (Hp & Hk & Hz & Hlen & Hsum & Hnd & Hh).
  unfold archiving. rewrite planned_keys by exact Hnd.
  unfold Dict.keys at 2. rewrite length_map.
  repeat split; try assumption; try lia.
  apply Forall_forall. intros k Hin. now apply dict_get_key.
Qed.
End BackupWriting.

Section BackupRun.
Import Backup BackupInv.

Lemma keyboard_interrupt_reraised {S A} (e : exn) (k : M S A) :
  (if is_KeyboardInterrupt e then Some (raise e) else None) = Some k ->
  exists e', k = raise e'.
Proof.
  destruct (is_KeyboardInterrupt e); [|discriminate].
  intros [= <-]. now exists e.
Qed.

Lemma scanned_sound s : scanned s -> sound s.
Proof.
  intros H. split; [|apply H].
  apply scanned_archiving in H. eapply consistent_archiving, H.
Qed.

Lemma archiving_sound d s : archiving d [] s -> sound s.
Proof.
  intros H. split; [eapply consistent_archiving, H | apply H].
Qed.

Lemma sound_update (f : ArchiveStats -> ArchiveStats) :
  (forall st, consistent st -> consistent (f st)) ->
  keeps sound (update_stats f).
Proof.
  intros Hf s [Hc Hh]. split; [now apply Hf|].
  apply consistent_history_update; [exact Hh | now apply Hf].
Qed.

Lemma sound_quiet st a f evs s :
  sound s -> stats s = st -> omap assigned evs = [] ->
  sound (mkState st (_file_sizes s) a f (log s ++ evs)).
Proof.
  intros [Hc Hh] <- He. split; [exact Hc|].
  apply consistent_history_app; [exact Hh|]. rewrite He. constructor.
Qed.

Lemma sound_report c : keeps sound (report c).
Proof.
  intros s H. rewrite report_reported.
  destruct (progress_callback c); [|exact H].
  now apply sound_quiet.
Qed.

Lemma sound_close : keeps sound close_archive.
Proof.
  intros s H. unfold close_archive, set_archive, emit, bind, modify. simpl.
  now apply (sound_quiet _ _ _ [Closed]).
Qed.

Lemma scanned_manager_create_archive w c :
  keeps scanned (manager_create_archive w c).
Proof.
  intros s H. unfold manager_create_archive.
  destruct (_get_zip_class w _) as [zip_class use_password].
  destruct (parent_exists w); simpl; [|exact H].
  destruct H as (Hp & Hk & Hz & Hlen & Hsum & Hnd & Hh).
  unfold scanned. simpl. repeat split; try assumption.
  apply (consistent_history_app s _ _ _ _ [Opened]); [exact Hh | constructor].
Qed.

Lemma scanned_report c : keeps scanned (report c).
Proof.
  intros s H. rewrite report_reported.
  destruct (progress_callback c); [|exact H].
  destruct H as (Hp & Hk & Hz & Hlen & Hsum & Hnd & Hh).
  unfold scanned, reported. simpl. repeat split; try assumption.
  apply consistent_history_app; [exact Hh | constructor].
Qed.

Lemma archive_loop_archiving w c d l :
  triple (archiving d l) (for_each l (archive_file w c)) (archiving d []).
Proof.
  intros s H. revert l s H.
  apply (for_each_invariant (archiving d)).
  - intros x l s. apply archive_file_archiving.
  - intros x l s. apply archiving_weaken.
Qed.

Lemma consistent_set_archive_size n st :
  consistent st -> consistent (set_archive_size n st).
Proof. unfold consistent. simpl. tauto. Qed.

Lemma write_entries_sound w c : triple scanned (write_entries w c) sound.
Proof.
  unfold write_entries.
  apply (triple_bind scanned scanned); [apply scanned_report
                                       |apply scanned_sound|intros _].
  apply triple_get. intros s H.
  apply scanned_archiving in H.
  eapply (triple_bind (archiving (_file_sizes s) (Dict.keys (_file_sizes s)))
                      (archiving (_file_sizes s) []) sound);
    [| apply archiving_sound | | exact H].
  { apply triple_try_raise; [apply archive_loop_archiving|].
    intros e k. apply keyboard_interrupt_reraised. }
  intros _.
  eapply triple_weaken; [|apply archiving_sound|intros s' Hs'; exact Hs'].
  apply keeps_get. intros s1 H1.
  apply keeps_bind; [apply keeps_when, sound_report | intros _|exact H1].
  apply keeps_get. intros s2 H2.
  destruct (backup_file s2) as [[|es]|];
    (apply sound_update; [apply consistent_set_archive_size | exact H2]).
Qed.

Lemma write_archive_sound w c : triple scanned (write_archive w c) sound.
Proof.
  unfold write_archive.
  apply (triple_bind scanned scanned);
    [apply scanned_manager_create_archive | apply scanned_sound | intros _].
  intros s H. unfold try_finally.
  pose proof (write_entries_sound w c s H) as Hw.
  destruct (write_entries w c s) as [r s']. simpl in Hw.
  pose proof (sound_close s' Hw) as Hc.
  destruct (close_archive s') as [[[]|e] s'']; exact Hc.
Qed.

Lemma sound_remove_incomplete w : keeps sound (remove_incomplete w).
Proof.
  intros s H. unfold remove_incomplete, bind, get. simpl.
  destruct (backup_file s); [|exact H].
  destruct (unlink_fails w); [exact H|]. simpl.
  now apply (sound_quiet _ _ _ [Unlinked]).
Qed.

Lemma create_archive_sound w c : triple scanned (create_archive w c) sound.
Proof.
  unfold create_archive.
  apply (triple_bind scanned scanned);
    [apply prepare_scanned | apply scanned_sound | intros _].
  intros s H. unfold write_phase, try_except.
  pose proof (write_archive_sound w c s H) as Hw.
  destruct (write_archive w c s) as [[[]|e] s']; simpl in *; [exact Hw|].
  destruct (is_KeyboardInterrupt e); [|exact Hw].
  unfold bind. pose proof (sound_remove_incomplete w s' Hw) as Hr.
  destruct (remove_incomplete w s') as [[[]|e'] s'']; exact Hr.
Qed.
End BackupRun.

(** ** Restore: one entry *)

Section RestoreEntry.
Import Restore RestoreInv.

Lemma skip_entry s :
  (update_stats (add_skipped_files 1) ;; update_stats (add_errors 1)) s
  = (Ok tt, skipped s).
Proof.
  unfold update_stats, modify, bind, skipped. simpl.
  now rewrite <- app_assoc.
Qed.

(** the two [except] clauses of the loop body, applied to [e] *)
Lemma entry_handler e (s : State) :
  let handled :=
    match entry_except e with
    | Some k => k s
    | None => (Raise e, s)
    end in
  (is_OSError e = true /\ handled = (Ok tt, skipped s))
  \/ (exists e', is_OSError e' = false /\ handled = (Raise e', s)).
Proof.
  cbv zeta. unfold entry_except. destruct (is_OSError e) eqn:He.
  - left. split; [reflexivity | apply skip_entry].
  - right. destruct (is_RuntimeError e).
    + destruct (contains _ _); eexists; (split; [|reflexivity]); auto.
    + eexists; (split; [|reflexivity]); auto.
Qed.

Lemma extract_file_cases w c h file_name s :
  extracted w c h file_name s (extract_file w c h file_name s).
Proof.
  unfold extract_file. unfold try_except at 1.
  destruct (Zip.getinfo h file_name) as [file_info|] eqn:Hi.
  2:{ simpl. apply (extracted_raise _ _ _ _ _ s (KeyError _));
        [now left | reflexivity]. }
  destruct (Zip.is_dir file_info) eqn:Hd.
  { simpl. eapply extracted_dir; eassumption. }
  unfold bind at 1, lift_raises.
  destruct (mkdir_raises w file_name) as [e|] eqn:Hm.
  { destruct (entry_handler e s) as [[He ->]|(e' & He' & ->)].
    - apply (extracted_skipped _ _ _ _ _ s). now left.
    - apply extracted_raise; [now left | exact He']. }
  unfold bind at 1, lift.
  destruct (Zip.read h file_name (password c)) as [content|e] eqn:Hr.
  2:{ destruct (entry_handler e s) as [[He ->]|(e' & He' & ->)].
      - apply (extracted_skipped _ _ _ _ _ s). now left.
      - apply extracted_raise; [now left | exact He']. }
  unfold bind at 1, copy_entry.
  destruct (write_outcome w file_name) as [|e|n e] eqn:Hw.
  - unfold write_target, update_stats, modify, bind, get, when, report.
    simpl.
    pose proof (extracted_file w c h file_name s file_info content
                  Hi Hd Hm Hr Hw) as Hx.
    cbv zeta in Hx. unfold due in Hx. simpl in Hx.
    destruct (_ || _); [destruct (progress_callback c)|];
      unfold emit, modify, bind, get, ret, reported, counted, copied in *;
      simpl in *; rewrite <- ?app_assoc in *; simpl in *; exact Hx.
  - unfold raise at 1.
    destruct (entry_handler e s) as [[He ->]|(e' & He' & ->)].
    + apply (extracted_skipped _ _ _ _ _ s). now left.
    + apply extracted_raise; [now left | exact He'].
  - unfold write_target, modify, bind at 1, raise at 1.
    assert (Hmid : halfway w c h file_name s
                     (copied file_name (firstn n content) s)).
    { right. exists content, n, e. auto. }
    change (mkState (stats s) (archive s) (open_handles s)
              (<[file_name := firstn n content]> (target s))
              (log s ++ [Touched file_name]))
      with (copied file_name (firstn n content) s).
    destruct (entry_handler e (copied file_name (firstn n content) s))
      as [[He ->]|(e' & He' & ->)].
    + apply (extracted_skipped _ _ _ _ _ _ Hmid).
    + apply extracted_raise; [exact Hmid | exact He'].
Qed.
End RestoreEntry.

(** ** Restore: opening and validating leave counters and target alone *)

Section RestoreQuiet.
Import Restore RestoreInv.

(** [m] changes neither the counters nor the target directory, and calls
    no callback *)
Definition quiet {A} (m : M State A) : Prop :=
  forall s0, keeps (untouched s0) m.

Lemma untouched_refl s : untouched s s.
Proof. now repeat split. Qed.

Lemma quiet_untouched {A} (m : M State A) s :
  quiet m -> untouched s (snd (m s)).
Proof. intros H. apply H, untouched_refl. Qed.

Lemma quiet_ret {A} (a : A) : quiet (ret a).
Proof. intros s0. apply keeps_ret. Qed.

Lemma quiet_raise {A} e : quiet (@raise State A e).
Proof. intros s0. apply keeps_raise. Qed.

Lemma quiet_lift {A} (r : result A) : quiet (lift r).
Proof. intros s0. apply keeps_lift. Qed.

Lemma quiet_lift_raises o : quiet (lift_raises (S := State) o).
Proof. intros s0. apply keeps_lift_raises. Qed.

Lemma quiet_bind {A B} (m : M State A) (k : A -> M State B) :
  quiet m -> (forall a, quiet (k a)) -> quiet (bind m k).
Proof. intros Hm Hk s0. apply keeps_bind; [apply Hm | intros a; apply Hk]. Qed.

Lemma quiet_try_except {A} (m : M State A) h :
  quiet m -> (forall e k, h e = Some k -> quiet k) -> quiet (try_except m h).
Proof.
  intros Hm Hh s0. apply keeps_try_except; [apply Hm|].
  intros e k Hk. now apply (Hh e k).
Qed.

Lemma quiet_try_finally {A} (m : M State A) f :
  quiet m -> quiet f -> quiet (try_finally m f).
Proof. intros Hm Hf s0. apply keeps_try_finally; [apply Hm | apply Hf]. Qed.

Lemma quiet_emit e :
  assigned e = None -> reported_to_callback e = None -> touched e = None ->
  quiet (emit e).
Proof.
  intros Ha Hr Hw s0 s (Hs & Ht & Hh & Hp & Hn).
  unfold emit, modify, untouched, history, progress_log, written in *. simpl.
  rewrite !omap_app. simpl. rewrite Ha, Hr, Hw, !app_nil_r. auto.
Qed.

Lemma quiet_set_open_handles f : quiet (set_open_handles f).
Proof. intros s0 s H. exact H. Qed.

Lemma quiet_set_archive a : quiet (set_archive a).
Proof. intros s0 s H. exact H. Qed.

Lemma quiet_open_handle w b : quiet (open_handle w b).
Proof.
  unfold open_handle. destruct (archive_file w); [|apply quiet_raise].
  apply quiet_bind; [apply quiet_lift | intros h].
  apply quiet_bind; [apply quiet_set_open_handles | intros _].
  apply quiet_bind; [now apply quiet_emit | intros _; apply quiet_ret].
Qed.

Lemma quiet_close_handle : quiet close_handle.
Proof.
  unfold close_handle.
  apply quiet_bind; [apply quiet_set_open_handles | intros _].
  now apply quiet_emit.
Qed.

Lemma quiet_open_archive w password : quiet (open_archive w password).
Proof.
  unfold open_archive. apply quiet_try_except.
  - apply quiet_bind; [apply quiet_open_handle | intros h].
    destruct (Zip.namelist _); [apply quiet_ret|].
    apply quiet_try_except.
    + apply quiet_bind; [apply quiet_lift | intros _; apply quiet_ret].
    + intros e k. destruct (is_RuntimeError e); [|discriminate].
      intros [= <-].
      apply quiet_bind; [apply quiet_close_handle | intros _; apply quiet_raise].
  - intros e k. destruct (_ || _); [|discriminate]. intros [= <-].
    destruct (pyzipper_installed w); simpl; [|apply quiet_raise].
    apply quiet_try_except.
    + apply quiet_bind; [apply quiet_open_handle | intros h].
      destruct (Zip.namelist _); [apply quiet_ret|].
      apply quiet_bind; [apply quiet_lift | intros _; apply quiet_ret].
    + intros e' k. destruct (is_RuntimeError e'); [|discriminate].
      intros [= <-]. destruct (_ || _); apply quiet_raise.
Qed.

Lemma quiet_validate_archive w c : quiet (validate_archive w c).
Proof.
  unfold validate_archive. destruct (archive_file w); [|apply quiet_raise].
  destruct (archive_is_file w); simpl; [|apply quiet_raise].
  apply quiet_try_except.
  - apply quiet_bind; [apply quiet_open_archive | intros h].
    apply quiet_try_finally; [apply quiet_lift | apply quiet_close_handle].
  - intros e k. destruct (is_RuntimeError e).
    + intros [= <-]. destruct (contains _ _); apply quiet_raise.
    + destruct (is_BadZipFile e); [|discriminate].
      intros [= <-]. apply quiet_raise.
Qed.

Lemma quiet_check_disk_space w : quiet (check_disk_space w).
Proof.
  unfold check_disk_space. destruct (archive_file w); [|apply quiet_raise].
  destruct (target_drive_exists w); simpl; [|apply quiet_ret].
  destruct (_ <? _); [apply quiet_raise | apply quiet_ret].
Qed.

Lemma pristine_untouched s0 s : pristine s0 -> untouched s0 s -> pristine s.
Proof.
  intros (He & Hs & Ht & Hh) (Hst & _ & Hhi & _).
  unfold pristine. rewrite Hst, Hhi. auto.
Qed.

Lemma quiet_pristine {A} (m : M State A) : quiet m -> keeps pristine m.
Proof.
  intros Hq s H. eapply pristine_untouched; [exact H|].
  now apply quiet_untouched.
Qed.
End RestoreQuiet.

(** ** Restore: the counters stay consistent *)

Section RestoreCounters.
Import Restore RestoreInv.

Lemma restore_history_app st a n t l evs :
  history (mkState st a n t (l ++ evs))
  = (RestoreStats0 :: omap assigned l) ++ omap assigned evs.
Proof. unfold history. simpl. now rewrite omap_app. Qed.

Lemma restore_consistent_history_app s st a n t evs :
  Forall consistent (history s) ->
  Forall consistent (omap assigned evs) ->
  Forall consistent (history (mkState st a n t (log s ++ evs))).
Proof.
  intros H He. rewrite restore_history_app. apply Forall_app. now split.
Qed.

Lemma halfway_stats w c h file_name s mid :
  halfway w c h file_name s mid ->
  stats mid = stats s /\ history mid = history s.
Proof.
  intros [->|(content & n & e & _ & _ & ->)]; [now split|].
  split; [reflexivity|].
  unfold copied. rewrite restore_history_app. simpl.
  unfold history. now rewrite app_nil_r.
Qed.

Lemma extract_file_extracting w c h file_name l s :
  extracting (file_name :: l) s ->
  extracting l (snd (extract_file w c h file_name s)).
Proof.
  intros (He & Hs & Hcnt & Hh). simpl length in Hcnt.
  destruct (extract_file_cases w c h file_name s)
    as [info Hi Hd|info content Hi Hd Hm Hr Hw|mid Hmid|mid e Hmid Hne];
    simpl.
  - unfold extracting. repeat split; try assumption; lia.
  - assert (Hx : extracting l (counted (Zip.file_size info)
                                 (copied file_name content s))).
    { unfold extracting, counted, copied. simpl.
      repeat split; try assumption; try lia.
      rewrite <- app_assoc.
      apply restore_consistent_history_app; [exact Hh|].
      repeat constructor; simpl; lia. }
    destruct (_ && _); [|exact Hx].
    destruct Hx as (He' & Hs' & Hcnt' & Hh').
    unfold extracting, reported. repeat split; try assumption.
    apply restore_consistent_history_app; [exact Hh' | constructor].
  - destruct (halfway_stats _ _ _ _ _ _ Hmid) as [Hst Hhi].
    unfold extracting, skipped. simpl. rewrite Hst.
    repeat split; try assumption; try (simpl; lia).
    apply restore_consistent_history_app; [now rewrite Hhi|].
    repeat constructor; simpl; lia.
  - destruct (halfway_stats _ _ _ _ _ _ Hmid) as [Hst Hhi].
    unfold extracting. rewrite Hst, Hhi.
    repeat split; try assumption; lia.
Qed.

Lemma extracting_weaken (file_name : string) l s :
  extracting (file_name :: l) s -> extracting l s.
Proof.
  intros (He & Hs & Hcnt & Hh). simpl length in Hcnt.
  unfold extracting. repeat split; try assumption; lia.
Qed.

Lemma extract_loop_extracting w c h l :
  triple (extracting l) (for_each l (extract_file w c h)) (extracting []).
Proof.
  intros s H. revert l s H.
  apply (for_each_invariant extracting).
  - intros x l s. apply extract_file_extracting.
  - intros x l s. apply extracting_weaken.
Qed.

Lemma extracting_sound s : extracting [] s -> sound s.
Proof.
  intros (He & Hs & Hcnt & Hh). simpl in Hcnt.
  split; [|exact Hh]. unfold consistent. lia.
Qed.

Lemma pristine_sound s : pristine s -> sound s.
Proof.
  intros (He & Hs & Ht & Hh). split; [|exact Hh].
  unfold consistent. lia.
Qed.

Lemma ready_extracting l s : ready l s -> extracting l s.
Proof.
  intros [(He & Hs & Ht & Hh) Hn]. unfold extracting.
  repeat split; try assumption; lia.
Qed.

Lemma ready_count_size l file_info : keeps (ready l) (count_size file_info).
Proof.
  intros s [(He & Hs & Ht & Hh) Hn]. unfold count_size.
  destruct (Zip.is_dir file_info); simpl; [now repeat split|].
  unfold ready, pristine. simpl. repeat split; try assumption.
  apply restore_consistent_history_app; [exact Hh|].
  repeat constructor; simpl; lia.
Qed.

Lemma restore_report_reported c s :
  snd (report c s) = if progress_callback c then reported s else s.
Proof. unfold report. destruct (progress_callback c); reflexivity. Qed.

Lemma ready_report l c : keeps (ready l) (report c).
Proof.
  intros s H. rewrite restore_report_reported.
  destruct (progress_callback c); [|exact H].
  destruct H as [(He & Hs & Ht & Hh) Hn].
  unfold ready, pristine, reported. simpl. repeat split; try assumption.
  apply restore_consistent_history_app; [exact Hh | constructor].
Qed.

Lemma restore_sound_report c : keeps sound (report c).
Proof.
  intros s [Hc Hh]. rewrite restore_report_reported.
  destruct (progress_callback c); [|now split].
  split; [exact Hc|].
  apply restore_consistent_history_app; [exact Hh | constructor].
Qed.

Lemma sound_untouched s0 s : sound s0 -> untouched s0 s -> sound s.
Proof.
  intros [Hc Hh] (Hst & _ & Hhi & _). unfold sound. now rewrite Hst, Hhi.
Qed.

Lemma quiet_sound {A} (m : M State A) : quiet m -> keeps sound m.
Proof.
  intros Hq s H. eapply sound_untouched; [exact H|].
  now apply quiet_untouched.
Qed.

(** the part of [extract_entries] that follows [open_archive] *)
Lemma extract_opened_sound w c h :
  triple pristine
    (set_archive (Some h) ;;
     update_stats (set_total_files (Z.of_nat (length (Zip.namelist h)))) ;;
     for_each (Zip.infolist h) count_size ;;
     report c ;;
     for_each (Zip.namelist h) (extract_file w c h))
    sound.
Proof.
  intros s (He & Hs & Ht & Hh).
  unfold set_archive, update_stats, modify. unfold bind at 1 2. simpl.
  match goal with |- sound (snd (bind _ _ ?s1)) => set (s1' := s1) end.
  assert (Hr : ready (Zip.namelist h) s1').
  { unfold ready, pristine, s1'. simpl. repeat split; try assumption; try lia.
    apply restore_consistent_history_app; [exact Hh|].
    repeat constructor; simpl; lia. }
  revert Hr. generalize s1'. clear.
  apply (triple_bind (ready (Zip.namelist h)) (ready (Zip.namelist h)) sound).
  - apply keeps_for_each. intros x. apply ready_count_size.
  - intros s H. apply pristine_sound, H.
  - intros _.
    apply (triple_bind (ready (Zip.namelist h))
                       (ready (Zip.namelist h)) sound).
    + apply ready_report.
    + intros s H. apply pristine_sound, H.
    + intros _ s H. apply extracting_sound, extract_loop_extracting.
      now apply ready_extracting.
Qed.

Lemma extract_entries_sound w c : triple pristine (extract_entries w c) sound.
Proof.
  unfold extract_entries.
  apply (triple_bind pristine pristine sound).
  - apply quiet_pristine, quiet_open_archive.
  - apply pristine_sound.
  - intros h. apply extract_opened_sound.
Qed.

Lemma quiet_close_if_open : quiet close_if_open.
Proof.
  intros s0 s H. unfold close_if_open, bind, get. simpl.
  destruct (archive s); [|exact H]. now apply quiet_close_handle.
Qed.

Lemma extract_archive_sound w c : triple pristine (extract_archive w c) sound.
Proof.
  unfold extract_archive.
  apply (triple_bind pristine pristine sound);
    [apply quiet_pristine, quiet_validate_archive
    |apply pristine_sound|intros _].
  apply (triple_bind pristine pristine sound);
    [apply quiet_pristine, quiet_check_disk_space
    |apply pristine_sound|intros _].
  apply (triple_bind pristine pristine sound);
    [apply keeps_lift_raises|apply pristine_sound|intros _].
  apply (triple_bind pristine sound sound);
    [|auto|intros _; apply restore_sound_report].
  intros s H. unfold try_finally.
  assert (Hx : sound (snd (try_except (extract_entries w c)
              (fun e => if is_KeyboardInterrupt e
                        then Some (raise e) else None) s))).
  { revert s H. apply triple_try_raise; [apply extract_entries_sound|].
    intros e k. apply keyboard_interrupt_reraised. }
  destruct (try_except _ _ s) as [r s']. simpl in Hx.
  pose proof (quiet_sound close_if_open quiet_close_if_open s' Hx) as Hc.
  destruct (close_if_open s') as [[[]|e] s'']; exact Hc.
Qed.

Lemma initial_pristine w : pristine (initial w).
Proof.
  unfold pristine, initial, history. simpl.
  repeat split; try lia. repeat constructor; simpl; lia.
Qed.
End RestoreCounters.

(** ** C4: processed + skipped never exceeds the total *)

(** C4.  Every value the counters of a backup ever have, from the fresh
    [ArchiveStats] to the end of [create_archive], satisfies
    [processed_files + skipped_files <= total_files]; every value the
    counters of a restore ever have satisfies
    [extracted_files + skipped_files <= total_files]. *)
Theorem counters_within_total :
  (forall w c,
      Forall (fun st => Backup.processed_files st + Backup.skipped_files st
                        <= Backup.total_files st)
             (Backup.stats (snd (Backup.run w c))
              :: Backup.history (snd (Backup.run w c))))
  /\ (forall w c,
         Forall (fun st => Restore.extracted_files st + Restore.skipped_files st
                           <= Restore.total_files st)
                (Restore.stats (snd (Restore.run w c))
                 :: Restore.history (snd (Restore.run w c)))).
Proof.
  split; intros w c.
  - destruct (create_archive_sound w c (Backup.initial w)
                (initial_scanned w)) as [Hc Hh].
    unfold Backup.run. constructor; [apply Hc|].
    eapply Forall_impl; [exact Hh|]. intros st H. apply H.
  - destruct (extract_archive_sound w c (Restore.initial w)
                (initial_pristine w)) as [Hc Hh].
    unfold Restore.run. constructor; [apply Hc|].
    eapply Forall_impl; [exact Hh|]. intros st H. apply H.
Qed.

(** ** C5: the progress percentage *)

Section Progress.

Lemma backup_progress_bounds st :
  BackupInv.consistent st ->
  (0 <= Backup.progress_percent st)%Q
  /\ (Backup.progress_percent st <= 100)%Q
  /\ ((Backup.progress_percent st == 100)%Q ->
      Backup.processed_size st = Backup.total_size st).
Proof.
  intros (_ & _ & _ & Hp & Ht). unfold Backup.progress_percent.
  destruct (Backup.total_size st) as [|p|p] eqn:E; simpl.
  - repeat split; try easy.
  - rewrite Qdiv_inject_pos. repeat split.
    + now apply percent_nonneg.
    + now apply percent_le_100.
    + apply percent_eq_100.
  - lia.
Qed.

Lemma restore_progress_bounds st :
  RestoreInv.consistent st ->
  (0 <= Restore.progress_percent st)%Q
  /\ (Restore.progress_percent st <= 100)%Q
  /\ ((Restore.progress_percent st == 100)%Q ->
      Restore.extracted_files st = Restore.total_files st).
Proof.
  intros (He & Hs & Ht). unfold Restore.progress_percent.
  destruct (Restore.total_files st) as [|p|p] eqn:E; simpl.
  - repeat split; try easy.
  - rewrite Qdiv_inject_pos. repeat split.
    + now apply percent_nonneg.
    + apply percent_le_100. lia.
    + apply percent_eq_100.
  - lia.
Qed.
End Progress.

(** C5, as stated, fails for a restore: after the only entry of an archive,
    an empty file, has been extracted, [total_size] is 0 and yet the
    progress is 100, not 0. *)
Lemma restore_progress_is_not_by_size :
  exists st,
    In st (Restore.history
             (snd (Restore.run (Samples.calm_restore Samples.one_empty_file)
                               Samples.no_password)))
    /\ Restore.total_size st = 0
    /\ (Restore.progress_percent st == 100)%Q
    /\ ~ (Restore.progress_percent st == 0)%Q.
Proof.
  exists (Restore.mkStats 1 1 0 0 0 0).
  split; [vm_compute; tauto|].
  split; [reflexivity|]. split; [reflexivity|]. discriminate.
Qed.

(** C5, amended.  In every state the counters of a backup go through, the
    progress lies in [0,100], is [processed_size/total_size * 100] (0 when
    [total_size = 0]) and is 100 only when all planned bytes are processed.
    In every state the counters of a restore go through, the progress lies in
    [0,100], is [extracted_files/total_files * 100] (0 when
    [total_files = 0]) and is 100 only when every listed entry has been
    extracted. *)
Theorem progress_percent_range :
  (forall w c,
      Forall (fun st =>
                (0 <= Backup.progress_percent st <= 100)%Q
                /\ (Backup.total_size st = 0 ->
                    (Backup.progress_percent st == 0)%Q)
                /\ (Backup.total_size st <> 0 ->
                    (Backup.progress_percent st ==
                     inject_Z (Backup.processed_size st)
                     / inject_Z (Backup.total_size st) * 100)%Q)
                /\ ((Backup.progress_percent st == 100)%Q ->
                    Backup.processed_size st = Backup.total_size st))
             (Backup.stats (snd (Backup.run w c))
              :: Backup.history (snd (Backup.run w c))))
  /\ (forall w c,
         Forall (fun st =>
                   (0 <= Restore.progress_percent st <= 100)%Q
                   /\ (Restore.total_files st = 0 ->
                       (Restore.progress_percent st == 0)%Q)
                   /\ (Restore.total_files st <> 0 ->
                       (Restore.progress_percent st ==
                        inject_Z (Restore.extracted_files st)
                        / inject_Z (Restore.total_files st) * 100)%Q)
                   /\ ((Restore.progress_percent st == 100)%Q ->
                       Restore.extracted_files st = Restore.total_files st))
                (Restore.stats (snd (Restore.run w c))
                 :: Restore.history (snd (Restore.run w c)))).
Proof.
  split; intros w c.
  - destruct (create_archive_sound w c (Backup.initial w)
                (initial_scanned w)) as [Hc Hh].
    unfold Backup.run.
    eapply Forall_impl; [exact (Forall_cons_2 _ _ _ Hc Hh)|].
    intros st H. destruct (backup_progress_bounds st H) as (H0 & H1 & H2).
    repeat split; try assumption.
    + intros E. unfold Backup.progress_percent. rewrite E. reflexivity.
    + intros E. unfold Backup.progress_percent.
      destruct (Backup.total_size st =? 0) eqn:E'; [lia | reflexivity].
  - destruct (extract_archive_sound w c (Restore.initial w)
                (initial_pristine w)) as [Hc Hh].
    unfold Restore.run.
    eapply Forall_impl; [exact (Forall_cons_2 _ _ _ Hc Hh)|].
    intros st H. destruct (restore_progress_bounds st H) as (H0 & H1 & H2).
    repeat split; try assumption.
    + intros E. unfold Restore.progress_percent. rewrite E. reflexivity.
    + intros E. unfold Restore.progress_percent.
      destruct (Restore.total_files st =? 0) eqn:E'; [lia | reflexivity].
Qed.

(** ** C8 and C10: the space preflight *)

Section Preflight.
Import Backup.

(** [int(total_size * 0.5 * 1.1)] is [11 * total_size / 20] cut to an
    integer. *)
Lemma estimated_size_truncates total :
  estimated_size total = Z.quot (11 * total) 20.
Proof.
  unfold estimated_size, int_of_Q. simpl. f_equal. lia.
Qed.

Lemma estimated_size_floor total :
  0 <= total ->
  20 * estimated_size total <= 11 * total < 20 * estimated_size total + 20.
Proof.
  intros H. rewrite estimated_size_truncates.
  rewrite Z.quot_div_nonneg by lia.
  pose proof (Z.div_mod (11 * total) 20 ltac:(lia)).
  pose proof (Z.mod_pos_bound (11 * total) 20 ltac:(lia)). lia.
Qed.

Lemma check_disk_space_outcome w s :
  check_disk_space w s
  = (if parent_exists w
        && (Z.of_N (free_space w) <? estimated_size (total_size (stats s)))
     then Raise (OSError "Insufficient disk space.")
     else Ok tt, s).
Proof.
  unfold check_disk_space. destruct (parent_exists w); simpl; [|reflexivity].
  unfold bind, get. simpl. destruct (_ <? _); reflexivity.
Qed.

(** events only ever get appended *)
Definition logged (e : Event) (s : State) : Prop := In e (log s).

Lemma logged_emit e e' : keeps (logged e) (emit e').
Proof.
  intros s H. unfold logged, emit, modify in *. simpl.
  apply in_or_app. now left.
Qed.

Lemma logged_update_stats e f : keeps (logged e) (update_stats f).
Proof.
  intros s H. unfold logged, update_stats, modify in *. simpl.
  apply in_or_app. now left.
Qed.

Lemma logged_report e c : keeps (logged e) (report c).
Proof.
  unfold report. destruct (progress_callback c); [|apply keeps_ret].
  apply keeps_get. intros s H. now apply logged_emit.
Qed.

Lemma logged_archive_writestr e w arcname file_data :
  keeps (logged e) (archive_writestr w arcname file_data).
Proof.
  unfold archive_writestr. apply keeps_get. intros s H.
  destruct (archive s); [|exact H].
  destruct (backup_file s) as [[|es]|]; try exact H.
  revert s H.
  apply keeps_bind; [apply keeps_lift | intros entry].
  apply keeps_bind; [apply keeps_lift_raises | intros _].
  apply keeps_bind; [intros s H; exact H | intros _; apply logged_emit].
Qed.

Lemma logged_add_file e w file_path arcname :
  keeps (logged e) (_add_file_to_archive w file_path arcname).
Proof.
  unfold _add_file_to_archive. apply keeps_try_except.
  - apply keeps_get. intros s H.
    assert (Hc : forall file_size, logged e
              (snd ((file_data <- lift (if Z.of_N file_size >? CHUNK_SIZE
                        then read_file_chunked CHUNK_SIZE (open_rb w file_path)
                        else read_file_direct (open_rb w file_path)) ;;
                     archive_writestr w arcname file_data ;;
                     update_stats (add_processed_files 1) ;;
                     update_stats (add_processed_size (Z.of_N file_size)) ;;
                     ret true) s))).
    { intros file_size. revert s H.
      apply keeps_bind; [apply keeps_lift | intros file_data].
      apply keeps_bind; [apply logged_archive_writestr | intros _].
      apply keeps_bind; [apply logged_update_stats | intros _].
      apply keeps_bind; [apply logged_update_stats | intros _].
      apply keeps_ret. }
    destruct (Dict.get file_path (_file_sizes s)); [apply Hc|].
    destruct (st_size w file_path) as [file_size|e0]; [apply Hc|].
    destruct (is_OSError e0); [|exact H].
    clear Hc. revert s H.
    apply keeps_bind; [apply logged_update_stats | intros _; apply keeps_ret].
  - intros e0 k. destruct (is_OSError e0); [|discriminate]. intros [= <-].
    apply keeps_bind; [apply logged_update_stats | intros _; apply keeps_ret].
Qed.

Lemma logged_archive_file e w c file_path :
  keeps (logged e) (archive_file w c file_path).
Proof.
  unfold archive_file.
  apply keeps_bind; [apply logged_add_file | intros _].
  apply keeps_get. intros s H. apply keeps_when; [apply logged_report | exact H].
Qed.

Lemma logged_write_entries e w c : keeps (logged e) (write_entries w c).
Proof.
  unfold write_entries.
  apply keeps_bind; [apply logged_report | intros _].
  apply keeps_get. intros s H. revert s H.
  intros s0 H0. revert H0. generalize s0 at 1 3. intros s H. revert s H.
  apply keeps_bind.
  { apply keeps_try_except.
    - apply keeps_for_each. intros x. apply logged_archive_file.
    - intros e0 k. destruct (is_KeyboardInterrupt e0); [|discriminate].
      intros [= <-]. apply keeps_raise. }
  intros _. apply keeps_get. intros s1 H1. revert s1 H1.
  intros s1 H1. revert H1. generalize s1 at 1 3. intros s H. revert s H.
  apply keeps_bind; [apply keeps_when, logged_report | intros _].
  apply keeps_get. intros s2 H2.
  destruct (backup_file s2) as [[|es]|]; now apply logged_update_stats.
Qed.

Lemma logged_write_phase_after_open e w c :
  keeps (logged e)
    (try_except (try_finally (write_entries w c) close_archive)
       (fun e => if is_KeyboardInterrupt e
                 then Some (remove_incomplete w ;; raise e) else None)).
Proof.
  apply keeps_try_except.
  - apply keeps_try_finally; [apply logged_write_entries|].
    unfold close_archive.
    apply keeps_bind; [intros s H; exact H | intros _; apply logged_emit].
  - intros e0 k. destruct (is_KeyboardInterrupt e0); [|discriminate].
    intros [= <-].
    apply keeps_bind; [|intros _; apply keeps_raise].
    unfold remove_incomplete. apply keeps_get. intros s H.
    destruct (backup_file s); [|exact H].
    destruct (unlink_fails w); [exact H|]. revert s H.
    apply keeps_bind; [intros s H; exact H | intros _; apply logged_emit].
Qed.
End Preflight.

Section PreflightClaims.
Import Backup.

Lemma prepare_after_scan w s1 :
  source_exists w = true -> source_is_dir w = true ->
  calculate_total_size w (initial w) = (Ok tt, s1) ->
  prepare w (initial w)
  = (if parent_exists w
        && (Z.of_N (free_space w) <? estimated_size (total_size (stats s1)))
     then Raise (OSError "Insufficient disk space.")
     else Ok tt, s1).
Proof.
  intros He Hd Hs. unfold prepare, try_except, bind, validate_source.
  rewrite He, Hd. simpl. rewrite Hs.
  rewrite check_disk_space_outcome.
  destruct (_ && _); reflexivity.
Qed.

Lemma write_phase_opens w c s :
  parent_exists w = true -> In Opened (log (snd (write_phase w c s))).
Proof.
  intros Hp. unfold write_phase, write_archive, manager_create_archive.
  destruct (_get_zip_class w _) as [zip_class use_password].
  rewrite Hp. simpl.
  unfold try_except at 1, bind at 1, bind at 1, bind at 1.
  unfold set_backup_file at 1, emit at 1, set_archive at 1, modify. simpl.
  match goal with
  | |- context [try_finally _ _ ?s1] =>
      pose proof (logged_write_phase_after_open Opened w c s1) as Hk
  end.
  unfold logged, try_except in Hk. apply Hk.
  simpl. apply in_or_app. right. now left.
Qed.
End PreflightClaims.

(** C8, as stated, fails at the boundary: with 1001 bytes to archive the
    estimate [1001 * 0.5 * 1.1] is 550.55; with 550 bytes free the free space
    is below it, and the backup is not aborted. *)
Lemma preflight_passes_just_below_estimate :
  (inject_Z (Z.of_N (Backup.free_space Samples.zeros_world))
   < inject_Z 1001 * Backup.COMPRESSION_ESTIMATE_RATIO
     * Backup.DISK_SPACE_RESERVE_RATIO)%Q
  /\ Backup.total_size
       (Backup.stats (snd (Backup.run Samples.zeros_world Samples.plain_backup)))
     = 1001
  /\ fst (Backup.run Samples.zeros_world Samples.plain_backup) = Ok tt.
Proof.
  split; [reflexivity|]. split; vm_compute; reflexivity.
Qed.

(** C8, amended.  Once the source is validated and scanned, and when the
    parent directory of the archive exists, the preflight estimates the
    required space as [total_size * 0.5 * 1.1] cut to an integer; the backup
    is aborted with the insufficient-space error, nothing opened or written,
    exactly when the free space is below that integer; otherwise it goes on
    to the writing block and opens the archive. *)
Theorem space_preflight w c s1 :
  Backup.source_exists w = true ->
  Backup.source_is_dir w = true ->
  Backup.calculate_total_size w (Backup.initial w) = (Ok tt, s1) ->
  Backup.parent_exists w = true ->
  Backup.estimated_size (Backup.total_size (Backup.stats s1))
  = Z.quot (11 * Backup.total_size (Backup.stats s1)) 20
  /\ (Z.of_N (Backup.free_space w)
      < Backup.estimated_size (Backup.total_size (Backup.stats s1)) ->
      Backup.run w c = (Raise (OSError "Insufficient disk space."), s1))
  /\ (Backup.estimated_size (Backup.total_size (Backup.stats s1))
      <= Z.of_N (Backup.free_space w) ->
      Backup.run w c = Backup.write_phase w c s1
      /\ In Backup.Opened (Backup.log (snd (Backup.run w c)))).
Proof.
  intros He Hd Hs Hp.
  split; [apply estimated_size_truncates|].
  pose proof (prepare_after_scan w s1 He Hd Hs) as Hprep.
  rewrite Hp in Hprep. simpl in Hprep.
  unfold Backup.run, Backup.create_archive, bind.
  split; intros Hf.
  - apply Z.ltb_lt in Hf. rewrite Hf in Hprep. now rewrite Hprep.
  - apply Z.ltb_ge in Hf. rewrite Hf in Hprep. rewrite Hprep.
    split; [reflexivity | now apply write_phase_opens].
Qed.

Lemma space_preflight_witness :
  Backup.run Samples.zeros_world Samples.plain_backup
  = Backup.write_phase Samples.zeros_world Samples.plain_backup
      (snd (Backup.calculate_total_size Samples.zeros_world
              (Backup.initial Samples.zeros_world)))
  /\ In Backup.Opened
        (Backup.log (snd (Backup.run Samples.zeros_world Samples.plain_backup))).
Proof.
  apply (space_preflight Samples.zeros_world Samples.plain_backup
           (snd (Backup.calculate_total_size Samples.zeros_world
                   (Backup.initial Samples.zeros_world))));
    reflexivity.
Defined.

(** C10.  When the directory whose free space would be measured does not
    exist, [check_disk_space] returns without raising and changes nothing: for
    a backup that directory is the parent of the archive path; for a restore
    it is the anchor of the target directory or, when the target has no
    anchor, its parent.  The restore reads the size of the archive before it
    looks at the directory, so there the archive itself has to exist, as it
    does once [validate_archive] has passed. *)
Theorem preflight_skipped_without_directory
    (bw : Backup.World) (bs : Backup.State)
    (rw : Restore.World) (rs : Restore.State) :
  (Backup.parent_exists bw = false ->
   Backup.check_disk_space bw bs = (Ok tt, bs))
  /\ (Restore.archive_file rw <> None ->
      Restore.target_drive_exists rw = false ->
      Restore.check_disk_space rw rs = (Ok tt, rs)).
Proof.
  split.
  - intros H. rewrite check_disk_space_outcome, H. reflexivity.
  - intros Ha Hd. unfold Restore.check_disk_space.
    destruct (Restore.archive_file rw); [|congruence].
    now rewrite Hd.
Qed.

Lemma preflight_skipped_without_directory_witness :
  Backup.check_disk_space Samples.nowhere_world
    (Backup.initial Samples.nowhere_world)
  = (Ok tt, Backup.initial Samples.nowhere_world)
  /\ Restore.check_disk_space
       (Samples.no_drive_restore (Some Samples.one_empty_file))
       (Restore.initial (Samples.no_drive_restore (Some Samples.one_empty_file)))
     = (Ok tt,
        Restore.initial (Samples.no_drive_restore (Some Samples.one_empty_file))).
Proof.
  destruct (preflight_skipped_without_directory
              Samples.nowhere_world (Backup.initial Samples.nowhere_world)
              (Samples.no_drive_restore (Some Samples.one_empty_file))
              (Restore.initial
                 (Samples.no_drive_restore (Some Samples.one_empty_file))))
    as [Hb Hr].
  split; [apply Hb; reflexivity | apply Hr; [discriminate | reflexivity]].
Defined.

(** ** The monad: reading a result backwards *)

Section MonadInversion.
Context {S : Type}.

Lemma bind_Ok {A B} (m : M S A) (k : A -> M S B) s b s' :
  bind m k s = (Ok b, s') ->
  exists a s1, m s = (Ok a, s1) /\ k a s1 = (Ok b, s').
Proof.
  unfold bind. destruct (m s) as [[a|e] s1]; [|discriminate].
  intros H. now exists a, s1.
Qed.

Lemma bind_Raise {A B} (m : M S A) (k : A -> M S B) s e s' :
  bind m k s = (Raise e, s') ->
  m s = (Raise e, s')
  \/ exists a s1, m s = (Ok a, s1) /\ k a s1 = (Raise e, s').
Proof.
  unfold bind. destruct (m s) as [[a|e0] s1].
  - intros H. right. now exists a, s1.
  - intros [= -> ->]. now left.
Qed.

(** a handler that only ever re-raises lets a normal result through *)
Lemma try_except_Ok {A} (m : M S A) (h : exn -> option (M S A)) s a s' :
  (forall e k s1, h e = Some k -> exists e', fst (k s1) = Raise e') ->
  try_except m h s = (Ok a, s') -> m s = (Ok a, s').
Proof.
  intros Hh. unfold try_except. destruct (m s) as [[a0|e] s1]; [easy|].
  destruct (h e) as [k|] eqn:E; [|discriminate].
  destruct (Hh e k s1 E) as [e' He']. intros H. rewrite H in He'. discriminate.
Qed.

Lemma try_finally_Ok {A} (m : M S A) (f : M S unit) s a s' :
  try_finally m f s = (Ok a, s') ->
  exists s1, m s = (Ok a, s1) /\ f s1 = (Ok tt, s').
Proof.
  unfold try_finally. destruct (m s) as [r s1].
  destruct (f s1) as [[[]|e] s2] eqn:E; [|discriminate].
  intros [= -> ->]. now exists s1.
Qed.

(** an invariant of the turns that end normally holds after a loop that
    ends normally *)
Lemma for_each_Ok {A} (I : S -> Prop) (body : A -> M S unit) l :
  (forall x s s', In x l -> I s -> body x s = (Ok tt, s') -> I s') ->
  forall s s', I s -> for_each l body s = (Ok tt, s') -> I s'.
Proof.
  induction l as [|x l IH]; intros Hb s s' Hs; simpl.
  - now intros [= <-].
  - intros H. apply bind_Ok in H as ([] & s1 & H1 & H2).
    apply (IH (fun y t t' Hy => Hb y t t' (or_intror Hy)) s1 s'); [|exact H2].
    apply (Hb x s s1); [now left | exact Hs | exact H1].
Qed.
End MonadInversion.

Section BackupTurn.
Import Backup BackupInv.

(** What [_add_file_to_archive] does, whether or not the size is cached. *)
Lemma _add_file_to_archive_any w file_path arcname s :
  exists file_size,
    added w file_path arcname file_size s
          (_add_file_to_archive w file_path arcname s).
Proof.
  destruct (Dict.get file_path (_file_sizes s)) as [file_size|] eqn:Hget.
  { exists file_size. now apply _add_file_to_archive_cases. }
  destruct (st_size w file_path) as [file_size|e] eqn:Hst.
  - exists file_size.
    pose proof (_add_file_to_archive_cases w file_path arcname file_size
                  (mkState (stats s) [(file_path, file_size)] (archive s)
                           (backup_file s) (log s))) as H.
    simpl in H. rewrite String.eqb_refl in H. specialize (H eq_refl).
    unfold _add_file_to_archive, archive_writestr in *.
    unfold try_except, bind, get, lift, lift_raises, update_stats,
      emit, set_backup_file, modify, ret, raise in *.
    simpl in *. rewrite String.eqb_refl in H. rewrite Hget, Hst.
    rewrite read_either_way in *.
    destruct (open_rb w file_path) as [content|e] eqn:Ho.
    + destruct (archive s) as [h|] eqn:Ha;
        [|apply (added_raise _ _ _ _ _ (ValueError _)); reflexivity].
      destruct (backup_file s) as [[|es]|] eqn:Hb;
        try (apply (added_raise _ _ _ _ _ (ValueError _)); reflexivity).
      destruct (Zip.writestr h arcname content) as [entry|e] eqn:Hw.
      * destruct (writestr_raises w arcname) as [e|] eqn:Hr.
        -- destruct (is_OSError e) eqn:He; simpl.
           ++ apply added_skipped.
           ++ now apply added_raise.
        -- simpl.
           replace (mkState _ _ _ _ _)
             with (processed arcname file_size entry es s).
           { eapply added_ok; eassumption. }
           unfold processed. simpl. f_equal.
           now rewrite <- !app_assoc.
      * destruct (is_OSError e) eqn:He; simpl.
        -- apply added_skipped.
        -- now apply added_raise.
    + destruct (is_OSError e) eqn:He; simpl.
      * apply added_skipped.
      * now apply added_raise.
  - exists 0%N.
    unfold _add_file_to_archive.
    unfold try_except, bind, get, update_stats, modify, ret, raise.
    simpl. rewrite Hget, Hst.
    destruct (is_OSError e) eqn:He; simpl.
    + apply added_skipped.
    + rewrite He. now apply added_raise.
Qed.
End BackupTurn.

(** ** C9: when the progress callback fires *)

Section BackupCadence.
Import Backup BackupInv.

Lemma progress_log_app st d a f l evs :
  progress_log (mkState st d a f (l ++ evs))
  = omap reported_to_callback l ++ omap reported_to_callback evs.
Proof. unfold progress_log. simpl. now rewrite omap_app. Qed.

Lemma progress_log_reported s :
  progress_log (reported s) = progress_log s ++ [stats s].
Proof. unfold reported. now rewrite progress_log_app. Qed.

Lemma progress_log_processed arcname file_size entry es s :
  progress_log (processed arcname file_size entry es s) = progress_log s.
Proof. unfold processed. rewrite progress_log_app. simpl. apply app_nil_r. Qed.

Lemma progress_log_skipped s : progress_log (skipped s) = progress_log s.
Proof. unfold skipped. rewrite progress_log_app. simpl. apply app_nil_r. Qed.

Lemma silent_update_stats f : keeps silent (update_stats f).
Proof.
  intros s H. unfold silent, update_stats, modify in *. simpl.
  rewrite progress_log_app. simpl. rewrite app_nil_r. exact H.
Qed.

Lemma silent_scan_file w file_path : keeps silent (scan_file w file_path).
Proof.
  unfold scan_file. destruct (is_file w file_path); simpl; [|apply keeps_ret].
  apply keeps_try_except.
  - apply keeps_bind; [apply keeps_lift | intros file_size].
    apply keeps_bind; [intros s H; exact H | intros _].
    apply keeps_bind; [apply silent_update_stats | intros _].
    apply silent_update_stats.
  - intros e k. destruct (is_OSError e); [|discriminate].
    intros [= <-]. apply keeps_ret.
Qed.

Lemma silent_prepare w : keeps silent (prepare w).
Proof.
  unfold prepare. apply keeps_try_except.
  - apply keeps_bind; [intros s H; now rewrite validate_source_state | intros _].
    apply keeps_bind; [|intros _ s H; now rewrite check_disk_space_state].
    unfold calculate_total_size.
    destruct (source_exists w); simpl; [|apply keeps_ret].
    apply keeps_try_except.
    + apply keeps_bind; [|intros _; apply keeps_lift_raises].
      apply keeps_for_each. intros x. apply silent_scan_file.
    + intros e k Hk. destruct (keyboard_interrupt_reraised e k Hk) as [e' ->].
      apply keeps_raise.
  - intros e k Hk. destruct (keyboard_interrupt_reraised e k Hk) as [e' ->].
    apply keeps_raise.
Qed.

(** a turn of the archiving loop that ends normally *)
Lemma archive_file_Ok w c file_path s s' :
  progress_callback c = true ->
  archive_file w c file_path s = (Ok tt, s') ->
  exists mid,
    ((exists file_size entry es,
         mid = processed file_path file_size entry es s)
     \/ mid = skipped s)
    /\ s' = if processed_files (stats mid) mod PROGRESS_UPDATE_INTERVAL =? 0
            then reported mid else mid.
Proof.
  intros Hc H. unfold archive_file in H.
  apply bind_Ok in H as (b & mid & Ha & Hr).
  exists mid. split.
  - destruct (_add_file_to_archive_any w file_path file_path s) as [sz Hx].
    rewrite Ha in Hx. inversion Hx; subst; eauto.
  - unfold bind, get, when, report in Hr. rewrite Hc in Hr.
    destruct (_ =? 0); simpl in Hr.
    + unfold bind, get, emit, modify in Hr. now injection Hr as <-.
    + unfold ret in Hr. now injection Hr as <-.
Qed.

Lemma announced_turn first mid :
  forall s,
    announced first s ->
    progress_log mid = progress_log s ->
    (processed_files (stats mid) = processed_files (stats s)
     \/ processed_files (stats mid) = processed_files (stats s) + 1) ->
    announced first
      (if processed_files (stats mid) mod PROGRESS_UPDATE_INTERVAL =? 0
       then reported mid else mid).
Proof.
  intros s ([rest Hfirst] & Hnn & Hmult & Hlast) Hlog Hcount.
  unfold PROGRESS_UPDATE_INTERVAL in *.
  destruct (processed_files (stats mid) mod 10 =? 0) eqn:E.
  - apply Z.eqb_eq in E. unfold announced.
    rewrite progress_log_reported, Hlog, Hfirst.
    change (stats (reported mid)) with (stats mid).
    split; [eexists; reflexivity|]. split; [lia|]. split.
    + intros k Hk Hle.
      destruct (Z_le_gt_dec (10 * k) (processed_files (stats s))) as [Hold|Hnew].
      * destruct (Hmult k Hk Hold) as (st & Hin & Hst).
        exists st. split; [|exact Hst].
        rewrite Hfirst in Hin. apply in_or_app. now left.
      * exists (stats mid). split.
        -- apply in_or_app. right. now left.
        -- lia.
    + intros _. apply last_snoc.
  - apply Z.eqb_neq in E. unfold announced. rewrite Hlog.
    split; [eauto|]. split; [lia|]. split.
    + intros k Hk Hle. apply Hmult; [exact Hk|].
      destruct Hcount as [Hc|Hc]; [lia|].
      assert (10 * k <> processed_files (stats mid)); [|lia].
      intros Heq. apply E. rewrite <- Heq.
      rewrite Z.mul_comm. apply Z_mod_mult.
    + intros Hm. contradiction.
Qed.

Lemma archive_file_announced w c first file_path s s' :
  progress_callback c = true ->
  announced first s ->
  archive_file w c file_path s = (Ok tt, s') ->
  announced first s'.
Proof.
  intros Hc Ha H.
  apply archive_file_Ok in H as (mid & Hmid & ->); [|exact Hc].
  apply (announced_turn first mid s Ha).
  - destruct Hmid as [(sz & entry & es & ->)| ->].
    + apply progress_log_processed.
    + apply progress_log_skipped.
  - destruct Hmid as [(sz & entry & es & ->)| ->]; simpl; [right|left]; lia.
Qed.
Lemma get_Ok {A} (k : State -> M State A) s r :
  bind get k s = r -> k s s = r.
Proof. intros H. exact H. Qed.

Lemma handler_reraises w (e : exn) (k : M State unit) (s : State) :
  (if is_KeyboardInterrupt e
   then Some (remove_incomplete w ;; raise e) else None) = Some k ->
  exists e', fst (k s) = Raise e'.
Proof.
  destruct (is_KeyboardInterrupt e); [|discriminate]. intros [= <-].
  unfold bind. destruct (remove_incomplete w s) as [[[]|e'] s']; simpl; eauto.
Qed.

Lemma keyboard_interrupt_raises {S A} (e : exn) (k : M S A) (s : S) :
  (if is_KeyboardInterrupt e then Some (raise e) else None) = Some k ->
  exists e', fst (k s) = Raise e'.
Proof.
  intros H. destruct (keyboard_interrupt_reraised e k H) as [e' ->].
  now exists e'.
Qed.

Lemma manager_create_archive_Ok w c s s' :
  manager_create_archive w c s = (Ok tt, s') ->
  stats s' = stats s /\ _file_sizes s' = _file_sizes s
  /\ log s' = log s ++ [Opened]
  /\ backup_file s' = Some (Zip.Container [])
  /\ archive s'
     = Some (Zip.mkWriteHandle
               (fst (_get_zip_class w (match password c with
                                       | Some _ => true | None => false end)))
               (snd (_get_zip_class w (match password c with
                                       | Some _ => true | None => false end)))
               (if snd (_get_zip_class w (match password c with
                                          | Some _ => true | None => false end))
                   && truthy (password c)
                then password c else None)).
Proof.
  unfold manager_create_archive.
  destruct (_get_zip_class w _) as [zip_class use_password].
  destruct (parent_exists w); simpl; [|discriminate].
  intros [= <-]. simpl. auto.
Qed.

(** what a write phase that ends normally has told the callback *)
Lemma write_entries_announced w c s s' :
  progress_callback c = true ->
  silent s -> processed_files (stats s) = 0 ->
  write_entries w c s = (Ok tt, s') ->
  (exists rest, progress_log s' = stats s :: rest)
  /\ (forall k, 0 < k -> 10 * k <= processed_files (stats s') ->
        exists st, In st (progress_log s') /\ processed_files st = 10 * k)
  /\ (exists st, last (progress_log s') = Some st
                 /\ stats s' = set_archive_size (archive_size (stats s')) st).
Proof.
  intros Hc Hsilent Hzero H. unfold write_entries in H.
  apply bind_Ok in H as ([] & s0 & Hrep & H).
  unfold report in Hrep. rewrite Hc in Hrep.
  unfold bind, get, emit, modify in Hrep. simpl in Hrep.
  injection Hrep as <-.
  apply get_Ok in H.
  apply bind_Ok in H as ([] & sl & Hloop & H).
  apply try_except_Ok in Hloop;
    [|intros e k s1; apply keyboard_interrupt_raises].
  assert (Ha : announced (stats s) sl).
  { revert Hloop.
    apply (for_each_Ok (announced (stats s))).
    - intros x t t' _ Ht. now apply archive_file_announced.
    - unfold announced. rewrite progress_log_app. simpl.
      unfold silent, progress_log in Hsilent. rewrite Hsilent. simpl.
      split; [eauto|]. split; [lia|]. split.
      + intros k Hk Hle. lia.
      + intros _. reflexivity. }
  destruct Ha as ([rest Hfirst] & Hnn & Hmult & Hlast).
  apply get_Ok in H.
  apply bind_Ok in H as ([] & sr & Hfin & H).
  apply get_Ok in H.
  assert (Hsr : progress_log sr = progress_log sl
                                  ++ (if processed_files (stats sl) mod 10 =? 0
                                      then [] else [stats sl])
                /\ stats sr = stats sl).
  { unfold when, report, PROGRESS_UPDATE_INTERVAL in Hfin. rewrite Hc in Hfin.
    destruct (_ =? 0); simpl in Hfin.
    - unfold ret in Hfin. injection Hfin as <-. now rewrite app_nil_r.
    - unfold bind, get, emit, modify in Hfin. injection Hfin as <-.
      split; [|reflexivity]. apply progress_log_app. }
  destruct Hsr as [Hlog Hst].
  assert (Hs' : progress_log s' = progress_log sr
                /\ exists n, stats s' = set_archive_size n (stats sr)).
  { destruct (backup_file sr) as [[|es]|];
      unfold update_stats, modify in H; injection H as <-;
      (split; [rewrite progress_log_app; simpl; apply app_nil_r | eauto]). }
  destruct Hs' as [Hlog' [n Hst']].
  rewrite Hlog', Hlog, Hfirst, Hst', Hst.
  split; [eexists; reflexivity|]. split.
  - intros k Hk Hle. simpl in Hle.
    destruct (Hmult k Hk Hle) as (st & Hin & Hst0).
    exists st. split; [|exact Hst0].
    rewrite Hfirst in Hin. apply in_or_app. now left.
  - exists (stats sl). split.
    + unfold PROGRESS_UPDATE_INTERVAL in Hlast.
      destruct (processed_files (stats sl) mod 10 =? 0) eqn:E.
      * apply Z.eqb_eq in E. rewrite app_nil_r, <- Hfirst. now apply Hlast.
      * apply last_snoc.
    + simpl. destruct (stats sl). reflexivity.
Qed.
End BackupCadence.

Section RestoreCadence.
Import Restore RestoreInv.

Lemma restore_progress_log_app st a n t l evs :
  progress_log (mkState st a n t (l ++ evs))
  = omap reported_to_callback l ++ omap reported_to_callback evs.
Proof. unfold progress_log. simpl. now rewrite omap_app. Qed.

Lemma restore_progress_log_reported s :
  progress_log (reported s) = progress_log s ++ [stats s].
Proof. unfold reported. now rewrite restore_progress_log_app. Qed.

Lemma restore_progress_log_counted file_size s :
  progress_log (counted file_size s) = progress_log s.
Proof.
  unfold counted. rewrite restore_progress_log_app. simpl. apply app_nil_r.
Qed.

Lemma restore_progress_log_copied file_name content s :
  progress_log (copied file_name content s) = progress_log s.
Proof.
  unfold copied. rewrite restore_progress_log_app. simpl. apply app_nil_r.
Qed.

Lemma restore_progress_log_skipped s :
  progress_log (skipped s) = progress_log s.
Proof.
  unfold skipped. rewrite restore_progress_log_app. simpl. apply app_nil_r.
Qed.

Lemma halfway_progress_log w c h file_name s mid :
  halfway w c h file_name s mid -> progress_log mid = progress_log s.
Proof.
  intros [->|(content & n & e & _ & _ & ->)]; [reflexivity|].
  apply restore_progress_log_copied.
Qed.

Lemma extract_file_announced w c h first file_name s s' :
  progress_callback c = true ->
  announced first s ->
  extract_file w c h file_name s = (Ok tt, s') ->
  announced first s'.
Proof.
  intros Hc ([rest Hfirst] & Hnn & Htot & Hmult) H.
  pose proof (extract_file_cases w c h file_name s) as Hx.
  rewrite H in Hx. clear H.
  inversion Hx as [info Hi Hd|info content Hi Hd Hm Hr Hw Heq|mid Hmid|];
    subst; clear Hx.
  - unfold announced. eauto 10.
  - rewrite Hc, andb_true_r. unfold due, PROGRESS_UPDATE_INTERVAL.
    set (s1 := counted (Zip.file_size info) (copied file_name content s)).
    change (add_extracted_size (Z.of_N (Zip.file_size info))
              (add_extracted_files 1 (stats s))) with (stats s1).
    assert (Hlog1 : progress_log s1 = first :: rest).
    { unfold s1. now rewrite restore_progress_log_counted,
                             restore_progress_log_copied. }
    assert (He1 : extracted_files (stats s1) = extracted_files (stats s) + 1)
      by reflexivity.
    assert (Ht1 : total_files (stats s1) = total_files first) by exact Htot.
    destruct ((extracted_files (stats s1) mod 10 =? 0)
              || (extracted_files (stats s1) =? total_files (stats s1))) eqn:E.
    + unfold announced. rewrite restore_progress_log_reported, Hlog1.
      change (stats (reported s1)) with (stats s1).
      split; [eexists; reflexivity|]. split; [lia|]. split; [exact Ht1|].
      intros k Hk Hle.
      destruct (Z_le_gt_dec (10 * k) (extracted_files (stats s))) as [Hold|Hnew].
      * destruct (Hmult k Hk Hold) as (st & Hin & Hst).
        exists st. split; [|exact Hst].
        rewrite Hfirst in Hin. apply in_or_app. now left.
      * exists (stats s1). split; [|lia].
        apply in_or_app. right. now left.
    + apply orb_false_iff in E as [E _]. apply Z.eqb_neq in E.
      unfold announced. rewrite Hlog1.
      split; [eexists; reflexivity|]. split; [lia|]. split; [exact Ht1|].
      intros k Hk Hle.
      assert (10 * k <> extracted_files (stats s1)).
      { intros Heq. apply E. rewrite <- Heq, Z.mul_comm. apply Z_mod_mult. }
      destruct (Hmult k Hk ltac:(lia)) as (st & Hin & Hst).
      exists st. split; [now rewrite <- Hfirst | exact Hst].
  - destruct (halfway_stats _ _ _ _ _ _ Hmid) as [Hst _].
    pose proof (halfway_progress_log _ _ _ _ _ _ Hmid) as Hlog.
    unfold announced. rewrite restore_progress_log_skipped, Hlog.
    simpl. rewrite Hst, Hfirst.
    split; [eexists; reflexivity|]. split; [exact Hnn|]. split; [exact Htot|].
    intros k Hk Hle. rewrite <- Hfirst. now apply Hmult.
Qed.

Lemma counted_up_count_size n file_info s s' :
  counted_up n s -> count_size file_info s = (Ok tt, s') -> counted_up n s'.
Proof.
  intros (He & Hs & Ht & Hl). unfold count_size.
  destruct (Zip.is_dir file_info).
  - now intros [= <-].
  - unfold update_stats, modify. intros [= <-].
    unfold counted_up. rewrite restore_progress_log_app. simpl.
    unfold progress_log in Hl. rewrite Hl. auto.
Qed.

Lemma untouched_trans s0 s1 s2 :
  untouched s0 s1 -> untouched s1 s2 -> untouched s0 s2.
Proof.
  intros (H1 & H2 & H3 & H4 & H5) (H1' & H2' & H3' & H4' & H5').
  unfold untouched. rewrite H1', H2', H3', H4', H5'. auto.
Qed.

(** what [extract_entries] has told the callback when it ends normally *)
Lemma extract_entries_announced w c s s' :
  progress_callback c = true ->
  extracted_files (stats s) = 0 -> skipped_files (stats s) = 0 ->
  progress_log s = [] ->
  extract_entries w c s = (Ok tt, s') ->
  exists first,
    announced first s'
    /\ extracted_files first = 0 /\ skipped_files first = 0.
Proof.
  intros Hc He Hsk Hl H. unfold extract_entries in H.
  apply bind_Ok in H as (h & s1 & Hopen & H).
  pose proof (quiet_untouched (open_archive w (password c)) s
                (quiet_open_archive w (password c))) as Hu.
  rewrite Hopen in Hu. simpl in Hu. destruct Hu as (Hst & _ & _ & Hpl & _).
  apply bind_Ok in H as ([] & s2 & Hset & H).
  unfold set_archive, modify in Hset. injection Hset as <-.
  apply bind_Ok in H as ([] & s3 & Htot & H).
  unfold update_stats, modify in Htot. simpl in Htot. injection Htot as <-.
  apply bind_Ok in H as ([] & s4 & Hcount & H).
  apply bind_Ok in H as ([] & s5 & Hrep & H).
  set (n := Z.of_nat (length (Zip.namelist h))) in *.
  assert (H4 : counted_up n s4).
  { revert Hcount. apply (for_each_Ok (counted_up n)).
    - intros x t t' _. apply counted_up_count_size.
    - unfold counted_up. rewrite restore_progress_log_app. simpl.
      rewrite Hst, He, Hsk.
      unfold progress_log in Hpl, Hl. rewrite Hpl, Hl. auto. }
  destruct H4 as (He4 & Hs4 & Ht4 & Hl4).
  unfold report in Hrep. rewrite Hc in Hrep.
  unfold bind, get, emit, modify in Hrep. simpl in Hrep. injection Hrep as <-.
  exists (stats s4). split; [|auto].
  revert H. apply (for_each_Ok (announced (stats s4))).
  - intros x t t' _ Ht. now apply extract_file_announced.
  - unfold announced. rewrite restore_progress_log_app. simpl.
    unfold progress_log in Hl4. rewrite Hl4. simpl.
    split; [eauto|]. split; [lia|]. split; [reflexivity|].
    intros k Hk Hle. lia.
Qed.
End RestoreCadence.

(** C9.  With a callback supplied and a run that ends normally:
    a backup calls it first before any file is processed or skipped, calls it
    with every multiple of ten that [processed_files] reaches, and its last
    call shows the final counters (only [archive_size] is recorded later),
    whether or not ten divides the number of files; a restore calls it first
    before any entry is extracted or skipped, calls it with every multiple of
    ten that [extracted_files] reaches, and calls it once more at the end
    with the final counters. *)
Theorem progress_cadence :
  (forall w c final,
      Backup.progress_callback c = true ->
      Backup.run w c = (Ok tt, final) ->
      (exists first rest,
          Backup.progress_log final = first :: rest
          /\ Backup.processed_files first = 0
          /\ Backup.skipped_files first = 0)
      /\ (forall k, 0 < k ->
            10 * k <= Backup.processed_files (Backup.stats final) ->
            exists st, In st (Backup.progress_log final)
                       /\ Backup.processed_files st = 10 * k)
      /\ (exists st,
            last (Backup.progress_log final) = Some st
            /\ Backup.stats final
               = Backup.set_archive_size
                   (Backup.archive_size (Backup.stats final)) st))
  /\ (forall w c final,
         Restore.progress_callback c = true ->
         Restore.run w c = (Ok tt, final) ->
         (exists first rest,
             Restore.progress_log final = first :: rest
             /\ Restore.extracted_files first = 0
             /\ Restore.skipped_files first = 0
             /\ Restore.total_files first
                = Restore.total_files (Restore.stats final))
         /\ (forall k, 0 < k ->
               10 * k <= Restore.extracted_files (Restore.stats final) ->
               exists st, In st (Restore.progress_log final)
                          /\ Restore.extracted_files st = 10 * k)
         /\ last (Restore.progress_log final)
            = Some (Restore.stats final)).
Proof.
  split.
  - intros w c final Hc H. unfold Backup.run, Backup.create_archive in H.
    apply bind_Ok in H as ([] & s1 & Hprep & H).
    pose proof (prepare_scanned w (Backup.initial w) (initial_scanned w)) as Hs.
    pose proof (silent_prepare w (Backup.initial w) eq_refl) as Hq.
    rewrite Hprep in Hs, Hq. simpl in Hs, Hq.
    destruct Hs as (Hp & Hk & _).
    unfold Backup.write_phase in H.
    apply try_except_Ok in H; [|intros e k s0; apply handler_reraises].
    unfold Backup.write_archive in H.
    apply bind_Ok in H as ([] & s2 & Hopen & H).
    apply manager_create_archive_Ok in Hopen as (Hst & _ & Hlog & _).
    apply try_finally_Ok in H as (s3 & Hw & Hclose).
    assert (Hsilent : BackupInv.silent s2).
    { unfold BackupInv.silent, Backup.progress_log in *.
      rewrite Hlog, omap_app, Hq. reflexivity. }
    apply write_entries_announced in Hw as (Hfirst & Hmult & Hlast);
      [|exact Hc|exact Hsilent|now rewrite Hst].
    unfold Backup.close_archive, Backup.set_archive, Backup.emit,
      bind, modify in Hclose. injection Hclose as <-.
    unfold Backup.progress_log in *. simpl. rewrite omap_app. simpl.
    rewrite app_nil_r. rewrite Hst in Hfirst.
    split; [|split; assumption].
    destruct Hfirst as [rest Hfirst]. exists (Backup.stats s1), rest. auto.
  - intros w c final Hc H. unfold Restore.run, Restore.extract_archive in H.
    apply bind_Ok in H as ([] & sa & Hva & H).
    apply bind_Ok in H as ([] & sb & Hch & H).
    apply bind_Ok in H as ([] & sc & Hmk & H).
    apply bind_Ok in H as ([] & se & Hex & Hrep).
    pose proof (quiet_untouched _ (Restore.initial w)
                  (quiet_validate_archive w c)) as Ua.
    pose proof (quiet_untouched _ sa (quiet_check_disk_space w)) as Ub.
    pose proof (quiet_untouched _ sb
                  (quiet_lift_raises (Restore.target_mkdir_raises w))) as Uc.
    rewrite Hva in Ua. rewrite Hch in Ub. rewrite Hmk in Uc. simpl in *.
    pose proof (untouched_trans _ _ _ (untouched_trans _ _ _ Ua Ub) Uc)
      as (Hst & _ & _ & Hpl & _).
    apply try_finally_Ok in Hex as (sd & Hent & Hclose).
    apply try_except_Ok in Hent;
      [|intros e k s0; apply keyboard_interrupt_raises].
    apply extract_entries_announced in Hent
      as (first & ([rest Hfirst] & Hnn & Htot & Hmult) & Hf0 & Hf1);
      [|exact Hc|now rewrite Hst|now rewrite Hst|exact Hpl].
    pose proof (quiet_untouched _ sd quiet_close_if_open) as Ud.
    rewrite Hclose in Ud. simpl in Ud.
    destruct Ud as (Hst' & _ & _ & Hpl' & _).
    unfold Restore.report in Hrep. rewrite Hc in Hrep.
    unfold bind, get, Restore.emit, modify in Hrep. simpl in Hrep.
    injection Hrep as <-.
    rewrite restore_progress_log_app. simpl.
    fold (Restore.progress_log se). rewrite Hpl', Hfirst, Hst'.
    split; [|split].
    + exists first, (rest ++ [Restore.stats sd]). auto.
    + intros k Hk Hle. destruct (Hmult k Hk Hle) as (st & Hin & Hst0).
      exists st. split; [|exact Hst0].
      rewrite Hfirst in Hin. apply in_or_app. now left.
    + apply last_snoc.
Qed.

Lemma progress_cadence_witness :
  (exists st,
      last (Backup.progress_log
              (snd (Backup.run Samples.dozen_world Samples.plain_backup)))
      = Some st
      /\ Backup.processed_files st = 12)
  /\ map Backup.processed_files
       (Backup.progress_log
          (snd (Backup.run Samples.dozen_world Samples.plain_backup)))
     = [0; 10; 12]
  /\ last (Restore.progress_log
             (snd (Restore.run (Samples.calm_restore Samples.dozen_archive)
                               Samples.no_password)))
     = Some (Restore.stats
               (snd (Restore.run (Samples.calm_restore Samples.dozen_archive)
                                 Samples.no_password)))
  /\ map Restore.extracted_files
       (Restore.progress_log
          (snd (Restore.run (Samples.calm_restore Samples.dozen_archive)
                            Samples.no_password)))
     = [0; 10; 12; 12].
Proof.
  destruct progress_cadence as [Hb Hr].
  split; [|split; [vm_compute; reflexivity|split; [|vm_compute; reflexivity]]].
  - destruct (Hb Samples.dozen_world Samples.plain_backup
                (snd (Backup.run Samples.dozen_world Samples.plain_backup))
                eq_refl)
      as (_ & _ & st & Hlast & Hst); [vm_compute; reflexivity|].
    exists st. split; [exact Hlast|].
    change (Backup.processed_files st)
      with (Backup.processed_files
              (Backup.set_archive_size
                 (Backup.archive_size
                    (Backup.stats
                       (snd (Backup.run Samples.dozen_world
                               Samples.plain_backup)))) st)).
    rewrite <- Hst. vm_compute. reflexivity.
  - apply (Hr (Samples.calm_restore Samples.dozen_archive) Samples.no_password
             (snd (Restore.run (Samples.calm_restore Samples.dozen_archive)
                               Samples.no_password)) eq_refl).
    vm_compute. reflexivity.
Defined.

(** ** The codec: what reading an entry can raise *)

Section Codec.

Lemma decrypt_raises b e p x :
  Zip.decrypt b e p = Raise x -> is_RuntimeError x = true.
Proof.
  unfold Zip.decrypt.
  destruct (Zip.encryption e), p, b; try destruct (Zip.bytes_eqb _ _);
    intros [= <-]; reflexivity.
Qed.

Lemma read_raises h name p x :
  Zip.read h name p = Raise x ->
  is_KeyboardInterrupt x = false /\ is_OSError x = false
  /\ is_BadZipFile x = false.
Proof.
  unfold Zip.read. destruct (Zip.getinfo h name).
  - intros H. apply decrypt_raises in H. destruct x; try discriminate; auto.
  - intros [= <-]. auto.
Qed.

Lemma getinfo_in_Some name es e :
  Zip.getinfo_in name es = Some e -> Zip.filename e = name /\ In e es.
Proof.
  induction es as [|e0 es IH]; simpl; [discriminate|].
  destruct (Zip.getinfo_in name es) as [e'|].
  - intros [= ->]. destruct (IH eq_refl). auto.
  - destruct (String.eqb name (Zip.filename e0)) eqn:E; [|discriminate].
    intros [= ->]. apply String.eqb_eq in E. auto.
Qed.

Lemma getinfo_in_listed name es :
  In name (map Zip.filename es) -> is_Some (Zip.getinfo_in name es).
Proof.
  induction es as [|e0 es IH]; simpl; [easy|].
  intros [H|H].
  - destruct (Zip.getinfo_in name es); [eauto|].
    rewrite <- H, String.eqb_refl. eauto.
  - destruct (IH H) as [e He]. rewrite He. eauto.
Qed.

(** reading an entry that is listed raises nothing but [RuntimeError]s *)
Lemma read_listed_raises h name p x :
  In name (Zip.namelist h) ->
  Zip.read h name p = Raise x -> is_RuntimeError x = true.
Proof.
  intros Hin. unfold Zip.read, Zip.getinfo.
  destruct (getinfo_in_listed name (Zip.entries h) Hin) as [e ->].
  apply decrypt_raises.
Qed.

Lemma decrypt_wrong_password b e p :
  Zip.wrong_password p e ->
  exists x, Zip.decrypt b e (if truthy p then p else None) = Raise x
            /\ is_RuntimeError x = true.
Proof.
  intros (key & Hk & Hw). unfold Zip.decrypt, Zip.key_of in *.
  destruct (Zip.encryption e) as [|k|k]; [discriminate| |];
    injection Hk as ->;
    (destruct (truthy p) eqn:Ht; [|eauto]);
    (destruct Hw as [Hw|Hw]; [discriminate|]);
    (destruct p as [p|]; [|discriminate]);
    unfold Zip.bytes_eqb;
    (destruct (bool_decide (p = key)) eqn:E;
     [apply bool_decide_eq_true in E; congruence|]);
    destruct b; eauto.
Qed.

Lemma testzip_in_wrong_password h p name e names :
  Zip.pwd h = (if truthy p then p else None) ->
  Zip.getinfo h name = Some e ->
  Zip.wrong_password p e ->
  In name names ->
  (forall n, In n names -> In n (Zip.namelist h)) ->
  exists x, Zip.testzip_in h names = Raise x /\ is_RuntimeError x = true.
Proof.
  intros Hp Hi Hw. induction names as [|n names IH]; simpl; [easy|].
  intros Hin Hall.
  destruct (Zip.read h n None) as [content|x] eqn:Hr.
  - destruct Hin as [->|Hin].
    + unfold Zip.read in Hr. rewrite Hi in Hr. simpl in Hr. rewrite Hp in Hr.
      destruct (decrypt_wrong_password (Zip.backend h) e p Hw) as (x & Hx & _).
      congruence.
    + apply IH; [exact Hin | intros m Hm; apply Hall; now right].
  - destruct (read_raises _ _ _ _ Hr) as (_ & _ & Hb). rewrite Hb.
    exists x. split; [reflexivity|].
    eapply read_listed_raises; [|exact Hr]. apply Hall. now left.
Qed.

Lemma testzip_wrong_password h p name e :
  Zip.pwd h = (if truthy p then p else None) ->
  Zip.getinfo h name = Some e ->
  Zip.wrong_password p e ->
  exists x, Zip.testzip h = Raise x /\ is_RuntimeError x = true.
Proof.
  intros Hp Hi Hw. unfold Zip.testzip.
  apply (testzip_in_wrong_password h p name e); auto.
  apply getinfo_in_Some in Hi as [<- Hin].
  unfold Zip.namelist. now apply in_map.
Qed.
End Codec.

(** ** Restore: what [open_archive] returns *)

Section OpenArchive.
Import Restore RestoreInv.

Ltac break_match :=
  match goal with
  | |- context [match ?x with _ => _ end] =>
      lazymatch x with
      | context [match _ with _ => _ end] => fail
      | _ => destruct x eqn:?
      end
  end.

Ltac read_facts :=
  repeat match goal with
         | H : Zip.read _ _ _ = Raise _ |- _ =>
             let Hk := fresh in
             pose proof (read_raises _ _ _ _ H) as Hk;
             destruct Hk as (? & ? & ?);
             apply read_listed_raises in H;
             [|match goal with
               | Hl : Zip.namelist _ = _ :: _ |- _ =>
                   (rewrite Hl; now left)
                   || (unfold Zip.namelist in *; simpl in *;
                       rewrite Hl; now left)
               end]
         end.

Lemma read_with_handle_password h name p :
  Zip.pwd h = (if truthy p then p else None) ->
  Zip.read h name p = Zip.read h name None.
Proof.
  intros Hp. unfold Zip.read. destruct (Zip.getinfo h name); [|reflexivity].
  simpl. rewrite Hp. now destruct (truthy p).
Qed.

(** a successful [open_archive] leaves one more handle open and returns the
    entries stored in the file, with the password that was supplied; the
    first entry has been read with it *)
Lemma open_archive_Ok w pw s h s' :
  open_archive w pw s = (Ok h, s') ->
  stats s' = stats s /\ target s' = target s /\ archive s' = archive s
  /\ open_handles s' = S (open_handles s)
  /\ (exists es, archive_file w = Some (Zip.Container es)
                 /\ Zip.entries h = es
                 /\ Zip.pwd h = (if truthy pw then pw else None))
  /\ match Zip.namelist h with
     | first :: _ => exists content, Zip.read h first None = Ok content
     | [] => True
     end.
Proof.
  unfold open_archive, open_handle, close_handle, Zip.open_read.
  unfold try_except, bind, lift, ret, raise, set_open_handles, emit, modify.
  destruct (archive_file w) as [[|es]|]; simpl.
  - destruct (pyzipper_installed w); simpl; discriminate.
  - repeat (break_match; simpl in *; try discriminate).
    all: repeat match goal with
         | H : Zip.read _ _ _ = Raise _ |- _ =>
             apply read_raises in H; destruct H as (? & ? & ?)
         end.
    all: try (rewrite orb_true_iff in *; intuition congruence).
    all: intros [= <- <-]; simpl; repeat split;
      try (eexists; repeat split;
           match goal with H : truthy _ = _ |- _ => rewrite ?H end;
           reflexivity).
    all: repeat match goal with
         | H : Zip.namelist _ = _ |- _ =>
             unfold Zip.namelist in H; simpl in H
         end.
    all: try congruence.
    all: try match goal with
         | H1 : map Zip.filename ?l = _ :: _,
           H2 : map Zip.filename ?l = _ :: _ |- _ =>
             rewrite H1 in H2; injection H2 as <- <-
         end.
    all: try (eexists; eassumption).
    all: match goal with
         | H : Zip.read ?h ?n ?p = Ok ?b |- _ =>
             exists b; rewrite <- H; symmetry;
             apply read_with_handle_password; simpl;
             match goal with Ht : truthy _ = _ |- _ => rewrite ?Ht end;
             reflexivity
         end.
  - discriminate.
Qed.

(** on a well-formed container, [open_archive] fails only with a
    [RuntimeError] *)
Lemma open_archive_Raise w pw s es x s' :
  archive_file w = Some (Zip.Container es) ->
  open_archive w pw s = (Raise x, s') ->
  is_RuntimeError x = true.
Proof.
  intros Ha.
  unfold open_archive, open_handle, close_handle, Zip.open_read.
  unfold try_except, bind, lift, ret, raise, set_open_handles, emit, modify.
  rewrite Ha. simpl.
  repeat (break_match; simpl in *; try discriminate).
  all: read_facts.
  all: try (intros [= <- <-]; simpl; congruence).
  all: try (rewrite ?orb_true_iff, ?orb_false_iff in *; intuition congruence).
Qed.
End OpenArchive.

(** ** C3: a wrong password *)

Section WrongPassword.
Import Restore RestoreInv.

(** the [except RuntimeError] clause of [validate_archive] keeps the class *)
Lemma validate_handler_RuntimeError x (s : State) :
  is_RuntimeError x = true ->
  exists x',
    (if contains "password" (lower (str x))
     then raise (RuntimeError msg_required_or_incorrect)
     else raise x) s = (@Raise unit x', s)
    /\ is_RuntimeError x' = true.
Proof.
  intros Hx. destruct (contains _ _); eexists; split; try reflexivity; auto.
Qed.

Lemma validate_archive_wrong_password w c es name e s :
  archive_file w = Some (Zip.Container es) ->
  archive_is_file w = true ->
  Zip.getinfo_in name es = Some e ->
  Zip.wrong_password (password c) e ->
  exists x s',
    validate_archive w c s = (Raise x, s')
    /\ is_RuntimeError x = true /\ untouched s s'.
Proof.
  intros Ha Hf Hi Hw.
  pose proof (quiet_untouched _ s (quiet_validate_archive w c)) as Hu.
  unfold validate_archive in *. rewrite Ha, Hf in *. simpl in *.
  unfold try_except, bind in *.
  destruct (open_archive w (password c) s) as [[h|x] s1] eqn:Ho.
  - apply open_archive_Ok in Ho
      as (_ & _ & _ & _ & (es' & Ha' & Hes & Hp) & _).
    rewrite Ha in Ha'. injection Ha' as <-.
    destruct (testzip_wrong_password h (password c) name e Hp) as (x & Hx & Hr);
      [unfold Zip.getinfo; now rewrite Hes | exact Hw |].
    unfold try_finally, lift in *. rewrite Hx in *.
    destruct (close_handle s1) as [[[]|x0] s2] eqn:Hc.
    + rewrite Hr in *.
      destruct (validate_handler_RuntimeError x s2 Hr) as (x' & Hx' & Hr').
      rewrite Hx' in *. eauto.
    + unfold close_handle, set_open_handles, emit, bind, modify in Hc.
      discriminate.
  - pose proof (open_archive_Raise w (password c) s es x s1 Ha Ho) as Hr.
    rewrite Hr in *.
    destruct (validate_handler_RuntimeError x s1 Hr) as (x' & Hx' & Hr').
    rewrite Hx' in *. eauto.
Qed.

Lemma open_archive_wrong_password w pw es first rest e s :
  archive_file w = Some (Zip.Container es) ->
  map Zip.filename es = first :: rest ->
  Zip.getinfo_in first es = Some e ->
  Zip.wrong_password pw e ->
  exists x s',
    open_archive w pw s = (Raise x, s') /\ is_RuntimeError x = true.
Proof.
  intros Ha Hn Hi Hw.
  destruct (open_archive w pw s) as [[h|x] s1] eqn:Ho.
  - apply open_archive_Ok in Ho
      as (_ & _ & _ & _ & (es' & Ha' & Hes & Hp) & Hfirst).
    rewrite Ha in Ha'. injection Ha' as <-.
    unfold Zip.namelist in Hfirst. rewrite Hes, Hn in Hfirst.
    destruct Hfirst as [content Hread].
    unfold Zip.read, Zip.getinfo in Hread. rewrite Hes, Hi in Hread.
    simpl in Hread. rewrite Hp in Hread.
    destruct (decrypt_wrong_password (Zip.backend h) e pw Hw) as (x & Hx & _).
    congruence.
  - exists x, s1. split; [reflexivity|].
    now apply (open_archive_Raise w pw s es x s1).
Qed.
End WrongPassword.

(** C3.  Take an archive that holds an entry encrypted with a password, and
    a restore that supplies another password or none.  The restore ends with
    a [RuntimeError], the class the code raises for "password required or
    incorrect", before anything is written: the target directory is as it
    was, no target file was opened, no counter has moved.  When the entry is
    the first of the archive, opening the archive already raises a
    [RuntimeError]. *)
Theorem wrong_password_extracts_nothing w c es name e :
  Restore.archive_file w = Some (Zip.Container es) ->
  Restore.archive_is_file w = true ->
  Zip.getinfo_in name es = Some e ->
  Zip.wrong_password (Restore.password c) e ->
  (exists x final,
      Restore.run w c = (Raise x, final)
      /\ is_RuntimeError x = true
      /\ Restore.target final = Restore.target_before w
      /\ Restore.written final = []
      /\ Restore.stats final = Restore.RestoreStats0)
  /\ (forall rest s,
         map Zip.filename es = name :: rest ->
         exists x s',
           Restore.open_archive w (Restore.password c) s = (Raise x, s')
           /\ is_RuntimeError x = true).
Proof.
  intros Ha Hf Hi Hw. split.
  - destruct (validate_archive_wrong_password w c es name e
                (Restore.initial w) Ha Hf Hi Hw)
      as (x & s' & Hv & Hr & Hst & Ht & _ & _ & Hwr).
    exists x, s'. unfold Restore.run, Restore.extract_archive, bind.
    rewrite Hv. auto.
  - intros rest s Hn.
    now apply (open_archive_wrong_password w _ es name rest e).
Qed.

Lemma wrong_password_extracts_nothing_witness :
  Restore.run (Samples.calm_restore Samples.protected_archive)
              Samples.wrong_guess
  = (Raise (RuntimeError Restore.msg_required_or_incorrect),
     snd (Restore.run (Samples.calm_restore Samples.protected_archive)
                      Samples.wrong_guess))
  /\ exists x final,
      Restore.run (Samples.calm_restore Samples.protected_archive)
                  Samples.wrong_guess = (Raise x, final)
      /\ is_RuntimeError x = true
      /\ Restore.target final = ∅
      /\ Restore.written final = []
      /\ Restore.stats final = Restore.RestoreStats0.
Proof.
  split; [vm_compute; reflexivity|].
  apply (wrong_password_extracts_nothing
           (Samples.calm_restore Samples.protected_archive)
           Samples.wrong_guess Samples.protected_entries
           "a.txt" Samples.protected_entry);
    try reflexivity.
  exists Samples.the_password. split; [reflexivity|].
  right. discriminate.
Defined.

(** ** C2: cancellation *)

Section BackupCancel.
Import Backup BackupInv.

Lemma closed_update_stats f : keeps closed (update_stats f).
Proof. intros s H. exact H. Qed.

Lemma closed_prepare w : keeps closed (prepare w).
Proof.
  unfold prepare. apply keeps_try_except.
  - apply keeps_bind; [intros s H; now rewrite validate_source_state | intros _].
    apply keeps_bind; [|intros _ s H; now rewrite check_disk_space_state].
    unfold calculate_total_size.
    destruct (source_exists w); simpl; [|apply keeps_ret].
    apply keeps_try_except.
    + apply keeps_bind; [|intros _; apply keeps_lift_raises].
      apply keeps_for_each. intros x. unfold scan_file.
      destruct (is_file w x); simpl; [|apply keeps_ret].
      apply keeps_try_except.
      * apply keeps_bind; [apply keeps_lift | intros file_size].
        apply keeps_bind; [intros s H; exact H | intros _].
        apply keeps_bind; [apply closed_update_stats | intros _].
        apply closed_update_stats.
      * intros e k. destruct (is_OSError e); [|discriminate].
        intros [= <-]. apply keeps_ret.
    + intros e k Hk. destruct (keyboard_interrupt_reraised e k Hk) as [e' ->].
      apply keeps_raise.
  - intros e k Hk. destruct (keyboard_interrupt_reraised e k Hk) as [e' ->].
    apply keeps_raise.
Qed.

(** however the [with] block ends, the archive is closed afterwards *)
Lemma write_archive_closes w c s :
  closed s -> closed (snd (write_archive w c s)).
Proof.
  intros H. unfold write_archive, manager_create_archive.
  destruct (_get_zip_class w _) as [zip_class use_password].
  destruct (parent_exists w); simpl; [|exact H].
  unfold bind at 1, bind at 1, bind at 1.
  unfold set_backup_file at 1, emit at 1, set_archive at 1, modify. simpl.
  unfold try_finally.
  match goal with |- context [write_entries w c ?s1] =>
    destruct (write_entries w c s1) as [r s3] end.
  reflexivity.
Qed.

(** the handler of the second [try] block *)
Lemma write_phase_interrupted w c s s2 :
  write_archive w c s = (Raise KeyboardInterrupt, s2) ->
  write_phase w c s
  = (Raise KeyboardInterrupt,
     match backup_file s2 with
     | Some _ =>
         if unlink_fails w then s2
         else mkState (stats s2) (_file_sizes s2) (archive s2) None
                      (log s2 ++ [Unlinked])
     | None => s2
     end).
Proof.
  intros H. unfold write_phase, try_except. rewrite H. simpl.
  unfold remove_incomplete, bind, get. simpl.
  destruct (backup_file s2); [|reflexivity].
  destruct (unlink_fails w); reflexivity.
Qed.

Lemma prepare_interrupted_state w s s' e :
  prepare w s = (Raise e, s') -> backup_file s' = backup_file s.
Proof.
  intros H.
  assert (Hk : keeps (fun t => backup_file t = backup_file s) (prepare w)).
  { unfold prepare. apply keeps_try_except.
    - apply keeps_bind;
        [intros t Ht; now rewrite validate_source_state | intros _].
      apply keeps_bind; [|intros _ t Ht; now rewrite check_disk_space_state].
      unfold calculate_total_size.
      destruct (source_exists w); simpl; [|apply keeps_ret].
      apply keeps_try_except.
      + apply keeps_bind; [|intros _; apply keeps_lift_raises].
        apply keeps_for_each. intros x. unfold scan_file.
        destruct (is_file w x); simpl; [|apply keeps_ret].
        apply keeps_try_except.
        * apply keeps_bind; [apply keeps_lift | intros file_size].
          apply keeps_bind; [intros t Ht; exact Ht | intros _].
          apply keeps_bind; [intros t Ht; exact Ht | intros _].
          intros t Ht; exact Ht.
        * intros e0 k. destruct (is_OSError e0); [|discriminate].
          intros [= <-]. apply keeps_ret.
      + intros e0 k Hk. destruct (keyboard_interrupt_reraised e0 k Hk) as [e' ->].
        apply keeps_raise.
    - intros e0 k Hk. destruct (keyboard_interrupt_reraised e0 k Hk) as [e' ->].
      apply keeps_raise. }
  specialize (Hk s eq_refl). now rewrite H in Hk.
Qed.
End BackupCancel.

Section RestoreCancel.
Import Restore RestoreInv.

Lemma validate_handler_reraises (e : exn) (k : M State unit) (s : State) :
  (if is_RuntimeError e then
     Some (if contains "password" (lower (str e))
           then raise (RuntimeError msg_required_or_incorrect)
           else raise e)
   else if is_BadZipFile e then
     Some (raise (BadZipFile "Archive is corrupted or not a valid ZIP file"))
   else None) = Some k ->
  exists e', fst (k s) = Raise e'.
Proof.
  destruct (is_RuntimeError e).
  - intros [= <-]. destruct (contains _ _); simpl; eauto.
  - destruct (is_BadZipFile e); [|discriminate]. intros [= <-]. simpl. eauto.
Qed.

(** a validation that passes has closed the handle it opened *)
Lemma validate_archive_Ok w c s s' :
  validate_archive w c s = (Ok tt, s') ->
  open_handles s' = open_handles s /\ archive s' = archive s
  /\ untouched s s'
  /\ exists es, archive_file w = Some (Zip.Container es).
Proof.
  intros H.
  pose proof (quiet_untouched _ s (quiet_validate_archive w c)) as Hu.
  rewrite H in Hu. simpl in Hu.
  unfold validate_archive in H.
  destruct (archive_file w) as [f|] eqn:Ha; [|discriminate].
  destruct (archive_is_file w); simpl in H; [|discriminate].
  apply try_except_Ok in H; [|intros e k s1; apply validate_handler_reraises].
  apply bind_Ok in H as (h & s1 & Ho & H).
  apply open_archive_Ok in Ho as (_ & _ & Har & Hn & (es & Ha' & _) & _).
  apply try_finally_Ok in H as (s2 & Ht & Hc).
  unfold lift in Ht. injection Ht as _ <-.
  unfold close_handle, set_open_handles, emit, bind, modify in Hc.
  injection Hc as <-. simpl. rewrite Hn, Har.
  split; [reflexivity|]. split; [reflexivity|]. split; [exact Hu|].
  exists es. congruence.
Qed.

Lemma restore_check_disk_space_state w s : snd (check_disk_space w s) = s.
Proof.
  unfold check_disk_space. destruct (archive_file w); [|reflexivity].
  destruct (target_drive_exists w); simpl; [|reflexivity].
  destruct (_ <? _); reflexivity.
Qed.

Lemma holding_update_stats h n f : keeps (holding h n) (update_stats f).
Proof. intros s H. exact H. Qed.

Lemma holding_report h n c : keeps (holding h n) (report c).
Proof.
  intros s H. rewrite restore_report_reported.
  destruct (progress_callback c); exact H.
Qed.

Lemma holding_halfway w c h0 file_name h n s mid :
  halfway w c h0 file_name s mid -> holding h n s -> holding h n mid.
Proof. intros [->|(content & k & e & _ & _ & ->)] H; exact H. Qed.

Lemma holding_extract_file w c h0 file_name h n :
  keeps (holding h n) (extract_file w c h0 file_name).
Proof.
  intros s H.
  destruct (extract_file_cases w c h0 file_name s)
    as [info Hi Hd|info content Hi Hd Hm Hr Hw|mid Hmid|mid e Hmid Hne]; simpl.
  - exact H.
  - destruct (_ && _); exact H.
  - apply (holding_halfway _ _ _ _ h n) in Hmid; [exact Hmid | exact H].
  - apply (holding_halfway _ _ _ _ h n) in Hmid; [exact Hmid | exact H].
Qed.

Lemma holding_count_size h n file_info : keeps (holding h n) (count_size file_info).
Proof.
  unfold count_size. destruct (Zip.is_dir file_info);
    [apply keeps_ret | apply holding_update_stats].
Qed.

Lemma nothing_removed_untouched w s0 s :
  nothing_removed w s0 -> untouched s0 s -> nothing_removed w s.
Proof.
  intros [Hw Hb] (_ & Ht & _ & _ & Hwr). unfold nothing_removed.
  rewrite Ht, Hwr. auto.
Qed.

Lemma nothing_removed_quiet w {A} (m : M State A) :
  quiet m -> keeps (nothing_removed w) m.
Proof.
  intros Hq s H. eapply nothing_removed_untouched; [exact H|].
  now apply quiet_untouched.
Qed.

Lemma written_app st a n t l evs :
  written (mkState st a n t (l ++ evs)) = omap touched l ++ omap touched evs.
Proof. unfold written. simpl. now rewrite omap_app. Qed.

Lemma nothing_removed_copied w file_name content s :
  nothing_removed w s -> nothing_removed w (copied file_name content s).
Proof.
  intros [Hw Hb]. unfold nothing_removed, copied. simpl.
  rewrite written_app. simpl. split.
  - intros n Hin. apply lookup_insert_is_Some.
    destruct (decide (file_name = n)) as [->|Hne]; [now left|right].
    split; [exact Hne|]. apply Hw.
    apply in_app_or in Hin as [Hin|[Hin|[]]]; [exact Hin | congruence].
  - intros n Hin. apply lookup_insert_is_Some.
    destruct (decide (file_name = n)) as [->|Hne]; [now left|right].
    split; [exact Hne | now apply Hb].
Qed.

(** a change of the counters or a callback leaves the files alone *)
Lemma nothing_removed_same_files w s s' :
  target s' = target s -> written s' = written s ->
  nothing_removed w s -> nothing_removed w s'.
Proof.
  intros Ht Hwr [Hw Hb]. unfold nothing_removed. rewrite Ht, Hwr. auto.
Qed.

Lemma nothing_removed_halfway w c h file_name s mid :
  halfway w c h file_name s mid ->
  nothing_removed w s -> nothing_removed w mid.
Proof.
  intros [->|(content & k & e & _ & _ & ->)] H; [exact H|].
  now apply nothing_removed_copied.
Qed.

Lemma nothing_removed_extract_file w c h file_name :
  keeps (nothing_removed w) (extract_file w c h file_name).
Proof.
  intros s H.
  destruct (extract_file_cases w c h file_name s)
    as [info Hi Hd|info content Hi Hd Hm Hr Hw|mid Hmid|mid e Hmid Hne]; simpl.
  - exact H.
  - apply (nothing_removed_copied w file_name content) in H.
    destruct (_ && _);
      (eapply nothing_removed_same_files; [| |exact H]);
      unfold reported, counted, written; simpl;
      rewrite ?omap_app; simpl; rewrite ?app_nil_r; reflexivity.
  - apply (nothing_removed_halfway _ _ _ _ _ _ Hmid) in H.
    eapply nothing_removed_same_files; [| |exact H];
      unfold skipped, written; simpl;
      rewrite ?omap_app; simpl; rewrite ?app_nil_r; reflexivity.
  - now apply (nothing_removed_halfway _ _ _ _ _ _ Hmid).
Qed.

Lemma nothing_removed_update_stats w f : keeps (nothing_removed w) (update_stats f).
Proof.
  intros s H. eapply nothing_removed_same_files; [| |exact H];
    unfold update_stats, modify, written; simpl;
    rewrite ?omap_app; simpl; rewrite ?app_nil_r; reflexivity.
Qed.

Lemma nothing_removed_report w c : keeps (nothing_removed w) (report c).
Proof.
  intros s H. rewrite restore_report_reported.
  destruct (progress_callback c); [|exact H].
  eapply nothing_removed_same_files; [| |exact H];
    unfold reported, written; simpl;
    rewrite ?omap_app; simpl; rewrite ?app_nil_r; reflexivity.
Qed.

Lemma nothing_removed_extract_entries w c :
  keeps (nothing_removed w) (extract_entries w c).
Proof.
  unfold extract_entries.
  apply keeps_bind;
    [apply nothing_removed_quiet, quiet_open_archive | intros h].
  apply keeps_bind;
    [apply nothing_removed_quiet, quiet_set_archive | intros _].
  apply keeps_bind; [apply nothing_removed_update_stats | intros _].
  apply keeps_bind.
  { apply keeps_for_each. intros x. unfold count_size.
    destruct (Zip.is_dir x);
      [apply keeps_ret | apply nothing_removed_update_stats]. }
  intros _. apply keeps_bind; [apply nothing_removed_report | intros _].
  apply keeps_for_each. intros x. apply nothing_removed_extract_file.
Qed.

Lemma nothing_removed_extract_archive w c :
  keeps (nothing_removed w) (extract_archive w c).
Proof.
  unfold extract_archive.
  apply keeps_bind;
    [apply nothing_removed_quiet, quiet_validate_archive | intros _].
  apply keeps_bind;
    [apply nothing_removed_quiet, quiet_check_disk_space | intros _].
  apply keeps_bind; [apply keeps_lift_raises | intros _].
  apply keeps_bind; [|intros _; apply nothing_removed_report].
  apply keeps_try_finally;
    [|apply nothing_removed_quiet, quiet_close_if_open].
  apply keeps_try_except; [apply nothing_removed_extract_entries|].
  intros e k Hk. destruct (keyboard_interrupt_reraised e k Hk) as [e' ->].
  apply keeps_raise.
Qed.

Lemma nothing_removed_initial w : nothing_removed w (initial w).
Proof. split; [intros n [] | auto]. Qed.

(** an interrupted [extract_entries] had opened the archive *)
Lemma extract_entries_interrupted w c es s s2 :
  archive_file w = Some (Zip.Container es) ->
  extract_entries w c s = (Raise KeyboardInterrupt, s2) ->
  exists h, holding h (S (open_handles s)) s2.
Proof.
  intros Ha H. unfold extract_entries in H.
  apply bind_Raise in H as [H|(h & s1 & Ho & H)].
  { apply (open_archive_Raise w _ s es) in H; [discriminate | exact Ha]. }
  apply open_archive_Ok in Ho as (_ & _ & _ & Hn & _).
  exists h.
  assert (Hk : keeps (holding h (S (open_handles s)))
                 (update_stats
                    (set_total_files (Z.of_nat (length (Zip.namelist h)))) ;;
                  for_each (Zip.infolist h) count_size ;;
                  report c ;;
                  for_each (Zip.namelist h) (extract_file w c h))).
  { apply keeps_bind; [apply holding_update_stats | intros _].
    apply keeps_bind;
      [apply keeps_for_each; intros x; apply holding_count_size | intros _].
    apply keeps_bind; [apply holding_report | intros _].
    apply keeps_for_each. intros x. apply holding_extract_file. }
  unfold bind at 1 in H. unfold set_archive, modify in H. simpl in H.
  match type of H with
  | _ ?s1' = _ => specialize (Hk s1'); rewrite H in Hk
  end.
  apply Hk. split; [reflexivity | exact Hn].
Qed.
End RestoreCancel.

(** C2.  When Ctrl+C arrives while a backup is inside its [with] block, that
    is once the archive file has been created, the archive is closed, the
    file is unlinked and [KeyboardInterrupt] is raised again: no archive file
    is left, provided the file system lets the file be deleted (a failure of
    the deletion is swallowed by the code).  When Ctrl+C arrives during the
    preparation, it is raised again and what was at the archive path is not
    touched.  When Ctrl+C arrives during the extraction of a restore, the
    archive handle is closed, [KeyboardInterrupt] is raised again, and the
    target directory stays as the extraction left it: every file that was
    there before and every file that was opened for writing is still
    there. *)
Theorem cancellation :
  (forall w c s1 s2,
      Backup.prepare w (Backup.initial w) = (Ok tt, s1) ->
      Backup.write_archive w c s1 = (Raise KeyboardInterrupt, s2) ->
      Backup.unlink_fails w = false ->
      exists final,
        Backup.run w c = (Raise KeyboardInterrupt, final)
        /\ Backup.backup_file final = None
        /\ Backup.archive final = None
        /\ Backup.stats final = Backup.stats s2)
  /\ (forall w c s1,
         Backup.prepare w (Backup.initial w) = (Raise KeyboardInterrupt, s1) ->
         Backup.run w c = (Raise KeyboardInterrupt, s1)
         /\ Backup.backup_file s1 = Backup.backup_path_before w
         /\ Backup.archive s1 = None)
  /\ (forall w c sa sb s2,
         Restore.validate_archive w c (Restore.initial w) = (Ok tt, sa) ->
         Restore.check_disk_space w sa = (Ok tt, sb) ->
         Restore.target_mkdir_raises w = None ->
         Restore.extract_entries w c sb = (Raise KeyboardInterrupt, s2) ->
         exists final,
           Restore.run w c = (Raise KeyboardInterrupt, final)
           /\ Restore.open_handles final = 0%nat
           /\ In Restore.Closed (Restore.log final)
           /\ Restore.target final = Restore.target s2
           /\ RestoreInv.nothing_removed w final).
Proof.
  split; [|split].
  - intros w c s1 s2 Hp Hw Hu.
    pose proof (closed_prepare w (Backup.initial w) eq_refl) as Hc1.
    rewrite Hp in Hc1. simpl in Hc1.
    pose proof (write_archive_closes w c s1 Hc1) as Hc2.
    rewrite Hw in Hc2. simpl in Hc2.
    unfold Backup.run, Backup.create_archive, bind. rewrite Hp.
    rewrite (write_phase_interrupted w c s1 s2 Hw), Hu.
    eexists. split; [reflexivity|].
    destruct (Backup.backup_file s2) eqn:E; simpl; auto.
  - intros w c s1 Hp.
    unfold Backup.run, Backup.create_archive, bind. rewrite Hp.
    split; [reflexivity|]. split.
    + apply (prepare_interrupted_state w _ _ _ Hp).
    + pose proof (closed_prepare w (Backup.initial w) eq_refl) as Hc1.
      now rewrite Hp in Hc1.
  - intros w c sa sb s2 Hv Hc Hm He.
    pose proof (nothing_removed_extract_archive w c (Restore.initial w)
                  (nothing_removed_initial w)) as Hnr.
    unfold Restore.run.
    unfold Restore.extract_archive, bind in *. rewrite Hv, Hc, Hm in *.
    simpl in *. unfold lift_raises in *. simpl in *.
    apply validate_archive_Ok in Hv as (Hn & _ & _ & es & Ha).
    pose proof (restore_check_disk_space_state w sa) as Hsb.
    rewrite Hc in Hsb. simpl in Hsb. subst sb.
    destruct (extract_entries_interrupted w c es sa s2 Ha He) as (h & Hh & Hn2).
    unfold try_finally, try_except in *. rewrite He in *. simpl in *.
    unfold Restore.close_if_open, bind, get in *. simpl in *.
    rewrite Hh in *.
    unfold Restore.close_handle, Restore.set_open_handles, Restore.emit,
      bind, modify in *. simpl in *.
    eexists. split; [reflexivity|]. simpl.
    rewrite Hn2, Hn. simpl.
    split; [reflexivity|]. split; [|split; [reflexivity | exact Hnr]].
    apply in_or_app. right. now left.
Qed.

Lemma cancellation_witness :
  (exists final,
      Backup.run Samples.interrupted_world Samples.plain_backup
      = (Raise KeyboardInterrupt, final)
      /\ Backup.backup_file final = None
      /\ Backup.archive final = None
      /\ Backup.stats final
         = Backup.mkStats 3 1 27 9 0 0)
  /\ (exists final,
         Restore.run Samples.interrupted_restore Samples.no_password
         = (Raise KeyboardInterrupt, final)
         /\ Restore.open_handles final = 0%nat
         /\ In Restore.Closed (Restore.log final)
         /\ Restore.target final
            = <["two.txt" := [x32]]> (<["one.txt" := [x31; x31]]> ∅)
         /\ RestoreInv.nothing_removed Samples.interrupted_restore final).
Proof.
  destruct cancellation as (Hb & _ & Hr). split.
  - apply (Hb Samples.interrupted_world Samples.plain_backup
             (snd (Backup.prepare Samples.interrupted_world
                     (Backup.initial Samples.interrupted_world)))
             (snd (Backup.write_archive Samples.interrupted_world
                     Samples.plain_backup
                     (snd (Backup.prepare Samples.interrupted_world
                             (Backup.initial Samples.interrupted_world))))));
      vm_compute; reflexivity.
  - apply (Hr Samples.interrupted_restore Samples.no_password
             (snd (Restore.validate_archive Samples.interrupted_restore
                     Samples.no_password
                     (Restore.initial Samples.interrupted_restore)))
             (snd (Restore.validate_archive Samples.interrupted_restore
                     Samples.no_password
                     (Restore.initial Samples.interrupted_restore)))
             (snd (Restore.extract_entries Samples.interrupted_restore
                     Samples.no_password
                     (snd (Restore.validate_archive Samples.interrupted_restore
                             Samples.no_password
                             (Restore.initial Samples.interrupted_restore))))));
      vm_compute; reflexivity.
Defined.

(** the deletion is best effort: on a file system that refuses it, the
    interrupted archive stays where it was being written *)
Example interrupted_archive_stays_when_unlink_fails :
  fst (Backup.run Samples.interrupted_undeletable_world Samples.plain_backup)
  = Raise KeyboardInterrupt
  /\ Backup.backup_file
       (snd (Backup.run Samples.interrupted_undeletable_world
               Samples.plain_backup))
     <> None.
Proof. split; [vm_compute; reflexivity | vm_compute; discriminate]. Qed.

(** ** The monad: running a computation forwards *)

Section MonadForward.
Context {S : Type}.

Lemma bind_run {A B} (m : M S A) (k : A -> M S B) s a s1 r :
  m s = (Ok a, s1) -> k a s1 = r -> bind m k s = r.
Proof. intros Hm Hk. unfold bind. now rewrite Hm. Qed.

Lemma try_except_run {A} (m : M S A) h s a s1 :
  m s = (Ok a, s1) -> try_except m h s = (Ok a, s1).
Proof. intros Hm. unfold try_except. now rewrite Hm. Qed.

Lemma try_finally_run {A} (m : M S A) f s r s1 s2 :
  m s = (r, s1) -> f s1 = (Ok tt, s2) -> try_finally m f s = (r, s2).
Proof. intros Hm Hf. unfold try_finally. now rewrite Hm, Hf. Qed.

(** [m] ends normally from [s], with a result and a state that satisfy [Q] *)
Definition ends {A} (m : M S A) (s : S) (Q : A -> S -> Prop) : Prop :=
  exists a s', m s = (Ok a, s') /\ Q a s'.

Lemma ends_ret {A} (a : A) s (Q : A -> S -> Prop) : Q a s -> ends (ret a) s Q.
Proof. intros H. now exists a, s. Qed.

Lemma ends_bind {A B} (m : M S A) (k : A -> M S B) s (Q : B -> S -> Prop) :
  ends m s (fun a s1 => ends (k a) s1 Q) -> ends (bind m k) s Q.
Proof.
  intros (a & s1 & Hm & b & s2 & Hk & HQ). exists b, s2.
  split; [|exact HQ]. unfold bind. now rewrite Hm.
Qed.

Lemma ends_get {A} (k : S -> M S A) s (Q : A -> S -> Prop) :
  ends (k s) s Q -> ends (bind get k) s Q.
Proof. intros H. exact H. Qed.

Lemma ends_modify (f : S -> S) s (Q : unit -> S -> Prop) :
  Q tt (f s) -> ends (modify f) s Q.
Proof. intros H. now exists tt, (f s). Qed.

Lemma ends_lift {A} (r : result A) a s (Q : A -> S -> Prop) :
  r = Ok a -> Q a s -> ends (lift r) s Q.
Proof. intros -> H. now exists a, s. Qed.

Lemma ends_lift_raises o s (Q : unit -> S -> Prop) :
  o = None -> Q tt s -> ends (lift_raises o) s Q.
Proof. intros -> H. now exists tt, s. Qed.

Lemma ends_try_except {A} (m : M S A) h s (Q : A -> S -> Prop) :
  ends m s Q -> ends (try_except m h) s Q.
Proof.
  intros (a & s1 & Hm & HQ). exists a, s1. split; [|exact HQ].
  now apply try_except_run.
Qed.

Lemma ends_try_finally {A} (m : M S A) f s (Q : A -> S -> Prop) :
  ends m s (fun a s1 => ends f s1 (fun _ s2 => Q a s2)) ->
  ends (try_finally m f) s Q.
Proof.
  intros (a & s1 & Hm & [] & s2 & Hf & HQ). exists a, s2.
  split; [|exact HQ]. now apply (try_finally_run m f s (Ok a) s1 s2).
Qed.

Lemma ends_weaken {A} (m : M S A) s (Q Q' : A -> S -> Prop) :
  ends m s Q -> (forall a s', Q a s' -> Q' a s') -> ends m s Q'.
Proof. intros (a & s1 & Hm & HQ) H. exists a, s1. auto. Qed.

End MonadForward.

(** ** C1: a backup followed by a restore *)

Section BackupForward.
Import Backup BackupInv RoundTrip.

Lemma dict_keys_set_fresh {V} k (v : V) d :
  ~ In k (Dict.keys d) -> Dict.keys (Dict.set k v d) = Dict.keys d ++ [k].
Proof.
  unfold Dict.keys.
  induction d as [|[k0 v0] d IH]; simpl; intros H; [reflexivity|].
  destruct (String.eqb k k0) eqn:E.
  - apply String.eqb_eq in E. subst. exfalso. apply H. now left.
  - simpl. f_equal. apply IH. intros Hin. apply H. now right.
Qed.

(** the scan of a calm directory caches every regular file, in order *)
Lemma scan_calm w l s :
  (forall p, In p l -> is_file w p = true -> exists n, st_size w p = Ok n) ->
  NoDup (Dict.keys (_file_sizes s) ++ List.filter (is_file w) l) ->
  exists s',
    for_each l (scan_file w) s = (Ok tt, s')
    /\ archive s' = archive s /\ backup_file s' = backup_file s
    /\ Dict.keys (_file_sizes s')
       = Dict.keys (_file_sizes s) ++ List.filter (is_file w) l.
Proof.
  revert s. induction l as [|p l IH]; intros s Hst Hnd; simpl.
  - exists s. rewrite app_nil_r. auto.
  - unfold bind at 1. unfold scan_file at 1.
    simpl in Hnd. destruct (is_file w p) eqn:Hf; simpl.
    + destruct (Hst p (or_introl eq_refl) Hf) as [n Hn].
      unfold try_except, bind, lift. rewrite Hn. simpl.
      assert (Hfresh : ~ In p (Dict.keys (_file_sizes s))).
      { apply NoDup_app in Hnd as (_ & Hdis & _).
        intros Hin. apply (Hdis p); [now apply list_elem_of_In|].
        apply list_elem_of_In. now left. }
      match goal with |- context [for_each l _ ?s1] =>
        destruct (IH s1) as (s' & Hrun & Ha & Hb & Hk) end.
      * intros q Hq. apply Hst. now right.
      * simpl. rewrite dict_keys_set_fresh by exact Hfresh.
        rewrite <- app_assoc. exact Hnd.
      * exists s'. simpl in *. rewrite Hrun, Ha, Hb, Hk.
        rewrite dict_keys_set_fresh by exact Hfresh.
        rewrite <- app_assoc. auto.
    + destruct (IH s) as (s' & Hrun & Ha & Hb & Hk).
      * intros q Hq. apply Hst. now right.
      * exact Hnd.
      * exists s'. unfold ret. auto.
Qed.

Lemma prepare_calm w c :
  calm_backup w c ->
  exists s1,
    prepare w (initial w) = (Ok tt, s1)
    /\ archive s1 = None /\ backup_file s1 = backup_path_before w
    /\ Dict.keys (_file_sizes s1) = files w.
Proof.
  intros [[He Hd] Ht Hnd _ Hst _ _ _ Hsp _].
  destruct (scan_calm w (rglob w) (initial w)) as (s1 & Hrun & Ha & Hb & Hk).
  { intros p Hp Hf. apply Hst. unfold files. apply filter_In. auto. }
  { exact Hnd. }
  assert (Hcalc : calculate_total_size w (initial w) = (Ok tt, s1)).
  { unfold calculate_total_size. rewrite He. simpl.
    unfold try_except, bind. rewrite Hrun, Ht. reflexivity. }
  rewrite Hcalc in Hsp. simpl in Hsp.
  exists s1. split; [|auto].
  unfold prepare, try_except, bind, validate_source. rewrite He, Hd. simpl.
  rewrite Hcalc.
  pose proof (check_disk_space_state w s1) as Hs.
  destruct (check_disk_space w s1) as [r s']. simpl in *. now subst.
Qed.

(** a calm writer never refuses an entry *)
Lemma writestr_calm w c arcname file_data :
  calm_backup w c ->
  Zip.writestr (writer w c) arcname file_data
  = Ok (Zip.mkEntry arcname file_data (N.of_nat (length file_data))
                    (encryption_of w c)).
Proof.
  intros H. destruct (calm_password w c H) as [Hp|Hp];
    unfold Zip.writestr, encryption_of, writer, _get_zip_class;
    rewrite ?Hp; simpl.
  - reflexivity.
  - destruct (password c) as [p|]; [|discriminate]. simpl.
    destruct (pyzipper_installed w); reflexivity.
Qed.

(** a file whose reading and writing nothing disturbs is processed *)
Lemma _add_file_to_archive_calm w file_path arcname file_size h es content
    entry s :
  Dict.get file_path (_file_sizes s) = Some file_size ->
  archive s = Some h ->
  backup_file s = Some (Zip.Container es) ->
  open_rb w file_path = Ok content ->
  Zip.writestr h arcname content = Ok entry ->
  writestr_raises w arcname = None ->
  _add_file_to_archive w file_path arcname s
  = (Ok true, processed arcname file_size entry es s).
Proof.
  intros Hget Ha Hb Ho Hw Hr.
  unfold _add_file_to_archive, archive_writestr.
  unfold try_except, bind, get, lift, lift_raises, update_stats,
    emit, set_backup_file, modify, ret, raise.
  simpl. rewrite Hget, read_either_way, Ho, Ha, Hb, Hw, Hr. simpl.
  unfold processed. rewrite <- !app_assoc. reflexivity.
Qed.

Lemma archive_loop_calm w c l :
  calm_backup w c ->
  (forall p, In p l -> In p (files w)) ->
  forall s es,
    archive s = Some (writer w c) ->
    backup_file s = Some (Zip.Container es) ->
    (forall p, In p l -> is_Some (Dict.get p (_file_sizes s))) ->
    exists s',
      for_each l (archive_file w c) s = (Ok tt, s')
      /\ archive s' = Some (writer w c)
      /\ backup_file s' = Some (Zip.Container (es ++ map (entry_of w c) l)).
Proof.
  intros Hcalm. induction l as [|p l IH]; intros Hin s es Ha Hb Hget; simpl.
  - exists s. rewrite app_nil_r. auto.
  - destruct (Hget p (or_introl eq_refl)) as [sz Hsz].
    destruct (calm_read w c Hcalm p (Hin p (or_introl eq_refl)))
      as [content Hcontent].
    pose proof (_add_file_to_archive_calm w p p sz (writer w c) es content
                  _ s Hsz Ha Hb Hcontent (writestr_calm w c p content Hcalm)
                  (calm_write w c Hcalm p)) as Hadd.
    unfold bind at 1. unfold archive_file at 1. unfold bind at 1.
    rewrite Hadd. unfold bind at 1, get at 1.
    set (mid := processed p sz _ es s).
    assert (Hturn : exists s1,
               when (processed_files (stats mid) mod PROGRESS_UPDATE_INTERVAL
                     =? 0) (report c) mid = (Ok tt, s1)
               /\ archive s1 = archive mid
               /\ backup_file s1 = backup_file mid
               /\ _file_sizes s1 = _file_sizes mid).
    { unfold when, report. destruct (_ =? 0); [|eexists; split; [reflexivity|auto]].
      destruct (progress_callback c); eexists; (split; [reflexivity|auto]). }
    destruct Hturn as (s1 & Hrun & Ha1 & Hb1 & Hd1). rewrite Hrun.
    destruct (IH (fun q Hq => Hin q (or_intror Hq)) s1
                (es ++ [entry_of w c p])) as (s' & Hloop & Ha' & Hb').
    + now rewrite Ha1.
    + rewrite Hb1. unfold mid, processed, entry_of, content_of. simpl.
      now rewrite Hcontent.
    + intros q Hq. rewrite Hd1. apply Hget. now right.
    + exists s'. rewrite Hloop, Ha', Hb', <- app_assoc. auto.
Qed.

(** [report] changes nothing but the log *)
Lemma report_run c s :
  exists s',
    report c s = (Ok tt, s')
    /\ archive s' = archive s /\ backup_file s' = backup_file s
    /\ _file_sizes s' = _file_sizes s.
Proof.
  unfold report. destruct (progress_callback c);
    eexists; (split; [reflexivity|auto]).
Qed.

Lemma write_entries_calm w c s :
  calm_backup w c ->
  archive s = Some (writer w c) ->
  backup_file s = Some (Zip.Container []) ->
  Dict.keys (_file_sizes s) = files w ->
  exists s',
    write_entries w c s = (Ok tt, s')
    /\ backup_file s' = Some (Zip.Container (map (entry_of w c) (files w))).
Proof.
  intros Hcalm Ha Hb Hk. unfold write_entries.
  destruct (report_run c s) as (s1 & Hr1 & Ha1 & Hb1 & Hd1).
  destruct (archive_loop_calm w c (files w) Hcalm (fun p H => H) s1 [])
    as (s2 & Hloop & Ha2 & Hb2).
  { now rewrite Ha1. }
  { now rewrite Hb1. }
  { intros p Hp. rewrite Hd1. apply dict_get_key. rewrite Hk.
    now apply list_elem_of_In. }
  destruct (report_run c s2) as (s3 & Hr3 & Ha3 & Hb3 & Hd3).
  assert (Hwhen : exists s3',
             when (negb (processed_files (stats s2)
                         mod PROGRESS_UPDATE_INTERVAL =? 0)) (report c) s2
             = (Ok tt, s3') /\ backup_file s3' = backup_file s2).
  { unfold when. destruct (negb _); [now exists s3 | now exists s2]. }
  destruct Hwhen as (s3' & Hw & Hb3').
  eexists. split.
  - eapply bind_run; [exact Hr1|].
    eapply bind_run; [reflexivity|].
    eapply bind_run.
    { apply try_except_run. rewrite Hd1, Hk. exact Hloop. }
    eapply bind_run; [reflexivity|].
    eapply bind_run; [exact Hw|].
    eapply bind_run; [reflexivity|].
    rewrite Hb3', Hb2. reflexivity.
  - simpl. now rewrite Hb3', Hb2.
Qed.

(** a calm backup ends normally, with one entry for each regular file *)
Lemma backup_run_calm w c :
  calm_backup w c ->
  exists final,
    run w c = (Ok tt, final)
    /\ backup_file final
       = Some (Zip.Container (map (entry_of w c) (files w))).
Proof.
  intros Hcalm.
  destruct (prepare_calm w c Hcalm) as (s1 & Hprep & Ha1 & Hb1 & Hk1).
  set (s2 := mkState (stats s1) (_file_sizes s1) (Some (writer w c))
                     (Some (Zip.Container [])) (log s1 ++ [Opened])).
  assert (Hcreate : manager_create_archive w c s1 = (Ok tt, s2)).
  { unfold s2, writer, manager_create_archive.
    destruct (_get_zip_class w _) as [zip_class use_password].
    rewrite (calm_parent w c Hcalm). reflexivity. }
  destruct (write_entries_calm w c s2 Hcalm eq_refl eq_refl Hk1)
    as (s3 & Hwrite & Hb3).
  eexists. split.
  - unfold run, create_archive.
    eapply bind_run; [exact Hprep|].
    unfold write_phase. apply try_except_run.
    unfold write_archive.
    eapply bind_run; [exact Hcreate|].
    eapply try_finally_run; [exact Hwrite|]. reflexivity.
  - simpl. exact Hb3.
Qed.
End BackupForward.

Section RestoreForward.
Import Restore RestoreInv RoundTrip.

(** with NoDup names, [getinfo] finds each entry under its own name *)
Lemma getinfo_in_NoDup es e :
  NoDup (map Zip.filename es) -> In e es ->
  Zip.getinfo_in (Zip.filename e) es = Some e.
Proof.
  induction es as [|e0 es IH]; simpl; [easy|].
  intros Hnd [->|Hin]; apply NoDup_cons in Hnd as [Hfresh Hnd].
  - destruct (Zip.getinfo_in (Zip.filename e) es) as [e'|] eqn:E.
    + apply getinfo_in_Some in E as [Hname Hin]. exfalso. apply Hfresh.
      apply list_elem_of_In. rewrite <- Hname. now apply in_map.
    + now rewrite String.eqb_refl.
  - now rewrite (IH Hnd Hin).
Qed.

(** the password [read] uses when the handle holds the caller's password and
    the caller passes that password or none *)
Lemma password_in_force (pw p : option bytes) :
  p = None \/ p = pw ->
  (if truthy p then p else if truthy pw then pw else None)
  = (if truthy pw then pw else None).
Proof. intros [->| ->]; [reflexivity|]. now destruct (truthy pw). Qed.

Lemma read_opened b es pw name p :
  (forall e, In e es ->
             Zip.decrypt b e (if truthy pw then pw else None) = Ok (Zip.data e)) ->
  In name (map Zip.filename es) ->
  p = None \/ p = pw ->
  exists e,
    Zip.getinfo_in name es = Some e
    /\ Zip.read (Zip.mkHandle b es (if truthy pw then pw else None)) name p
       = Ok (Zip.data e).
Proof.
  intros Hread Hin Hp.
  destruct (getinfo_in_listed name es Hin) as [e He]. exists e.
  split; [exact He|]. unfold Zip.read, Zip.getinfo. simpl. rewrite He.
  rewrite (password_in_force pw p Hp). apply Hread.
  now apply getinfo_in_Some in He as [_ ?].
Qed.

Lemma testzip_in_readable h names :
  (forall n, In n names -> exists content, Zip.read h n None = Ok content) ->
  Zip.testzip_in h names = Ok tt.
Proof.
  induction names as [|n names IH]; simpl; intros H; [reflexivity|].
  destruct (H n (or_introl eq_refl)) as [content ->].
  apply IH. intros m Hm. apply H. now right.
Qed.

Lemma ends_emit e s (Q : unit -> State -> Prop) :
  (forall s', same_files s s' -> Q tt s') -> ends (emit e) s Q.
Proof. intros H. apply ends_modify, H. now split. Qed.

Lemma ends_update_stats f s (Q : unit -> State -> Prop) :
  (forall s', same_files s s' -> Q tt s') -> ends (update_stats f) s Q.
Proof. intros H. apply ends_modify, H. now split. Qed.

Lemma ends_report c s (Q : unit -> State -> Prop) :
  (forall s', same_files s s' -> Q tt s') -> ends (report c) s Q.
Proof.
  intros H. unfold report. destruct (progress_callback c).
  - apply ends_get, ends_emit, H.
  - apply ends_ret, H. now split.
Qed.

Lemma ends_close_handle s (Q : unit -> State -> Prop) :
  (forall s', same_files s s' -> Q tt s') -> ends close_handle s Q.
Proof.
  intros H. unfold close_handle. apply ends_bind, ends_modify.
  apply ends_emit. intros s' Hs. apply H. exact Hs.
Qed.

(** an archive whose entries are all stored plainly, or all encrypted with
    the password at hand while [pyzipper] is there, opens *)
Lemma ends_open_archive w pw es enc s (Q : Zip.Handle -> State -> Prop) :
  archive_file w = Some (Zip.Container es) ->
  (forall e, In e es -> Zip.encryption e = enc) ->
  enc = Zip.Plain
  \/ (exists k, enc = Zip.WZ_AES k /\ pw = Some k /\ truthy pw = true
                /\ pyzipper_installed w = true) ->
  (forall b s',
      same_files s s' ->
      (forall e, In e es ->
                 Zip.decrypt b e (if truthy pw then pw else None)
                 = Ok (Zip.data e)) ->
      Q (Zip.mkHandle b es (if truthy pw then pw else None)) s') ->
  ends (open_archive w pw) s Q.
Proof.
  intros Harch Henc Hcase HQ.
  unfold ends, open_archive, open_handle. rewrite Harch.
  unfold try_except, bind, lift, set_open_handles, emit, modify, ret,
    Zip.open_read.
  destruct Hcase as [->|(k & -> & -> & Ht & Hpz)].
  - assert (Hplain : forall e, In e es ->
               Zip.decrypt Zip.ZipFile e (if truthy pw then pw else None)
               = Ok (Zip.data e)).
    { intros e He. unfold Zip.decrypt. now rewrite (Henc e He). }
    assert (Hh : (if truthy pw
                  then Zip.setpassword pw (Zip.mkHandle Zip.ZipFile es None)
                  else Zip.mkHandle Zip.ZipFile es None)
                 = Zip.mkHandle Zip.ZipFile es (if truthy pw then pw else None)).
    { unfold Zip.setpassword. simpl. now destruct (truthy pw). }
    rewrite Hh. unfold Zip.namelist. simpl Zip.entries.
    destruct es as [|e0 es'].
    + simpl. eexists _, _. split; [reflexivity|]. apply HQ; [now split|easy].
    + cbn [Zip.entries map].
      destruct (read_opened Zip.ZipFile (e0 :: es') pw (Zip.filename e0) pw
                  Hplain) as (e & _ & Hr); [now left | now right |].
      rewrite Hr. eexists _, _. split; [reflexivity|].
      apply HQ; [now split|exact Hplain].
  - assert (Haes : forall e, In e es ->
               Zip.decrypt Zip.AESZipFile e (Some k) = Ok (Zip.data e)).
    { intros e He. unfold Zip.decrypt, Zip.bytes_eqb. rewrite (Henc e He).
      now rewrite bool_decide_eq_true_2. }
    rewrite Ht in *. unfold Zip.setpassword, Zip.namelist. rewrite Ht.
    simpl Zip.entries. simpl Zip.backend.
    destruct es as [|e0 es'].
    + simpl. eexists _, _. split; [reflexivity|]. apply HQ; [now split|easy].
    + cbn [Zip.entries Zip.backend map].
      assert (Hstd : Zip.read (Zip.mkHandle Zip.ZipFile (e0 :: es') (Some k))
                       (Zip.filename e0) (Some k)
                     = Raise (NotImplementedError Zip.msg_unsupported)).
      { unfold Zip.read, Zip.getinfo. simpl Zip.entries.
        destruct (getinfo_in_listed (Zip.filename e0) (e0 :: es')) as [e He].
        { now left. }
        rewrite He, Ht. unfold Zip.decrypt.
        apply getinfo_in_Some in He as [_ He]. now rewrite (Henc e He). }
      rewrite Hstd. simpl. rewrite Hpz. cbn [negb Zip.entries Zip.backend map].
      pose proof (read_opened Zip.AESZipFile (e0 :: es') (Some k)
                    (Zip.filename e0) None) as Hr.
      rewrite Ht in Hr.
      destruct Hr as (e & _ & Hr); [exact Haes | now left | now left |].
      rewrite Hr. eexists _, _. split; [reflexivity|].
      apply HQ; [now split|exact Haes].
Qed.

Lemma same_files_trans s1 s2 s3 :
  same_files s1 s2 -> same_files s2 s3 -> same_files s1 s3.
Proof. intros [Ha Ht] [Ha' Ht']. split; congruence. Qed.

Lemma ends_validate_archive w c es enc s (Q : unit -> State -> Prop) :
  archive_file w = Some (Zip.Container es) ->
  archive_is_file w = true ->
  (forall e, In e es -> Zip.encryption e = enc) ->
  enc = Zip.Plain
  \/ (exists k, enc = Zip.WZ_AES k /\ password c = Some k
                /\ truthy (password c) = true
                /\ pyzipper_installed w = true) ->
  (forall s', same_files s s' -> Q tt s') ->
  ends (validate_archive w c) s Q.
Proof.
  intros Harch Hfile Henc Hcase HQ.
  unfold validate_archive. rewrite Harch, Hfile. simpl.
  apply ends_try_except, ends_bind.
  apply (ends_open_archive w (password c) es enc s _ Harch Henc Hcase).
  intros b s1 Hs1 Hread.
  apply ends_try_finally.
  apply (ends_lift _ tt).
  - apply testzip_in_readable. intros n Hn.
    destruct (read_opened b es (password c) n None Hread Hn (or_introl eq_refl))
      as (e & _ & Hr).
    eauto.
  - apply ends_close_handle. intros s2 Hs2. apply HQ.
    eapply same_files_trans; eassumption.
Qed.

Lemma ends_count_size l s (Q : unit -> State -> Prop) :
  (forall s', same_files s s' -> Q tt s') ->
  ends (for_each l count_size) s Q.
Proof.
  revert s Q. induction l as [|file_info l IH]; intros s Q HQ; simpl.
  - apply ends_ret, HQ. now split.
  - apply ends_bind. unfold count_size.
    destruct (Zip.is_dir file_info).
    + apply ends_ret, IH, HQ.
    + apply ends_update_stats. intros s1 Hs1. apply IH. intros s2 Hs2.
      apply HQ. eapply same_files_trans; eassumption.
Qed.

Lemma files_of_cons e l (t : gmap string bytes) :
  ~ In (Zip.filename e) (map Zip.filename l) ->
  files_of l ∪ <[Zip.filename e := Zip.data e]> t = files_of (e :: l) ∪ t.
Proof.
  intros Hfresh. unfold files_of. simpl.
  rewrite <- insert_union_l. symmetry. apply insert_union_r.
  apply not_elem_of_list_to_map_1.
  rewrite <- list_fmap_compose. intros Hin. apply Hfresh.
  apply list_elem_of_In. exact Hin.
Qed.

(** a calm extraction loop writes every entry *)
Lemma ends_extract_loop w c b es l :
  (forall n, mkdir_raises w n = None) ->
  (forall n, write_outcome w n = Written) ->
  (forall e, In e es ->
             Zip.decrypt b e (if truthy (password c) then password c else None)
             = Ok (Zip.data e)) ->
  NoDup (map Zip.filename es) ->
  (forall e, In e es -> Zip.is_dir e = false) ->
  (forall e, In e l -> In e es) ->
  NoDup (map Zip.filename l) ->
  forall s (Q : unit -> State -> Prop),
    (forall s', archive s' = archive s ->
                target s' = files_of l ∪ target s -> Q tt s') ->
    ends (for_each (map Zip.filename l)
            (extract_file w c
               (Zip.mkHandle b es
                  (if truthy (password c) then password c else None)))) s Q.
Proof.
  intros Hmk Hcp Hread Hnd Hdir.
  induction l as [|e l IH]; intros Hin Hndl s Q HQ; simpl.
  - apply ends_ret, HQ; [reflexivity|].
    unfold files_of. simpl. now rewrite (left_id ∅ (∪)).
  - apply NoDup_cons in Hndl as [Hfresh Hndl].
    assert (He : In e es) by (apply Hin; now left).
    apply ends_bind. unfold extract_file, Zip.getinfo. simpl Zip.entries.
    rewrite (getinfo_in_NoDup es e Hnd He), (Hdir e He).
    apply ends_try_except, ends_bind.
    apply ends_lift_raises; [apply Hmk|].
    apply ends_bind.
    destruct (read_opened b es (password c) (Zip.filename e) (password c) Hread)
      as (e' & He' & Hr); [now apply in_map | now right |].
    rewrite (getinfo_in_NoDup es e Hnd He) in He'. injection He' as <-.
    apply (ends_lift _ (Zip.data e)); [exact Hr|].
    apply ends_bind. unfold copy_entry. rewrite Hcp.
    apply ends_modify.
    apply ends_bind, ends_update_stats. intros s1 [Ha1 Ht1].
    simpl in Ha1, Ht1.
    apply ends_bind, ends_update_stats. intros s2 [Ha2 Ht2].
    apply ends_get.
    assert (Hrest : forall s3, same_files s2 s3 ->
              ends (for_each (map Zip.filename l)
                      (extract_file w c
                         (Zip.mkHandle b es
                            (if truthy (password c) then password c
                             else None)))) s3 Q).
    { intros s3 [Ha3 Ht3]. apply IH.
      - intros e1 He1. apply Hin. now right.
      - exact Hndl.
      - intros s' Ha' Ht'. apply HQ; [congruence|].
        rewrite Ht', Ht3, Ht2, Ht1.
        apply files_of_cons. intros H. apply Hfresh.
        now apply list_elem_of_In. }
    unfold when. destruct (_ || _).
    + apply ends_report, Hrest.
    + apply ends_ret, Hrest. now split.
Qed.

(** a restore that nothing disturbs ends normally, with one file for each
    entry on top of what the target directory held *)
Lemma restore_run_onto w c es enc :
  undisturbed w ->
  archive_file w = Some (Zip.Container es) ->
  (forall e, In e es -> Zip.encryption e = enc) ->
  enc = Zip.Plain
  \/ (exists k, enc = Zip.WZ_AES k /\ password c = Some k
                /\ truthy (password c) = true
                /\ pyzipper_installed w = true) ->
  NoDup (map Zip.filename es) ->
  (forall e, In e es -> Zip.is_dir e = false) ->
  exists final,
    run w c = (Ok tt, final)
    /\ target final = files_of es ∪ target_before w.
Proof.
  intros Hcalm Harch Henc Hcase Hnd Hdir.
  cut (ends (extract_archive w c) (initial w)
         (fun _ s' => target s' = files_of es ∪ target_before w)).
  { intros ([] & final & Hrun & Ht). now exists final. }
  unfold extract_archive.
  apply ends_bind.
  apply (ends_validate_archive w c es enc _ _ Harch
           (undisturbed_is_file w Hcalm) Henc Hcase).
  intros s1 [Ha1 Ht1]. apply ends_bind.
  assert (Hspace : check_disk_space w s1 = (Ok tt, s1)).
  { unfold check_disk_space. rewrite Harch.
    destruct (undisturbed_room w Hcalm) as [Hd|Hroom]; [now rewrite Hd|].
    destruct (target_drive_exists w); [|reflexivity]. simpl.
    destruct (Z.ltb_spec (Z.of_N (free_space w))
                (Z.of_N (archive_st_size w) * 2)); [lia|reflexivity]. }
  exists tt, s1. split; [exact Hspace|].
  apply ends_bind, ends_lift_raises; [apply (undisturbed_target w Hcalm)|].
  apply ends_bind, ends_try_finally, ends_try_except.
  unfold extract_entries. apply ends_bind.
  apply (ends_open_archive w (password c) es enc s1 _ Harch Henc Hcase).
  intros b s2 [Ha2 Ht2] Hread.
  apply ends_bind, ends_modify.
  apply ends_bind, ends_update_stats. intros s3 [Ha3 Ht3].
  apply ends_bind, ends_count_size. intros s4 [Ha4 Ht4].
  apply ends_bind, ends_report. intros s5 [Ha5 Ht5].
  unfold Zip.namelist. simpl Zip.entries.
  apply (ends_extract_loop w c b es es (undisturbed_mkdir w Hcalm)
           (undisturbed_copy w Hcalm) Hread Hnd Hdir (fun e H => H) Hnd).
  intros s6 Ha6 Ht6.
  unfold close_if_open. apply ends_get.
  assert (Ht : target s6 = files_of es ∪ target_before w).
  { rewrite Ht6, Ht5, Ht4, Ht3. simpl. rewrite Ht2, Ht1. reflexivity. }
  assert (Ha : archive s6 <> None).
  { rewrite Ha6, Ha5, Ha4, Ha3. simpl. discriminate. }
  destruct (archive s6) as [h|]; [|congruence].
  apply ends_close_handle. intros s7 [_ Ht7].
  apply ends_report. intros s8 [_ Ht8]. congruence.
Qed.

(** a calm restore ends normally, with one file for each entry *)
Lemma restore_run_calm w c es enc :
  calm_restore w ->
  archive_file w = Some (Zip.Container es) ->
  (forall e, In e es -> Zip.encryption e = enc) ->
  enc = Zip.Plain
  \/ (exists k, enc = Zip.WZ_AES k /\ password c = Some k
                /\ truthy (password c) = true
                /\ pyzipper_installed w = true) ->
  NoDup (map Zip.filename es) ->
  (forall e, In e es -> Zip.is_dir e = false) ->
  exists final, run w c = (Ok tt, final) /\ target final = files_of es.
Proof.
  intros Hcalm Harch Henc Hcase Hnd Hdir.
  destruct (restore_run_onto w c es enc) as (final & Hrun & Ht); auto.
  { destruct Hcalm. now constructor. }
  exists final. split; [exact Hrun|].
  rewrite Ht, (calm_empty w Hcalm). apply (right_id ∅ (∪)).
Qed.
End RestoreForward.

(** C1.  Take a source directory whose traversal lists every regular file
    once and whose regular files can all be examined and read, and a backup
    that nothing disturbs: the space preflight passes, the archive can be
    created and written, a password, if there is one, is not empty.  Restore
    the file this backup leaves into an empty directory, with the same
    password, with [pyzipper] at hand if the backup encrypted with it, and
    again with nothing in the way: room on the drive, directories that can
    be made, files that can be written.  Then both runs end normally and the
    target directory holds exactly the regular files of the source, under
    the same relative paths and with the same bytes. *)
Theorem backup_then_restore w c rw rc :
  RoundTrip.calm_backup w c ->
  RoundTrip.calm_restore rw ->
  Restore.password rc = Backup.password c ->
  (Backup.pyzipper_installed w = true -> Backup.password c <> None ->
   Restore.pyzipper_installed rw = true) ->
  Restore.archive_file rw = Backup.backup_file (snd (Backup.run w c)) ->
  fst (Backup.run w c) = Ok tt
  /\ exists restored,
       Restore.run rw rc = (Ok tt, restored)
       /\ Restore.target restored = RoundTrip.directory w.
Proof.
  intros Hb Hr Hpw Hpz Harch.
  destruct (backup_run_calm w c Hb) as (final & Hrun & Hfile).
  rewrite Hrun in *. simpl in Harch. rewrite Hfile in Harch.
  split; [reflexivity|].
  destruct (restore_run_calm rw rc (map (RoundTrip.entry_of w c)
                                        (RoundTrip.files w))
              (RoundTrip.encryption_of w c) Hr Harch)
    as (restored & Hrestore & Htarget).
  - intros e He. apply in_map_iff in He as (p & <- & _). reflexivity.
  - rewrite Hpw.
    unfold RoundTrip.encryption_of, RoundTrip.writer, Backup._get_zip_class.
    destruct (RoundTrip.calm_password w c Hb) as [Hn|Ht];
      [rewrite Hn; now left|].
    rewrite Ht.
    destruct (Backup.password c) as [k|] eqn:Hk; [|discriminate].
    destruct (Backup.pyzipper_installed w) eqn:Hw; simpl; [|now left].
    right. exists k. repeat split. now apply Hpz.
  - rewrite map_map. simpl. rewrite map_id.
    apply (RoundTrip.calm_listing w c Hb).
  - intros e He. apply in_map_iff in He as (p & <- & Hp).
    apply (RoundTrip.calm_paths w c Hb p Hp).
  - exists restored. split; [exact Hrestore|].
    rewrite Htarget. unfold RoundTrip.files_of, RoundTrip.directory.
    now rewrite map_map.
Qed.

Lemma backup_then_restore_witness :
  fst (Backup.run Samples.tree_world Samples.protected_backup) = Ok tt
  /\ exists restored,
       Restore.run (Samples.calm_restore Samples.tree_archive)
                   Samples.right_password
       = (Ok tt, restored)
       /\ Restore.target restored
          = <["file1.txt" := Samples.content_1]>
              (<["subdir/file2.txt" := Samples.content_2]> ∅).
Proof.
  apply (backup_then_restore Samples.tree_world Samples.protected_backup
           (Samples.calm_restore Samples.tree_archive) Samples.right_password).
  - constructor.
    + split; reflexivity.
    + reflexivity.
    + vm_compute. repeat constructor; intros H; inversion H; subst;
        match goal with H' : _ ∈ _ |- _ => inversion H' end.
    + intros p H. vm_compute in H. destruct H as [<-|[<-|[]]]; reflexivity.
    + intros p _. exists 9%N. reflexivity.
    + intros p _. simpl. destruct (String.eqb p "file1.txt"); eauto.
    + reflexivity.
    + reflexivity.
    + vm_compute. reflexivity.
    + right. reflexivity.
  - constructor; simpl; try reflexivity. right. lia.
  - reflexivity.
  - reflexivity.
  - vm_compute. reflexivity.
Defined.

(** * Further properties of the code *)

(** ** FileProcessor: the chunk size *)

Section ChunkSize.
Import Backup.

End ChunkSize.


(** ** Backup: the source is validated first *)

(** X2.  A backup of a path that does not exist raises [FileNotFoundError], and a
    backup of a path that is not a directory raises [ValueError]; in both
    cases nothing has happened yet: no file was scanned, no archive was
    created, what was at the archive path is still there. *)
Theorem backup_rejects_bad_source w c :
  (Backup.source_exists w = false ->
   exists msg,
     Backup.run w c = (Raise (FileNotFoundError msg), Backup.initial w))
  /\ (Backup.source_exists w = true -> Backup.source_is_dir w = false ->
      exists msg,
        Backup.run w c = (Raise (ValueError msg), Backup.initial w)).
Proof.
  split.
  - intros He. eexists.
    unfold Backup.run, Backup.create_archive, Backup.prepare,
      Backup.validate_source, bind, try_except.
    rewrite He. reflexivity.
  - intros He Hd. eexists.
    unfold Backup.run, Backup.create_archive, Backup.prepare,
      Backup.validate_source, bind, try_except.
    rewrite He, Hd. reflexivity.
Qed.

Lemma backup_rejects_bad_source_witness :
  (exists msg,
      Backup.run Samples.no_source_world Samples.plain_backup
      = (Raise (FileNotFoundError msg),
         Backup.initial Samples.no_source_world))
  /\ (exists msg,
         Backup.run Samples.file_as_source_world Samples.plain_backup
         = (Raise (ValueError msg),
            Backup.initial Samples.file_as_source_world)).
Proof.
  split.
  - apply (proj1 (backup_rejects_bad_source Samples.no_source_world
                    Samples.plain_backup)).
    reflexivity.
  - apply (proj2 (backup_rejects_bad_source Samples.file_as_source_world
                    Samples.plain_backup)); reflexivity.
Defined.

(** ** Backup: what the scan caches *)

Section Scan.
Import Backup BackupInv.

Lemma cached_total_set_fresh k v d :
  ~ In k (Dict.keys d) ->
  cached_total (Dict.set k v d) = cached_total d + Z.of_N v.
Proof.
  unfold Dict.keys.
  induction d as [|[k0 v0] d IH]; simpl; intros H; [lia|].
  destruct (String.eqb k k0) eqn:E.
  - apply String.eqb_eq in E. subst. exfalso. apply H. now left.
  - simpl. rewrite IH; [lia|]. intros Hin. apply H. now right.
Qed.

(** one turn of the scan that ends normally *)
Lemma scan_file_Ok w p s s1 :
  scan_file w p s = (Ok tt, s1) ->
  if scannable w p
  then exists n,
      st_size w p = Ok n
      /\ _file_sizes s1 = Dict.set p n (_file_sizes s)
      /\ total_files (stats s1) = total_files (stats s) + 1
      /\ total_size (stats s1) = total_size (stats s) + Z.of_N n
  else s1 = s.
Proof.
  unfold scan_file, scannable.
  destruct (is_file w p); simpl.
  - unfold try_except, bind, lift.
    destruct (st_size w p) as [n|e]; simpl.
    + intros [= <-]. exists n. simpl. auto.
    + destruct (is_OSError e); [|discriminate].
      unfold ret. now intros [= <-].
  - unfold ret. now intros [= <-].
Qed.

(** what a scan that ends normally has done to the state it started from *)
Lemma scan_loop w l :
  forall s s',
    for_each l (scan_file w) s = (Ok tt, s') ->
    NoDup (Dict.keys (_file_sizes s) ++ List.filter (scannable w) l) ->
    Dict.keys (_file_sizes s')
    = Dict.keys (_file_sizes s) ++ List.filter (scannable w) l
    /\ total_files (stats s')
       = total_files (stats s)
         + Z.of_nat (length (List.filter (scannable w) l))
    /\ total_size (stats s') - cached_total (_file_sizes s')
       = total_size (stats s) - cached_total (_file_sizes s)
    /\ (forall p n, Dict.get p (_file_sizes s) = Some n ->
                    ~ In p (List.filter (scannable w) l) ->
                    Dict.get p (_file_sizes s') = Some n)
    /\ (forall p, In p (List.filter (scannable w) l) ->
                  exists n, st_size w p = Ok n
                            /\ Dict.get p (_file_sizes s') = Some n).
Proof.
  induction l as [|p l IH]; intros s s' H Hnd; simpl in *.
  - unfold ret in H. injection H as <-. rewrite app_nil_r.
    repeat split; auto; try lia; try easy.
  - apply bind_Ok in H as ([] & s1 & Hturn & Hrest).
    apply scan_file_Ok in Hturn.
    destruct (scannable w p) eqn:Hsc.
    + destruct Hturn as (n & Hst & Hd & Htf & Hts).
      assert (Hfresh : ~ In p (Dict.keys (_file_sizes s))).
      { apply NoDup_app in Hnd as (_ & Hdis & _).
        intros Hin. apply (Hdis p); [now apply list_elem_of_In|].
        apply list_elem_of_In. now left. }
      assert (Hfresh' : ~ In p (List.filter (scannable w) l)).
      { apply NoDup_app in Hnd as (_ & _ & Hnd).
        apply NoDup_cons in Hnd as [Hnotin _].
        intros Hin. apply Hnotin. now apply list_elem_of_In. }
      apply IH in Hrest.
      * destruct Hrest as (Hk & Htf' & Hts' & Hold & Hnew).
        rewrite Hd in Hk, Hts', Hold.
        rewrite dict_keys_set_fresh in Hk by exact Hfresh.
        rewrite <- app_assoc in Hk. simpl in Hk.
        rewrite cached_total_set_fresh in Hts' by exact Hfresh.
        split; [exact Hk|]. split; [simpl length; lia|]. split; [lia|].
        split.
        -- intros q m Hq Hnot. apply Hold.
           ++ rewrite dict_get_set.
              destruct (String.eqb q p) eqn:E; [|exact Hq].
              apply String.eqb_eq in E. subst q.
              exfalso. apply Hnot. now left.
           ++ intros Hin. apply Hnot. now right.
        -- intros q [<-|Hq]; [|now apply Hnew].
           exists n. split; [exact Hst|]. apply Hold; [|exact Hfresh'].
           rewrite dict_get_set. now rewrite String.eqb_refl.
      * rewrite Hd, dict_keys_set_fresh by exact Hfresh.
        rewrite <- app_assoc. exact Hnd.
    + subst s1. now apply IH.
Qed.

Lemma calculate_total_size_Ok w s s' :
  source_exists w = true ->
  calculate_total_size w s = (Ok tt, s') ->
  for_each (rglob w) (scan_file w) s = (Ok tt, s').
Proof.
  intros He H. unfold calculate_total_size in H. rewrite He in H. simpl in H.
  apply try_except_Ok in H; [|intros e k s1; apply keyboard_interrupt_raises].
  apply bind_Ok in H as ([] & s1 & Hloop & Hend).
  unfold lift_raises in Hend. destruct (rglob_raises w); [discriminate|].
  now injection Hend as <-.
Qed.

Lemma NoDup_filter_list {A} (f : A -> bool) (l : list A) :
  NoDup l -> NoDup (List.filter f l).
Proof.
  induction l as [|x l IH]; simpl; intros H; [constructor|].
  apply NoDup_cons in H as [Hx Hl].
  destruct (f x); [|now apply IH].
  apply NoDup_cons. split; [|now apply IH].
  intros Hin. apply Hx. apply list_elem_of_In.
  apply list_elem_of_In in Hin. now apply filter_In in Hin as [? _].
Qed.
End Scan.

Lemma scan_caches_files w s1 :
  Backup.source_exists w = true ->
  NoDup (Backup.rglob w) ->
  Backup.calculate_total_size w (Backup.initial w) = (Ok tt, s1) ->
  Dict.keys (Backup._file_sizes s1)
  = List.filter (BackupInv.scannable w) (Backup.rglob w)
  /\ (forall p, In p (Dict.keys (Backup._file_sizes s1)) ->
                exists n, Backup.st_size w p = Ok n
                          /\ Dict.get p (Backup._file_sizes s1) = Some n)
  /\ Backup.total_files (Backup.stats s1)
     = Z.of_nat (length (Dict.keys (Backup._file_sizes s1)))
  /\ Backup.total_size (Backup.stats s1)
     = BackupInv.cached_total (Backup._file_sizes s1).
Proof.
  intros He Hnd H.
  apply (calculate_total_size_Ok w _ _ He) in H.
  apply scan_loop in H; [|simpl; now apply NoDup_filter_list].
  simpl in H. destruct H as (Hk & Htf & Hts & _ & Hnew).
  rewrite Hk. repeat split; [exact Hnew | lia | lia].
Qed.

(** X3.  When the traversal of the source lists no path twice and the scan ends
    normally, the cache [_file_sizes] holds, in the order of the traversal,
    exactly the regular files whose [stat] succeeded, each with the size
    [stat] gave; a file whose [stat] raises [OSError] is left out without a
    trace.  [total_files] is the number of cached files and [total_size] the
    sum of the cached sizes. *)
Theorem scan_caches_the_regular_files w s1 :
  Backup.source_exists w = true ->
  NoDup (Backup.rglob w) ->
  Backup.calculate_total_size w (Backup.initial w) = (Ok tt, s1) ->
  Dict.keys (Backup._file_sizes s1)
  = List.filter (BackupInv.scannable w) (Backup.rglob w)
  /\ (forall p, In p (Dict.keys (Backup._file_sizes s1)) ->
                exists n, Backup.st_size w p = Ok n
                          /\ Dict.get p (Backup._file_sizes s1) = Some n)
  /\ Backup.total_files (Backup.stats s1)
     = Z.of_nat (length (Dict.keys (Backup._file_sizes s1)))
  /\ Backup.total_size (Backup.stats s1)
     = BackupInv.cached_total (Backup._file_sizes s1).
Proof.
  intros He Hnd H.
  apply (calculate_total_size_Ok w _ _ He) in H.
  apply scan_loop in H; [|simpl; now apply NoDup_filter_list].
  simpl in H. destruct H as (Hk & Htf & Hts & _ & Hnew).
  rewrite Hk. repeat split; [exact Hnew | lia | lia].
Qed.

Lemma scan_caches_the_regular_files_witness :
  Dict.keys (Backup._file_sizes
               (snd (Backup.calculate_total_size Samples.tree_world
                       (Backup.initial Samples.tree_world))))
  = ["file1.txt"; "subdir/file2.txt"]
  /\ Backup.total_files
       (Backup.stats
          (snd (Backup.calculate_total_size Samples.tree_world
                  (Backup.initial Samples.tree_world))))
     = 2.
Proof.
  destruct (scan_caches_the_regular_files Samples.tree_world
              (snd (Backup.calculate_total_size Samples.tree_world
                      (Backup.initial Samples.tree_world))))
    as (Hk & _ & Htf & _).
  - reflexivity.
  - vm_compute. repeat constructor; intros H; inversion H; subst;
      repeat match goal with H' : _ ∈ _ |- _ => inversion H'; subst; clear H' end.
  - vm_compute. reflexivity.
  - split; [exact Hk|]. rewrite Htf, Hk. reflexivity.
Defined.

(** ** Backup: what a run that ends normally has put into the archive *)

Section BackupContents.
Import Backup BackupInv.

Lemma writestr_Ok h arcname file_data entry :
  Zip.writestr h arcname file_data = Ok entry ->
  Zip.filename entry = arcname /\ Zip.data entry = file_data
  /\ Zip.file_size entry = N.of_nat (length file_data)
  /\ Zip.encryption entry
     = match Zip.w_backend h, Zip.w_aes h, Zip.w_pwd h with
       | Zip.AESZipFile, true, Some p => Zip.WZ_AES p
       | _, _, _ => Zip.Plain
       end.
Proof.
  unfold Zip.writestr.
  destruct (Zip.w_backend h), (Zip.w_aes h); try (intros [= <-]; now simpl).
  destruct (Zip.w_pwd h); [|discriminate]. intros [= <-]. now simpl.
Qed.

Lemma writestr_raises_no_OSError h arcname file_data e :
  Zip.writestr h arcname file_data = Raise e -> is_OSError e = false.
Proof.
  unfold Zip.writestr.
  destruct (Zip.w_backend h), (Zip.w_aes h); try discriminate.
  destruct (Zip.w_pwd h); [discriminate|]. now intros [= <-].
Qed.

(** what [_add_file_to_archive] does with a cached file while the archive
    is open *)
Lemma _add_file_to_archive_exact w file_path file_size h es s :
  Dict.get file_path (_file_sizes s) = Some file_size ->
  archive s = Some h ->
  backup_file s = Some (Zip.Container es) ->
  _add_file_to_archive w file_path file_path s
  = match open_rb w file_path with
    | Raise e => if is_OSError e then (Ok false, skipped s) else (Raise e, s)
    | Ok content =>
        match Zip.writestr h file_path content with
        | Raise e => (Raise e, s)
        | Ok entry =>
            match writestr_raises w file_path with
            | Some e =>
                if is_OSError e then (Ok false, skipped s) else (Raise e, s)
            | None => (Ok true, processed file_path file_size entry es s)
            end
        end
    end.
Proof.
  intros Hget Ha Hb.
  unfold _add_file_to_archive, archive_writestr.
  unfold try_except, bind, get, lift, lift_raises, update_stats,
    emit, set_backup_file, modify, ret, raise.
  simpl. rewrite Hget, read_either_way, Ha, Hb.
  destruct (open_rb w file_path) as [content|e]; simpl.
  - destruct (Zip.writestr h file_path content) as [entry|e] eqn:Hw; simpl.
    + destruct (writestr_raises w file_path) as [e|]; simpl.
      * destruct (is_OSError e); reflexivity.
      * unfold processed. rewrite <- !app_assoc. reflexivity.
    + now rewrite (writestr_raises_no_OSError _ _ _ _ Hw).
  - destruct (is_OSError e); reflexivity.
Qed.

(** the callback changes nothing but the log *)
Lemma when_report_Ok b c s s' :
  when b (report c) s = (Ok tt, s') ->
  stats s' = stats s /\ _file_sizes s' = _file_sizes s
  /\ archive s' = archive s /\ backup_file s' = backup_file s.
Proof.
  unfold when, report.
  destruct b; [|unfold ret; now intros [= <-]].
  destruct (progress_callback c); [|unfold ret; now intros [= <-]].
  unfold bind, get, emit, modify. now intros [= <-].
Qed.

(** one turn of the archiving loop that ends normally *)
Lemma archive_file_turn w c file_path file_size h es s s' :
  Dict.get file_path (_file_sizes s) = Some file_size ->
  archive s = Some h ->
  backup_file s = Some (Zip.Container es) ->
  archive_file w c file_path s = (Ok tt, s') ->
  _file_sizes s' = _file_sizes s /\ archive s' = Some h
  /\ total_files (stats s') = total_files (stats s)
  /\ if archivable w file_path
     then exists content entry,
         open_rb w file_path = Ok content
         /\ Zip.writestr h file_path content = Ok entry
         /\ backup_file s' = Some (Zip.Container (es ++ [entry]))
         /\ processed_files (stats s') = processed_files (stats s) + 1
         /\ skipped_files (stats s') = skipped_files (stats s)
         /\ processed_size (stats s')
            = processed_size (stats s) + Z.of_N file_size
     else backup_file s' = Some (Zip.Container es)
          /\ processed_files (stats s') = processed_files (stats s)
          /\ skipped_files (stats s') = skipped_files (stats s) + 1
          /\ processed_size (stats s') = processed_size (stats s).
Proof.
  intros Hget Ha Hb H. unfold archive_file in H.
  apply bind_Ok in H as (b & mid & Hadd & Hrep).
  apply get_Ok in Hrep. apply when_report_Ok in Hrep as (Hst & Hd & Har & Hbf).
  rewrite Hst, Hd, Har, Hbf.
  rewrite (_add_file_to_archive_exact w file_path file_size h es s Hget Ha Hb)
    in Hadd.
  unfold archivable.
  destruct (open_rb w file_path) as [content|e].
  - destruct (Zip.writestr h file_path content) as [entry|e] eqn:Hw;
      [|discriminate].
    destruct (writestr_raises w file_path) as [e|].
    + destruct (is_OSError e); [|discriminate].
      injection Hadd as <- <-. simpl. repeat split; auto.
    + injection Hadd as <- <-. simpl. rewrite Ha.
      repeat split; auto. exists content, entry. repeat split; auto.
  - destruct (is_OSError e); [|discriminate].
    injection Hadd as <- <-. simpl. repeat split; auto.
Qed.

(** the archiving loop, when it ends normally *)
Lemma archive_loop_contents w c h l :
  forall s s' es0,
    archive s = Some h ->
    backup_file s = Some (Zip.Container es0) ->
    (forall p, In p l -> is_Some (Dict.get p (_file_sizes s))) ->
    for_each l (archive_file w c) s = (Ok tt, s') ->
    exists es,
      backup_file s' = Some (Zip.Container (es0 ++ es))
      /\ map Zip.filename es = List.filter (archivable w) l
      /\ (forall e, In e es ->
            exists content,
              open_rb w (Zip.filename e) = Ok content
              /\ Zip.writestr h (Zip.filename e) content = Ok e)
      /\ processed_files (stats s')
         = processed_files (stats s) + Z.of_nat (length es)
      /\ processed_files (stats s') + skipped_files (stats s')
         = processed_files (stats s) + skipped_files (stats s)
           + Z.of_nat (length l)
      /\ _file_sizes s' = _file_sizes s
      /\ total_files (stats s') = total_files (stats s)
      /\ archive s' = Some h
      /\ processed_size (stats s')
         = processed_size (stats s)
           + planned (_file_sizes s) (List.filter (archivable w) l).
Proof.
  induction l as [|p l IH]; intros s s' es0 Ha Hb Hget H; simpl in H.
  - unfold ret in H. injection H as <-. exists [].
    rewrite app_nil_r. simpl. repeat split; auto; try lia; try easy.
  - apply bind_Ok in H as ([] & s1 & Hturn & Hrest).
    destruct (Hget p (or_introl eq_refl)) as [sz Hsz].
    apply (archive_file_turn w c p sz h es0 s s1 Hsz Ha Hb) in Hturn
      as (Hd & Har & Htf & Hcase).
    simpl. destruct (archivable w p).
    + destruct Hcase as (content & entry & Ho & Hw & Hbf & Hpf & Hsk & Hps).
      apply (IH s1 s' (es0 ++ [entry]) Har Hbf) in Hrest
        as (es & Hbf' & Hn & Hes & Hpf' & Hsum & Hd' & Htf' & Har' & Hps');
        [|intros q Hq; rewrite Hd; apply Hget; now right].
      exists (entry :: es).
      destruct (writestr_Ok _ _ _ _ Hw) as (Hname & _).
      rewrite <- app_assoc in Hbf'. simpl in Hbf'.
      split; [exact Hbf'|]. split; [simpl; now rewrite Hname, Hn|].
      split.
      { intros e [<-|He]; [|now apply Hes].
        exists content. now rewrite Hname. }
      rewrite Hd in Hps'. simpl planned. rewrite Hsz.
      simpl length. repeat split; try congruence; lia.
    + destruct Hcase as (Hbf & Hpf & Hsk & Hps).
      apply (IH s1 s' es0 Har Hbf) in Hrest
        as (es & Hbf' & Hn & Hes & Hpf' & Hsum & Hd' & Htf' & Har' & Hps');
        [|intros q Hq; rewrite Hd; apply Hget; now right].
      rewrite Hd in Hps'.
      exists es. simpl length. repeat split; auto; try congruence; lia.
Qed.

(** the archiving loop leaves [total_size] alone *)
Lemma archive_loop_total_size w c l s s' :
  for_each l (archive_file w c) s = (Ok tt, s') ->
  total_size (stats s') = total_size (stats s).
Proof.
  apply (for_each_Ok (fun t => total_size (stats t) = total_size (stats s)));
    [|reflexivity].
  intros x t t' _ Ht H. unfold archive_file in H.
  apply bind_Ok in H as (b & mid & Hadd & Hrep).
  apply get_Ok in Hrep. apply when_report_Ok in Hrep as (Hst & _).
  rewrite Hst, <- Ht.
  destruct (_add_file_to_archive_any w x x t) as [sz Hx].
  rewrite Hadd in Hx. inversion Hx; subst; reflexivity.
Qed.

Lemma prepare_Ok w s1 :
  prepare w (initial w) = (Ok tt, s1) ->
  source_exists w = true /\ source_is_dir w = true
  /\ calculate_total_size w (initial w) = (Ok tt, s1).
Proof.
  intros H. unfold prepare in H.
  apply try_except_Ok in H; [|intros e k s; apply keyboard_interrupt_raises].
  apply bind_Ok in H as ([] & sa & Hv & H).
  apply bind_Ok in H as ([] & sb & Hc & Hd).
  pose proof (validate_source_state w (initial w)) as Hsa.
  rewrite Hv in Hsa. simpl in Hsa. subst sa.
  pose proof (check_disk_space_state w sb) as Hsb.
  rewrite Hd in Hsb. simpl in Hsb. subst sb.
  unfold validate_source in Hv.
  destruct (source_exists w); [|discriminate].
  destruct (source_is_dir w); [|discriminate]. auto.
Qed.

(** a run that ends normally, taken apart *)
Lemma backup_run_Ok w c final :
  run w c = (Ok tt, final) ->
  exists s1 es,
    prepare w (initial w) = (Ok tt, s1)
    /\ _file_sizes final = _file_sizes s1
    /\ total_files (stats final) = total_files (stats s1)
    /\ archive final = None
    /\ backup_file final = Some (Zip.Container es)
    /\ map Zip.filename es
       = List.filter (archivable w) (Dict.keys (_file_sizes s1))
    /\ (forall e, In e es ->
          exists content,
            open_rb w (Zip.filename e) = Ok content
            /\ Zip.writestr (RoundTrip.writer w c) (Zip.filename e) content
               = Ok e)
    /\ processed_files (stats final) = Z.of_nat (length es)
    /\ processed_files (stats final) + skipped_files (stats final)
       = Z.of_nat (length (Dict.keys (_file_sizes s1)))
    /\ processed_size (stats final)
       = planned (_file_sizes s1)
           (List.filter (archivable w) (Dict.keys (_file_sizes s1)))
    /\ total_size (stats final) = total_size (stats s1).
Proof.
  intros H. unfold run, create_archive in H.
  apply bind_Ok in H as ([] & s1 & Hprep & H).
  pose proof (prepare_scanned w (initial w) (initial_scanned w)) as Hs.
  rewrite Hprep in Hs. simpl in Hs. destruct Hs as (Hp0 & Hk0 & Hz0 & _).
  unfold write_phase in H.
  apply try_except_Ok in H; [|intros e k s0; apply handler_reraises].
  unfold write_archive in H.
  apply bind_Ok in H as ([] & s2 & Hopen & H).
  apply manager_create_archive_Ok in Hopen as (Hst & Hd & _ & Hbf & Har).
  apply try_finally_Ok in H as (s3 & Hw & Hclose).
  unfold write_entries in Hw.
  apply bind_Ok in Hw as ([] & sa & Hrep & Hw).
  apply (when_report_Ok true) in Hrep as (Hsta & Hda & Hara & Hbfa).
  apply get_Ok in Hw.
  apply bind_Ok in Hw as ([] & sb & Hloop & Hw).
  apply try_except_Ok in Hloop;
    [|intros e k s0; apply keyboard_interrupt_raises].
  pose proof Hloop as Hsize.
  apply (archive_loop_contents w c (RoundTrip.writer w c) _ sa sb [])
    in Hloop
    as (es & Hes & Hn & Hall & Hpf & Hsum & Hdb & Htf & Harb & Hps);
    [| rewrite Hara; exact Har | rewrite Hbfa; exact Hbf
     | intros p Hp; apply dict_get_key; now apply list_elem_of_In].
  apply get_Ok in Hw.
  apply bind_Ok in Hw as ([] & sc & Hrep2 & Hw).
  apply when_report_Ok in Hrep2 as (Hstc & Hdc & Harc & Hbfc).
  apply get_Ok in Hw. rewrite Hbfc, Hes in Hw. simpl in Hw.
  unfold update_stats, modify in Hw. injection Hw as <-.
  unfold close_archive, set_archive, emit, bind, modify in Hclose.
  injection Hclose as <-. simpl.
  exists s1, es. rewrite Hstc, Hdc.
  rewrite Hda, Hd in Hn, Hsum, Hdb, Hps.
  rewrite Hsta, Hst in Hpf, Hsum, Htf, Hps.
  split; [exact Hprep|]. split; [congruence|]. split; [exact Htf|].
  split; [reflexivity|]. split; [now rewrite Hbfc, Hes|]. split; [exact Hn|].
  split; [exact Hall|]. split; [lia|].
  split; [unfold Dict.keys in *; rewrite length_map in *; lia|].
  split; [lia|].
  apply (archive_loop_total_size w c _ sa sb) in Hsize.
  rewrite Hsize, Hsta, Hst. reflexivity.
Qed.
End BackupContents.

(** X4.  Every entry of the archive a backup leaves when it ends normally holds
    the bytes that were read from the source file of that name, with their
    length as its size; the entries are, in the order of the scan, exactly
    the cached files that could be read and written, each once.  A file that
    cannot be read is not in the archive. *)
Theorem archive_holds_the_readable_files w c final :
  Backup.run w c = (Ok tt, final) ->
  exists es,
    Backup.backup_file final = Some (Zip.Container es)
    /\ map Zip.filename es
       = List.filter (BackupInv.archivable w)
           (Dict.keys (Backup._file_sizes final))
    /\ NoDup (map Zip.filename es)
    /\ (forall e, In e es ->
          Backup.open_rb w (Zip.filename e) = Ok (Zip.data e)
          /\ Zip.file_size e = N.of_nat (length (Zip.data e))).
Proof.
  intros H.
  destruct (backup_run_Ok w c final H)
    as (s1 & es & Hprep & Hd & _ & _ & Hbf & Hn & Hall & _).
  pose proof (prepare_scanned w (Backup.initial w) (initial_scanned w)) as Hs.
  rewrite Hprep in Hs. simpl in Hs.
  destruct Hs as (_ & _ & _ & _ & _ & Hnd & _).
  exists es. rewrite Hd. split; [exact Hbf|]. split; [exact Hn|].
  split; [rewrite Hn; now apply NoDup_filter_list|].
  intros e He. destruct (Hall e He) as (content & Ho & Hw).
  apply writestr_Ok in Hw as (_ & Hdata & Hsize & _).
  rewrite Hdata, Hsize. auto.
Qed.

Lemma archive_holds_the_readable_files_witness :
  exists es,
    Backup.backup_file (snd (Backup.run (Samples.mixed_world false)
                               Samples.plain_backup))
    = Some (Zip.Container es)
    /\ map Zip.filename es = ["a.txt"; "c.txt"]
    /\ NoDup (map Zip.filename es)
    /\ (forall e, In e es ->
          Backup.open_rb (Samples.mixed_world false) (Zip.filename e)
          = Ok (Zip.data e)
          /\ Zip.file_size e = N.of_nat (length (Zip.data e))).
Proof.
  apply (archive_holds_the_readable_files (Samples.mixed_world false)
           Samples.plain_backup
           (snd (Backup.run (Samples.mixed_world false)
                   Samples.plain_backup))).
  vm_compute. reflexivity.
Defined.

(** X5.  When the traversal lists no path twice and the backup ends normally,
    every file the scan counted was either processed or skipped:
    [processed_files + skipped_files = total_files].  [processed_files] is
    the number of entries in the archive and [skipped_files] the number of
    cached files that could not be read or written. *)
Theorem backup_accounts_for_every_file w c final es :
  NoDup (Backup.rglob w) ->
  Backup.run w c = (Ok tt, final) ->
  Backup.backup_file final = Some (Zip.Container es) ->
  Backup.processed_files (Backup.stats final)
  + Backup.skipped_files (Backup.stats final)
  = Backup.total_files (Backup.stats final)
  /\ Backup.processed_files (Backup.stats final) = Z.of_nat (length es)
  /\ Backup.skipped_files (Backup.stats final)
     = Z.of_nat (length (List.filter
                           (fun p => negb (BackupInv.archivable w p))
                           (Dict.keys (Backup._file_sizes final)))).
Proof.
  intros Hnd H Hfile.
  destruct (backup_run_Ok w c final H)
    as (s1 & es' & Hprep & Hd & Htf & _ & Hbf & Hn & _ & Hpf & Hsum & _).
  rewrite Hbf in Hfile. injection Hfile as <-.
  destruct (prepare_Ok w s1 Hprep) as (He & _ & Hscan).
  destruct (scan_caches_files w s1 He Hnd Hscan) as (_ & _ & Htot & _).
  rewrite Htf, Htot, Hd. split; [exact Hsum|]. split; [exact Hpf|].
  assert (Hlen : length es' = length (List.filter (BackupInv.archivable w)
                                        (Dict.keys (Backup._file_sizes s1)))).
  { rewrite <- Hn. now rewrite length_map. }
  pose proof (filter_length (BackupInv.archivable w)
                (Dict.keys (Backup._file_sizes s1))) as Hsplit.
  lia.
Qed.

Lemma backup_accounts_for_every_file_witness :
  Backup.processed_files
    (Backup.stats (snd (Backup.run (Samples.mixed_world false)
                          Samples.plain_backup)))
  + Backup.skipped_files
      (Backup.stats (snd (Backup.run (Samples.mixed_world false)
                            Samples.plain_backup)))
  = 3
  /\ Backup.skipped_files
       (Backup.stats (snd (Backup.run (Samples.mixed_world false)
                             Samples.plain_backup)))
     = 1.
Proof.
  destruct (backup_accounts_for_every_file (Samples.mixed_world false)
              Samples.plain_backup
              (snd (Backup.run (Samples.mixed_world false)
                      Samples.plain_backup))
              [Zip.mkEntry "a.txt" [x68; x69] 2 Zip.Plain;
               Zip.mkEntry "c.txt" [x68; x69] 2 Zip.Plain])
    as (Hsum & _ & Hsk).
  - vm_compute. repeat constructor; intros H; inversion H; subst;
      repeat match goal with H' : _ ∈ _ |- _ => inversion H'; subst; clear H' end.
  - vm_compute. reflexivity.
  - vm_compute. reflexivity.
  - split; [rewrite Hsum; reflexivity | rewrite Hsk; reflexivity].
Defined.

(** X7.  The entries of a backup that ended normally are all encrypted in the
    same way, and the password alone does not decide how: they are
    AES-encrypted with the password when a password was given and [pyzipper]
    can be imported, and stored without any encryption otherwise, so a
    [BackupCreator] that was given a password writes an unprotected archive
    when [pyzipper] is missing. *)
Theorem backup_encrypts_only_with_pyzipper w c final es :
  Backup.run w c = (Ok tt, final) ->
  Backup.backup_file final = Some (Zip.Container es) ->
  forall e, In e es ->
    Zip.encryption e
    = match Backup.password c with
      | Some key =>
          if Backup.pyzipper_installed w then Zip.WZ_AES key else Zip.Plain
      | None => Zip.Plain
      end.
Proof.
  intros H Hfile e He.
  destruct (backup_run_Ok w c final H)
    as (s1 & es' & _ & _ & _ & _ & Hbf & _ & Hall & _).
  rewrite Hbf in Hfile. injection Hfile as <-.
  destruct (Hall e He) as (content & _ & Hw).
  pose proof Hw as Hw'. apply writestr_Ok in Hw' as (_ & _ & _ & Henc).
  rewrite Henc. unfold Zip.writestr in Hw. revert Hw.
  unfold RoundTrip.writer, Backup._get_zip_class. simpl.
  destruct (Backup.password c) as [key|]; simpl; [|reflexivity].
  destruct (Backup.pyzipper_installed w); simpl; [|reflexivity].
  destruct key as [|b key]; simpl; [discriminate|reflexivity].
Qed.

Lemma backup_encrypts_only_with_pyzipper_witness :
  Zip.encryption (Zip.mkEntry "subdir/file2.txt" Samples.content_2 9
                    (Zip.WZ_AES Samples.the_password))
  = Zip.WZ_AES Samples.the_password.
Proof.
  apply (backup_encrypts_only_with_pyzipper Samples.tree_world
           Samples.protected_backup
           (snd (Backup.run Samples.tree_world Samples.protected_backup))
           [Zip.mkEntry "file1.txt" Samples.content_1 9
              (Zip.WZ_AES Samples.the_password);
            Zip.mkEntry "subdir/file2.txt" Samples.content_2 9
              (Zip.WZ_AES Samples.the_password)]).
  - vm_compute. reflexivity.
  - vm_compute. reflexivity.
  - right. left. reflexivity.
Defined.

(** ** Backup: a failure that is not an interrupt *)

Section BackupFailure.
Import Backup BackupInv.

Lemma on_disk_update_stats f : keeps on_disk (update_stats f).
Proof. intros s H. exact H. Qed.

Lemma on_disk_report c : keeps on_disk (report c).
Proof.
  unfold report. destruct (progress_callback c); [|apply keeps_ret].
  apply keeps_get. intros s H. exact H.
Qed.

Lemma on_disk_add_file w file_path arcname :
  keeps on_disk (_add_file_to_archive w file_path arcname).
Proof.
  intros s H.
  destruct (_add_file_to_archive_any w file_path arcname s) as [sz Hx].
  inversion Hx; simpl; try exact H. unfold on_disk. simpl. eauto.
Qed.

Lemma on_disk_archive_file w c file_path :
  keeps on_disk (archive_file w c file_path).
Proof.
  unfold archive_file.
  apply keeps_bind; [apply on_disk_add_file | intros _].
  apply keeps_get. intros s H. apply keeps_when; [apply on_disk_report | exact H].
Qed.

Lemma on_disk_write_entries w c : keeps on_disk (write_entries w c).
Proof.
  unfold write_entries.
  apply keeps_bind; [apply on_disk_report | intros _].
  apply keeps_get. intros s H. revert s H.
  intros s0 H0. revert H0. generalize s0 at 1 3. intros s H. revert s H.
  apply keeps_bind.
  { apply keeps_try_except.
    - apply keeps_for_each. intros x. apply on_disk_archive_file.
    - intros e0 k. destruct (is_KeyboardInterrupt e0); [|discriminate].
      intros [= <-]. apply keeps_raise. }
  intros _. apply keeps_get. intros s1 H1. revert s1 H1.
  intros s1 H1. revert H1. generalize s1 at 1 3. intros s H. revert s H.
  apply keeps_bind; [apply keeps_when, on_disk_report | intros _].
  apply keeps_get. intros s2 H2.
  destruct (backup_file s2) as [[|es]|]; now apply on_disk_update_stats.
Qed.
End BackupFailure.

(** X8.  The archive file is removed only after Ctrl+C.  When writing the
    archive fails with any other exception that is not handled as a skipped
    file, for instance a file name that cannot be encoded, the exception
    leaves [create_archive] as it is, the archive is closed, and the
    incomplete archive file stays at the backup path. *)
Theorem failed_backup_leaves_the_archive w c s1 s2 e :
  Backup.prepare w (Backup.initial w) = (Ok tt, s1) ->
  Backup.parent_exists w = true ->
  Backup.write_archive w c s1 = (Raise e, s2) ->
  is_KeyboardInterrupt e = false ->
  Backup.run w c = (Raise e, s2)
  /\ Backup.archive s2 = None
  /\ exists es, Backup.backup_file s2 = Some (Zip.Container es).
Proof.
  intros Hprep Hparent Hwrite Hki. split; [|split].
  - unfold Backup.run, Backup.create_archive, bind. rewrite Hprep.
    unfold Backup.write_phase, try_except. rewrite Hwrite, Hki. reflexivity.
  - pose proof (closed_prepare w (Backup.initial w) eq_refl) as Hc.
    rewrite Hprep in Hc. simpl in Hc.
    pose proof (write_archive_closes w c s1 Hc) as Hc'.
    now rewrite Hwrite in Hc'.
  - revert Hwrite. unfold Backup.write_archive, Backup.manager_create_archive.
    destruct (Backup._get_zip_class w _) as [zip_class use_password].
    rewrite Hparent. simpl.
    unfold bind at 1, bind at 1, bind at 1.
    unfold Backup.set_backup_file at 1, Backup.emit at 1,
      Backup.set_archive at 1, modify. simpl.
    match goal with
    | |- try_finally _ _ ?s0 = _ -> _ =>
        pose proof (keeps_try_finally BackupInv.on_disk
                      (Backup.write_entries w c) Backup.close_archive
                      (on_disk_write_entries w c)
                      (fun s H => H) s0) as Hk
    end.
    intros Hwrite. rewrite Hwrite in Hk. apply Hk.
    unfold BackupInv.on_disk. simpl. eauto.
Qed.

Lemma failed_backup_leaves_the_archive_witness :
  exists msg,
    Backup.run (Samples.mixed_world true) Samples.plain_backup
    = (Raise (ValueError msg),
       snd (Backup.run (Samples.mixed_world true) Samples.plain_backup))
    /\ Backup.backup_file
         (snd (Backup.run (Samples.mixed_world true) Samples.plain_backup))
       = Some (Zip.Container [Zip.mkEntry "a.txt" [x68; x69] 2 Zip.Plain]).
Proof.
  destruct (failed_backup_leaves_the_archive (Samples.mixed_world true)
              Samples.plain_backup
              (snd (Backup.prepare (Samples.mixed_world true)
                      (Backup.initial (Samples.mixed_world true))))
              (snd (Backup.run (Samples.mixed_world true)
                      Samples.plain_backup))
              (ValueError "surrogates not allowed"))
    as (Hrun & _ & _).
  - vm_compute. reflexivity.
  - reflexivity.
  - vm_compute. reflexivity.
  - reflexivity.
  - exists "surrogates not allowed". split; [exact Hrun|].
    vm_compute. reflexivity.
Defined.

(** ** The passwords typed at the command line *)

Section Passwords.

Lemma encode_char_not_empty cp first :
  Utf8.encode_char cp = Ok first -> first <> [].
Proof.
  unfold Utf8.encode_char.
  repeat match goal with
         | |- context [if ?b then _ else _] => destruct b
         end; intros [= <-]; discriminate.
Qed.

Lemma encode_not_empty s encoded :
  s <> [] -> Utf8.encode s = Ok encoded -> truthy (Some encoded) = true.
Proof.
  destruct s as [|cp s]; [easy|]. intros _. simpl.
  destruct (Utf8.encode_char cp) as [first|e] eqn:E; [|discriminate].
  destruct (Utf8.encode s) as [rest|e]; [|discriminate].
  intros [= <-]. apply encode_char_not_empty in E.
  destruct first; [easy|reflexivity].
Qed.

Lemma get_password_loop_spec getpass remaining :
  forall asked,
    let r := Restore.get_password_loop getpass remaining asked in
    (snd r <= asked + remaining)%nat
    /\ (forall password,
          fst r = Ok password ->
          truthy (Some password) = true
          /\ exists typed,
               getpass (pred (snd r)) = Ok typed /\ typed <> []
               /\ Utf8.encode typed = Ok password
               /\ (asked < snd r)%nat
               /\ forall n, (asked <= n < pred (snd r))%nat ->
                            getpass n = Ok [])
    /\ ((forall n, (asked <= n < asked + remaining)%nat -> getpass n = Ok []) ->
        (exists msg, fst r = Raise (ValueError msg))
        /\ snd r = (asked + remaining)%nat).
Proof.
  induction remaining as [|remaining IH]; intros asked; simpl.
  - split; [lia|]. split; [discriminate|]. intros _.
    split; [eauto | lia].
  - destruct (getpass asked) as [[|cp typed]|e] eqn:Hg; simpl.
    + specialize (IH (S asked)). simpl in IH.
      destruct IH as (Hle & Hok & Hall).
      split; [lia|]. split.
      * intros password Hp.
        destruct (Hok password Hp) as (Ht & typed & Hty & Hne & Hen & Hlt & Hbefore).
        split; [exact Ht|]. exists typed. repeat split; auto; try lia.
        intros n Hn. destruct (Nat.eq_dec n asked) as [->|Hneq];
          [exact Hg | apply Hbefore; lia].
      * intros Hempty. destruct Hall as (Hmsg & Hcount).
        { intros n Hn. apply Hempty. lia. }
        split; [exact Hmsg | lia].
    + split; [lia|]. split.
      * intros password Hp. split.
        { apply (encode_not_empty (cp :: typed)); [discriminate | exact Hp]. }
        exists (cp :: typed). simpl.
        repeat split; auto; try lia; try discriminate.
      * intros Hempty. rewrite Hempty in Hg by lia. discriminate.
    + split; [lia|]. split; [discriminate|].
      intros Hempty. rewrite Hempty in Hg by lia. discriminate.
Qed.
End Passwords.

(** X10.  [get_password] of the restore asks at most [max_attempts] times.  When
    it returns a password, that password is not empty: it is the UTF-8
    encoding of the first entry that was not empty, and every entry before
    it was empty.  When every one of the [max_attempts] entries is empty it
    raises [ValueError] after exactly that many prompts, and at once when
    [max_attempts] is not positive. *)
Theorem restore_get_password_attempts getpass max_attempts :
  (snd (Restore.get_password getpass max_attempts)
   <= Z.to_nat max_attempts)%nat
  /\ (forall password,
        fst (Restore.get_password getpass max_attempts) = Ok password ->
        truthy (Some password) = true
        /\ exists typed,
             getpass (pred (snd (Restore.get_password getpass max_attempts)))
             = Ok typed
             /\ typed <> []
             /\ Utf8.encode typed = Ok password
             /\ forall n,
                  (n < pred (snd (Restore.get_password getpass
                                    max_attempts)))%nat ->
                  getpass n = Ok [])
  /\ ((forall n, (n < Z.to_nat max_attempts)%nat -> getpass n = Ok []) ->
      (exists msg,
          fst (Restore.get_password getpass max_attempts)
          = Raise (ValueError msg))
      /\ snd (Restore.get_password getpass max_attempts)
         = Z.to_nat max_attempts).
Proof.
  unfold Restore.get_password.
  destruct (get_password_loop_spec getpass (Z.to_nat max_attempts) 0)
    as (Hle & Hok & Hall).
  split; [exact Hle|]. split.
  - intros password Hp.
    destruct (Hok password Hp) as (Ht & typed & Hty & Hne & Hen & _ & Hbefore).
    split; [exact Ht|]. exists typed. repeat split; auto.
    intros n Hn. apply Hbefore. lia.
  - intros Hempty. apply Hall. intros n Hn. apply Hempty. lia.
Qed.

Lemma restore_get_password_attempts_witness :
  (exists msg,
      fst (Restore.get_password (fun _ => Ok []) 3) = Raise (ValueError msg))
  /\ snd (Restore.get_password (fun _ => Ok []) 3) = 3%nat.
Proof.
  apply (proj2 (proj2 (restore_get_password_attempts (fun _ => Ok []) 3))).
  intros n _. reflexivity.
Defined.

(** X9.  [get_password] of the backup returns a password only when the two
    entries are the same and not empty; the password is their UTF-8
    encoding and is not empty.  An empty first entry raises [ValueError]
    before the confirmation is asked for. *)
Theorem backup_get_password_confirmed getpass :
  (forall password,
      fst (Backup.get_password getpass) = Ok password ->
      truthy (Some password) = true
      /\ exists typed,
           getpass 0%nat = Ok typed /\ getpass 1%nat = Ok typed
           /\ typed <> [] /\ Utf8.encode typed = Ok password)
  /\ (getpass 0%nat = Ok [] ->
      exists msg,
        Backup.get_password getpass = (Raise (ValueError msg), 1%nat)).
Proof.
  unfold Backup.get_password. split.
  - intros password.
    destruct (getpass 0%nat) as [[|cp typed]|e]; simpl; try discriminate.
    destruct (getpass 1%nat) as [confirm|e]; simpl; [|discriminate].
    case_bool_decide as E; [|simpl; discriminate].
    subst confirm. simpl. intros Hp.
    split; [apply (encode_not_empty (cp :: typed)); [discriminate|exact Hp]|].
    exists (cp :: typed). repeat split; auto; try discriminate.
  - intros ->. eauto.
Qed.

Lemma backup_get_password_confirmed_witness :
  exists msg,
    Backup.get_password (fun _ => Ok []) = (Raise (ValueError msg), 1%nat).
Proof.
  apply (proj2 (backup_get_password_confirmed (fun _ => Ok []))).
  reflexivity.
Defined.

(** ** Restore: is the archive protected, is the password right *)

Section Protection.
Import Restore RestoreInv.

Lemma probe_first b es p first rest e :
  map Zip.filename es = first :: rest ->
  Zip.getinfo_in first es = Some e ->
  probe (Zip.mkHandle b es p)
  = match Zip.decrypt b e p with
    | Ok _ => Ok false
    | Raise _ => Ok true
    end.
Proof.
  intros Hn Hi. unfold probe, Zip.namelist, Zip.read, Zip.getinfo. simpl.
  rewrite Hn, Hi. simpl.
  destruct (Zip.decrypt b e p) as [content|x] eqn:E; [reflexivity|].
  now rewrite (decrypt_raises _ _ _ _ E).
Qed.
End Protection.



Section Verify.
Import Restore RestoreInv.

Lemma verify_password_opens w pw es enc s :
  archive_file w = Some (Zip.Container es) ->
  (forall e, In e es -> Zip.encryption e = enc) ->
  enc = Zip.Plain
  \/ (exists k, enc = Zip.WZ_AES k /\ Some pw = Some k
                /\ truthy (Some pw) = true
                /\ pyzipper_installed w = true) ->
  ends (verify_password w pw) s
       (fun accepted s' => accepted = true
                           /\ open_handles s' = open_handles s).
Proof.
  intros Harch Henc Hcase. unfold verify_password.
  apply ends_try_except, ends_bind.
  destruct (open_archive w (Some pw) s) as [[h|x] s1] eqn:Ho.
  - apply open_archive_Ok in Ho as Hfacts.
    destruct Hfacts as (_ & _ & _ & Hn & _ & Hfirst).
    exists h, s1. split; [exact Ho|].
    apply ends_try_finally.
    destruct (Zip.namelist h) as [|first rest].
    + apply ends_ret. unfold close_handle.
      apply ends_bind, ends_modify, ends_modify. simpl. split; [reflexivity|lia].
    + destruct Hfirst as [content Hr].
      apply ends_bind. apply (ends_lift _ content); [exact Hr|].
      apply ends_ret. unfold close_handle.
      apply ends_bind, ends_modify, ends_modify. simpl. split; [reflexivity|lia].
  - exfalso.
    pose proof (ends_open_archive w (Some pw) es enc s (fun _ _ => True)
                  Harch Henc Hcase (fun _ _ _ _ => I)) as (h & s2 & Ho' & _).
    congruence.
Qed.

Lemma verify_password_refuses w pw es first rest e s :
  archive_file w = Some (Zip.Container es) ->
  map Zip.filename es = first :: rest ->
  Zip.getinfo_in first es = Some e ->
  Zip.wrong_password (Some pw) e ->
  fst (verify_password w pw s) = Ok false.
Proof.
  intros Harch Hn Hi Hw.
  destruct (open_archive_wrong_password w (Some pw) es first rest e s
              Harch Hn Hi Hw) as (x & s1 & Ho & Hx).
  unfold verify_password, try_except, bind. rewrite Ho, Hx. reflexivity.
Qed.
End Verify.

(** X12.  [verify_password] on an archive as the backup writes it.  When every
    entry is AES-encrypted with one password, it returns [True] for that
    password and [False] for every other one, the empty one included; when
    it returns [True] the archive it opened is closed again.  When no entry
    is encrypted, every password is accepted. *)
Theorem verify_password_accepts_the_key w es pw s :
  Restore.archive_file w = Some (Zip.Container es) ->
  (forall key,
      es <> [] ->
      (forall e, In e es -> Zip.encryption e = Zip.WZ_AES key) ->
      truthy (Some key) = true ->
      Restore.pyzipper_installed w = true ->
      fst (Restore.verify_password w pw s) = Ok (bool_decide (pw = key))
      /\ (pw = key ->
          Restore.open_handles (snd (Restore.verify_password w pw s))
          = Restore.open_handles s))
  /\ ((forall e, In e es -> Zip.encryption e = Zip.Plain) ->
      fst (Restore.verify_password w pw s) = Ok true).
Proof.
  intros Harch. split.
  - intros key Hne Henc Hkey Hpz.
    case_bool_decide as E.
    + subst pw.
      destruct (verify_password_opens w key es (Zip.WZ_AES key) s Harch Henc)
        as (b & s' & Hrun & -> & Hh).
      { right. exists key. auto. }
      rewrite Hrun. auto.
    + split; [|congruence].
      destruct es as [|e0 es']; [congruence|].
      destruct (getinfo_in_listed (Zip.filename e0) (e0 :: es')) as [e He];
        [now left|].
      apply (verify_password_refuses w pw (e0 :: es') (Zip.filename e0)
               (map Zip.filename es') e s Harch eq_refl He).
      exists key. split.
      * unfold Zip.key_of. apply getinfo_in_Some in He as [_ Hin].
        now rewrite (Henc e Hin).
      * right. congruence.
  - intros Hplain.
    destruct (verify_password_opens w pw es Zip.Plain s Harch Hplain)
      as (b & s' & Hrun & -> & _); [now left|].
    now rewrite Hrun.
Qed.

Lemma verify_password_accepts_the_key_witness :
  fst (Restore.verify_password (Samples.calm_restore Samples.tree_archive)
         Samples.the_password
         (Restore.initial (Samples.calm_restore Samples.tree_archive)))
  = Ok true
  /\ fst (Restore.verify_password (Samples.calm_restore Samples.tree_archive)
            [x6e; x6f]
            (Restore.initial (Samples.calm_restore Samples.tree_archive)))
     = Ok false
  /\ fst (Restore.verify_password (Samples.calm_restore Samples.dozen_archive)
            [x6e; x6f]
            (Restore.initial (Samples.calm_restore Samples.dozen_archive)))
     = Ok true.
Proof.
  split; [|split].
  - apply (proj1 (verify_password_accepts_the_key
                    (Samples.calm_restore Samples.tree_archive)
                    _ Samples.the_password _ eq_refl)
             Samples.the_password);
      try reflexivity; try discriminate.
    intros e [<-|[<-|[]]]; reflexivity.
  - apply (proj1 (verify_password_accepts_the_key
                    (Samples.calm_restore Samples.tree_archive)
                    _ [x6e; x6f] _ eq_refl)
             Samples.the_password);
      try reflexivity; try discriminate.
    intros e [<-|[<-|[]]]; reflexivity.
  - apply (proj2 (verify_password_accepts_the_key
                    (Samples.calm_restore Samples.dozen_archive)
                    _ [x6e; x6f] _ eq_refl)).
    intros e He. vm_compute in He.
    repeat (destruct He as [<-|He]; [reflexivity|]). destruct He.
Defined.

(** ** Restore: the archive is validated first *)

(** X14.  A restore from a path that does not exist raises [FileNotFoundError],
    from a path that is not a regular file [ValueError], and from a file
    that is not a ZIP archive [BadZipFile] when [pyzipper] can be imported
    and otherwise the [RuntimeError] that asks to install [pyzipper].  In
    each case nothing has happened yet: no counter has moved and the target
    directory is as it was. *)
Theorem restore_rejects_bad_archive w c :
  (Restore.archive_file w = None ->
   exists msg,
     Restore.run w c = (Raise (FileNotFoundError msg), Restore.initial w))
  /\ (Restore.archive_file w <> None -> Restore.archive_is_file w = false ->
      exists msg,
        Restore.run w c = (Raise (ValueError msg), Restore.initial w))
  /\ (Restore.archive_file w = Some Zip.NotAZip ->
      Restore.archive_is_file w = true ->
      exists msg,
        Restore.run w c
        = (Raise (if Restore.pyzipper_installed w
                  then BadZipFile msg else RuntimeError msg),
           Restore.initial w)).
Proof.
  unfold Restore.run, Restore.extract_archive, Restore.validate_archive, bind.
  split; [|split].
  - intros ->. eauto.
  - intros Ha Hf. destruct (Restore.archive_file w); [|congruence].
    rewrite Hf. simpl. eauto.
  - intros Ha Hf. rewrite Ha, Hf. simpl.
    unfold Restore.open_archive, Restore.open_handle, try_except, bind, lift.
    rewrite Ha. simpl.
    destruct (Restore.pyzipper_installed w); simpl; eauto.
Qed.

Lemma restore_rejects_bad_archive_witness :
  (exists msg,
      Restore.run (Samples.no_drive_restore None) Samples.no_password
      = (Raise (FileNotFoundError msg),
         Restore.initial (Samples.no_drive_restore None)))
  /\ (exists msg,
         Restore.run Samples.directory_as_archive Samples.no_password
         = (Raise (ValueError msg),
            Restore.initial Samples.directory_as_archive))
  /\ (exists msg,
         Restore.run (Samples.calm_restore Zip.NotAZip) Samples.no_password
         = (Raise (BadZipFile msg),
            Restore.initial (Samples.calm_restore Zip.NotAZip))).
Proof.
  split; [|split].
  - apply (proj1 (restore_rejects_bad_archive (Samples.no_drive_restore None)
                    Samples.no_password)).
    reflexivity.
  - apply (proj1 (proj2 (restore_rejects_bad_archive
                           Samples.directory_as_archive
                           Samples.no_password)));
      [discriminate | reflexivity].
  - apply (proj2 (proj2 (restore_rejects_bad_archive
                           (Samples.calm_restore Zip.NotAZip)
                           Samples.no_password))); reflexivity.
Defined.

(** ** Restore: the space preflight *)

(** X15.  Once the archive is validated and the drive of the target exists, the
    restore requires twice the size of the archive file to be free: with
    less it raises [OSError] before the target directory is made, with no
    counter moved and nothing written; with that much or more the check
    passes. *)
Theorem restore_needs_twice_the_archive w c sa :
  Restore.validate_archive w c (Restore.initial w) = (Ok tt, sa) ->
  Restore.target_drive_exists w = true ->
  (Z.of_N (Restore.free_space w) < 2 * Z.of_N (Restore.archive_st_size w) ->
   exists msg,
     Restore.run w c = (Raise (OSError msg), sa)
     /\ Restore.target sa = Restore.target_before w
     /\ Restore.written sa = []
     /\ Restore.stats sa = Restore.RestoreStats0)
  /\ (2 * Z.of_N (Restore.archive_st_size w) <= Z.of_N (Restore.free_space w) ->
      Restore.check_disk_space w sa = (Ok tt, sa)).
Proof.
  intros Hv Hd.
  pose proof (validate_archive_Ok w c _ _ Hv)
    as (_ & _ & (Hst & Ht & _ & _ & Hw) & _).
  assert (Ha : Restore.archive_file w <> None).
  { intros Ha. unfold Restore.validate_archive in Hv. rewrite Ha in Hv.
    discriminate. }
  unfold Restore.check_disk_space.
  destruct (Restore.archive_file w) as [f|] eqn:Hf; [|congruence].
  rewrite Hd. simpl. split; intros Hspace.
  - eexists. unfold Restore.run, Restore.extract_archive, bind.
    rewrite Hv. unfold Restore.check_disk_space. rewrite Hf, Hd. simpl.
    destruct (Z.ltb_spec (Z.of_N (Restore.free_space w))
                (Z.of_N (Restore.archive_st_size w) * 2)); [|lia].
    simpl. unfold raise. split; [reflexivity|]. auto.
  - destruct (Z.ltb_spec (Z.of_N (Restore.free_space w))
                (Z.of_N (Restore.archive_st_size w) * 2)); [lia|].
    reflexivity.
Qed.

Lemma restore_needs_twice_the_archive_witness :
  exists msg,
    Restore.run Samples.tight_restore Samples.no_password
    = (Raise (OSError msg),
       snd (Restore.validate_archive Samples.tight_restore
              Samples.no_password
              (Restore.initial Samples.tight_restore)))
    /\ Restore.target
         (snd (Restore.validate_archive Samples.tight_restore
                 Samples.no_password
                 (Restore.initial Samples.tight_restore)))
       = Restore.target_before Samples.tight_restore
    /\ Restore.written
         (snd (Restore.validate_archive Samples.tight_restore
                 Samples.no_password
                 (Restore.initial Samples.tight_restore)))
       = []
    /\ Restore.stats
         (snd (Restore.validate_archive Samples.tight_restore
                 Samples.no_password
                 (Restore.initial Samples.tight_restore)))
       = Restore.RestoreStats0.
Proof.
  apply (proj1 (restore_needs_twice_the_archive Samples.tight_restore
                  Samples.no_password
                  (snd (Restore.validate_archive Samples.tight_restore
                          Samples.no_password
                          (Restore.initial Samples.tight_restore)))
                  ltac:(vm_compute; reflexivity) eq_refl)).
  vm_compute. reflexivity.
Defined.

(** ** Restore: what a run that ends normally has counted *)

Section RestoreAccounts.
Import Restore RestoreInv.

Lemma getinfo_name h x file_info :
  Zip.getinfo h x = Some file_info -> Zip.is_dir file_info = ends_with_slash x.
Proof.
  unfold Zip.getinfo, Zip.is_dir. intros H.
  apply getinfo_in_Some in H as [-> _]. reflexivity.
Qed.

Lemma extract_file_dir w c h x file_info s :
  Zip.getinfo h x = Some file_info -> Zip.is_dir file_info = true ->
  extract_file w c h x s = (Ok tt, s).
Proof.
  intros Hi Hd. unfold extract_file, try_except. now rewrite Hi, Hd.
Qed.

(** one turn of the extraction loop that ends normally: a directory entry
    changes nothing, any other entry is counted as extracted or as skipped *)
Lemma extract_file_Ok w c h x s s' :
  extract_file w c h x s = (Ok tt, s') ->
  total_files (stats s') = total_files (stats s)
  /\ if ends_with_slash x then stats s' = stats s
     else (extracted_files (stats s') = extracted_files (stats s) + 1
           /\ skipped_files (stats s') = skipped_files (stats s)
           /\ errors (stats s') = errors (stats s))
          \/ (extracted_files (stats s') = extracted_files (stats s)
              /\ skipped_files (stats s') = skipped_files (stats s) + 1
              /\ errors (stats s') = errors (stats s) + 1).
Proof.
  intros H.
  destruct (Zip.getinfo h x) as [file_info|] eqn:Hi.
  2:{ unfold extract_file, try_except in H. rewrite Hi in H.
      simpl in H. discriminate. }
  rewrite <- (getinfo_name h x file_info Hi).
  destruct (Zip.is_dir file_info) eqn:Hd.
  { rewrite (extract_file_dir w c h x file_info s Hi Hd) in H.
    injection H as <-. auto. }
  pose proof (extract_file_cases w c h x s) as Hx. rewrite H in Hx.
  inversion Hx as [info Hi' Hd' Hs|info content Hi' Hd' Hm Hr Hw Hs
                  |mid Hmid Hs|]; subst.
  - rewrite Hi in Hi'. injection Hi' as <-. congruence.
  - split; [destruct (_ && _); reflexivity|]. left.
    destruct (_ && _); simpl; auto.
  - destruct (halfway_stats _ _ _ _ _ _ Hmid) as [Hst _].
    simpl. rewrite Hst. split; [reflexivity|]. right. auto.
Qed.

Lemma extract_loop_accounts w c h l :
  forall s s',
    for_each l (extract_file w c h) s = (Ok tt, s') ->
    total_files (stats s') = total_files (stats s)
    /\ errors (stats s') - skipped_files (stats s')
       = errors (stats s) - skipped_files (stats s)
    /\ extracted_files (stats s') + skipped_files (stats s')
       + Z.of_nat (length (List.filter ends_with_slash l))
       = extracted_files (stats s) + skipped_files (stats s)
         + Z.of_nat (length l).
Proof.
  induction l as [|x l IH]; intros s s' H; simpl in H.
  - unfold ret in H. injection H as <-. simpl. lia.
  - apply bind_Ok in H as ([] & s1 & Hturn & Hrest).
    apply extract_file_Ok in Hturn as (Htf & Hcase).
    apply IH in Hrest as (Htf' & Herr & Hsum).
    simpl. destruct (ends_with_slash x); simpl length.
    + rewrite Hcase in *. lia.
    + destruct Hcase as [(He & Hs & Hr)|(He & Hs & Hr)]; lia.
Qed.

Lemma count_size_stats file_info s s' :
  count_size file_info s = (Ok tt, s') ->
  total_files (stats s') = total_files (stats s)
  /\ extracted_files (stats s') = extracted_files (stats s)
  /\ skipped_files (stats s') = skipped_files (stats s)
  /\ errors (stats s') = errors (stats s).
Proof.
  unfold count_size. destruct (Zip.is_dir file_info).
  - unfold ret. now intros [= <-].
  - unfold update_stats, modify. now intros [= <-].
Qed.

Lemma restore_report_Ok c s s' :
  report c s = (Ok tt, s') -> stats s' = stats s.
Proof.
  unfold report. destruct (progress_callback c).
  - unfold bind, get, emit, modify. now intros [= <-].
  - unfold ret. now intros [= <-].
Qed.

(** a restore that ends normally, taken apart down to its counters *)
Lemma restore_run_accounts w c es final :
  archive_file w = Some (Zip.Container es) ->
  run w c = (Ok tt, final) ->
  total_files (stats final) = Z.of_nat (length es)
  /\ errors (stats final) = skipped_files (stats final)
  /\ extracted_files (stats final) + skipped_files (stats final)
     + Z.of_nat (length (List.filter ends_with_slash (map Zip.filename es)))
     = Z.of_nat (length es).
Proof.
  intros Harch H. unfold run, extract_archive in H.
  apply bind_Ok in H as ([] & sa & Hva & H).
  apply bind_Ok in H as ([] & sb & Hch & H).
  apply bind_Ok in H as ([] & sc & Hmk & H).
  apply bind_Ok in H as ([] & se & Hex & Hrep).
  apply restore_report_Ok in Hrep. rewrite Hrep.
  pose proof (quiet_untouched _ (initial w) (quiet_validate_archive w c)) as Ua.
  pose proof (quiet_untouched _ sa (quiet_check_disk_space w)) as Ub.
  pose proof (quiet_untouched _ sb
                (quiet_lift_raises (target_mkdir_raises w))) as Uc.
  rewrite Hva in Ua. rewrite Hch in Ub. rewrite Hmk in Uc. simpl in *.
  pose proof (untouched_trans _ _ _ (untouched_trans _ _ _ Ua Ub) Uc)
    as (Hst & _).
  apply try_finally_Ok in Hex as (sd & Hent & Hclose).
  pose proof (quiet_untouched _ sd quiet_close_if_open) as Ud.
  rewrite Hclose in Ud. simpl in Ud. destruct Ud as (Hsd & _).
  rewrite Hsd.
  apply try_except_Ok in Hent;
    [|intros e k s0; apply keyboard_interrupt_raises].
  unfold extract_entries in Hent.
  apply bind_Ok in Hent as (h & s1 & Hopen & Hent).
  apply open_archive_Ok in Hopen
    as (Hst1 & _ & _ & _ & (es' & Harch' & Hes & _) & _).
  rewrite Harch in Harch'. injection Harch' as <-.
  apply bind_Ok in Hent as ([] & s2 & Hset & Hent).
  unfold set_archive, modify in Hset. injection Hset as <-.
  apply bind_Ok in Hent as ([] & s3 & Htot & Hent).
  unfold update_stats, modify in Htot. simpl in Htot. injection Htot as <-.
  apply bind_Ok in Hent as ([] & s4 & Hcount & Hent).
  apply bind_Ok in Hent as ([] & s5 & Hrep5 & Hloop).
  apply restore_report_Ok in Hrep5.
  assert (H4 : total_files (stats s4) = Z.of_nat (length es)
               /\ extracted_files (stats s4) = 0
               /\ skipped_files (stats s4) = 0
               /\ errors (stats s4) = 0).
  { revert Hcount.
    apply (for_each_Ok
             (fun t => total_files (stats t) = Z.of_nat (length es)
                       /\ extracted_files (stats t) = 0
                       /\ skipped_files (stats t) = 0
                       /\ errors (stats t) = 0)).
    - intros x t t' _ Ht Hx. apply count_size_stats in Hx. lia.
    - simpl. rewrite Hst1, Hst. unfold Zip.namelist. rewrite Hes.
      now rewrite length_map. }
  apply extract_loop_accounts in Hloop as (Htf & Herr & Hsum).
  rewrite Hrep5 in *. unfold Zip.namelist in Hsum. rewrite Hes in Hsum.
  rewrite length_map in Hsum. lia.
Qed.
End RestoreAccounts.

(** X16.  When a restore ends normally, [total_files] is the number of entries of
    the archive, directory entries included, and every entry is accounted
    for: the extracted files, the skipped files and the directory entries add
    up to [total_files].  Every skipped file is counted as one error. *)
Theorem restore_accounts_for_every_entry w c es final :
  Restore.archive_file w = Some (Zip.Container es) ->
  Restore.run w c = (Ok tt, final) ->
  Restore.total_files (Restore.stats final) = Z.of_nat (length es)
  /\ Restore.extracted_files (Restore.stats final)
     + Restore.skipped_files (Restore.stats final)
     + Z.of_nat (length (List.filter ends_with_slash (map Zip.filename es)))
     = Restore.total_files (Restore.stats final)
  /\ Restore.errors (Restore.stats final)
     = Restore.skipped_files (Restore.stats final).
Proof.
  intros Harch H.
  destruct (restore_run_accounts w c es final Harch H) as (Htf & Herr & Hsum).
  rewrite Htf. auto.
Qed.

Lemma restore_accounts_for_every_entry_witness :
  Restore.total_files
    (Restore.stats (snd (Restore.run Samples.folder_restore
                           Samples.no_password)))
  = 3
  /\ Restore.extracted_files
       (Restore.stats (snd (Restore.run Samples.folder_restore
                              Samples.no_password)))
     + Restore.skipped_files
         (Restore.stats (snd (Restore.run Samples.folder_restore
                                Samples.no_password)))
     + 1
     = 3.
Proof.
  destruct (restore_accounts_for_every_entry Samples.folder_restore
              Samples.no_password Samples.folder_entries
              (snd (Restore.run Samples.folder_restore Samples.no_password))
              eq_refl ltac:(vm_compute; reflexivity)) as (Htf & Hsum & _).
  split; [exact Htf|]. rewrite Htf in Hsum. exact Hsum.
Defined.

(** X17.  A directory entry is not counted as extracted, so after a restore of an
    archive that holds one, [extracted_files] stays below [total_files] and
    [progress_percent] below 100, even though the restore ended normally and
    skipped nothing. *)
Theorem directory_entries_hold_progress_back w c es final name :
  Restore.archive_file w = Some (Zip.Container es) ->
  Restore.run w c = (Ok tt, final) ->
  In name (map Zip.filename es) ->
  ends_with_slash name = true ->
  Restore.extracted_files (Restore.stats final)
  < Restore.total_files (Restore.stats final)
  /\ (Restore.progress_percent (Restore.stats final) < 100)%Q.
Proof.
  intros Harch H Hin Hdir.
  destruct (restore_run_accounts w c es final Harch H) as (Htf & _ & Hsum).
  pose proof (extract_archive_sound w c (Restore.initial w)
                (initial_pristine w)) as Hsound.
  unfold Restore.run in H. rewrite H in Hsound. simpl in Hsound.
  destruct Hsound as ((He & Hs & _) & _).
  assert (Hd : (0 < length (List.filter ends_with_slash
                              (map Zip.filename es)))%nat).
  { assert (Hf : In name (List.filter ends_with_slash (map Zip.filename es)))
      by (apply filter_In; auto).
    destruct (List.filter ends_with_slash (map Zip.filename es));
      [destruct Hf | simpl; lia]. }
  assert (Hlt : Restore.extracted_files (Restore.stats final)
                < Restore.total_files (Restore.stats final)) by lia.
  split; [exact Hlt|].
  unfold Restore.progress_percent.
  destruct (Restore.total_files (Restore.stats final)) as [|p|p] eqn:Ht;
    try lia.
  simpl. unfold Qlt, Qdiv, Qmult, Qinv, inject_Z. simpl. lia.
Qed.

Lemma directory_entries_hold_progress_back_witness :
  Restore.extracted_files
    (Restore.stats (snd (Restore.run Samples.folder_restore
                           Samples.no_password)))
  < Restore.total_files
      (Restore.stats (snd (Restore.run Samples.folder_restore
                             Samples.no_password)))
  /\ (Restore.progress_percent
        (Restore.stats (snd (Restore.run Samples.folder_restore
                               Samples.no_password)))
      < 100)%Q.
Proof.
  apply (directory_entries_hold_progress_back Samples.folder_restore
           Samples.no_password Samples.folder_entries
           (snd (Restore.run Samples.folder_restore Samples.no_password))
           "docs/" eq_refl ltac:(vm_compute; reflexivity)).
  - right. left. reflexivity.
  - reflexivity.
Defined.

(** ** Restore: which files of the target directory a run can change *)

Section RestoreFrame.
Import Restore RestoreInv.











End RestoreFrame.



(** X19.  However a restore ends, it deletes nothing: every file that was in the
    target directory before the run is there after it, though its bytes may
    have been replaced. *)
Theorem restore_deletes_nothing w c file_name :
  is_Some (Restore.target_before w !! file_name) ->
  is_Some (Restore.target (snd (Restore.run w c)) !! file_name).
Proof.
  intros H.
  pose proof (nothing_removed_extract_archive w c (Restore.initial w)
                (nothing_removed_initial w)) as [_ Hbefore].
  unfold Restore.run. apply Hbefore. exact H.
Qed.

Lemma restore_deletes_nothing_witness :
  is_Some (Restore.target
             (snd (Restore.run Samples.used_restore Samples.no_password))
             !! "one.txt").
Proof.
  apply (restore_deletes_nothing Samples.used_restore Samples.no_password
           "one.txt").
  vm_compute. eauto.
Defined.



(** ** A backup and the checks of the restore command line *)

Section Recognised.
Import RoundTrip.

Lemma entry_of_encryption w c k :
  Backup.password c = Some k -> truthy (Some k) = true ->
  Backup.pyzipper_installed w = true ->
  encryption_of w c = Zip.WZ_AES k.
Proof.
  intros Hp Ht Hz.
  unfold encryption_of, writer, Backup._get_zip_class.
  rewrite Hp, Hz, Ht. reflexivity.
Qed.
End Recognised.

(** X13.  Take a backup that nothing disturbs, of a directory with at least one
    file, made with a password while [pyzipper] can be imported.  The
    archive it leaves is found to be password protected by
    [is_password_protected], and [verify_password] accepts the password of
    the backup and no other. *)
Theorem protected_backup_is_recognised w c rw key pw s :
  RoundTrip.calm_backup w c ->
  RoundTrip.files w <> [] ->
  Backup.password c = Some key ->
  Backup.pyzipper_installed w = true ->
  Restore.pyzipper_installed rw = true ->
  Restore.archive_file rw = Backup.backup_file (snd (Backup.run w c)) ->
  Restore.is_password_protected rw = Ok true
  /\ fst (Restore.verify_password rw pw s) = Ok (bool_decide (pw = key)).
Proof.
  intros Hcalm Hne Hp Hz Hrz Harch.
  destruct (backup_run_calm w c Hcalm) as (final & Hrun & Hfile).
  rewrite Hrun in Harch. simpl in Harch. rewrite Hfile in Harch.
  assert (Ht : truthy (Some key) = true).
  { destruct (RoundTrip.calm_password w c Hcalm) as [Hn|Ht]; congruence. }
  pose proof (entry_of_encryption w c key Hp Ht Hz) as Henc.
  set (es := map (RoundTrip.entry_of w c) (RoundTrip.files w)) in *.
  assert (Hall : forall e, In e es -> Zip.encryption e = Zip.WZ_AES key).
  { intros e He. apply in_map_iff in He as (p & <- & _). exact Henc. }
  destruct es as [|e0 es'] eqn:Ees.
  { apply map_eq_nil in Ees. congruence. }
  destruct (getinfo_in_listed (Zip.filename e0) (e0 :: es')) as [e He];
    [now left|].
  assert (Hin : In e (e0 :: es')) by now apply getinfo_in_Some in He as [_ ?].
  split.
  - unfold Restore.is_password_protected. rewrite Harch. simpl Zip.open_read.
    cbv iota.
    rewrite (probe_first Zip.ZipFile (e0 :: es') None (Zip.filename e0)
               (map Zip.filename es') e eq_refl He).
    unfold Zip.decrypt. now rewrite (Hall e Hin).
  - case_bool_decide as E.
    + subst pw.
      destruct (verify_password_opens rw key (e0 :: es') (Zip.WZ_AES key) s
                  Harch Hall) as (b & s' & Hv & -> & _).
      { right. exists key. auto. }
      now rewrite Hv.
    + apply (verify_password_refuses rw pw (e0 :: es') (Zip.filename e0)
               (map Zip.filename es') e s Harch eq_refl He).
      exists key. split.
      * unfold Zip.key_of. now rewrite (Hall e Hin).
      * right. congruence.
Qed.

Lemma protected_backup_is_recognised_witness :
  Restore.is_password_protected (Samples.calm_restore Samples.tree_archive)
  = Ok true
  /\ fst (Restore.verify_password (Samples.calm_restore Samples.tree_archive)
            [x6e; x6f]
            (Restore.initial (Samples.calm_restore Samples.tree_archive)))
     = Ok false.
Proof.
  apply (protected_backup_is_recognised Samples.tree_world
           Samples.protected_backup
           (Samples.calm_restore Samples.tree_archive)
           Samples.the_password [x6e; x6f]).
  - constructor.
    + split; reflexivity.
    + reflexivity.
    + vm_compute. repeat constructor; intros H; inversion H; subst;
        match goal with H' : _ ∈ _ |- _ => inversion H' end.
    + intros p H. vm_compute in H. destruct H as [<-|[<-|[]]]; reflexivity.
    + intros p _. exists 9%N. reflexivity.
    + intros p _. simpl. destruct (String.eqb p "file1.txt"); eauto.
    + reflexivity.
    + reflexivity.
    + vm_compute. reflexivity.
    + right. reflexivity.
  - vm_compute. discriminate.
  - reflexivity.
  - reflexivity.
  - reflexivity.
  - vm_compute. reflexivity.
Defined.

(** ** Backup: a run without skipped files *)

Section CleanBackup.
Import Backup BackupInv.

Lemma filter_keeps_all {A} (f : A -> bool) (l : list A) :
  length (List.filter f l) = length l -> List.filter f l = l.
Proof.
  induction l as [|x l IH]; simpl; [reflexivity|].
  pose proof (filter_length_le f l) as Hle.
  destruct (f x); simpl; intros H; [|lia].
  f_equal. apply IH. lia.
Qed.
End CleanBackup.

(** X6.  When the traversal lists no path twice and a backup ends normally
    without a skipped file, the counters say that everything was done:
    [processed_files = total_files], [processed_size = total_size], and
    [progress_percent] is 100 unless the directory holds no bytes at all, in
    which case it is 0. *)
Theorem backup_without_skips_reaches_100 w c final :
  NoDup (Backup.rglob w) ->
  Backup.run w c = (Ok tt, final) ->
  Backup.skipped_files (Backup.stats final) = 0 ->
  Backup.processed_files (Backup.stats final)
  = Backup.total_files (Backup.stats final)
  /\ Backup.processed_size (Backup.stats final)
     = Backup.total_size (Backup.stats final)
  /\ (Backup.progress_percent (Backup.stats final)
      == if Backup.total_size (Backup.stats final) =? 0 then 0 else 100)%Q.
Proof.
  intros Hnd H Hskip.
  destruct (backup_run_Ok w c final H)
    as (s1 & es & Hprep & Hd & Htf & _ & _ & Hn & _ & Hpf & Hsum & Hps & Hts).
  destruct (prepare_Ok w s1 Hprep) as (He & _ & Hscan).
  destruct (scan_caches_files w s1 He Hnd Hscan) as (_ & _ & Htot & Hsize).
  pose proof (prepare_scanned w (Backup.initial w) (initial_scanned w)) as Hs.
  rewrite Hprep in Hs. simpl in Hs.
  destruct Hs as (_ & _ & _ & _ & _ & Hkeys & _).
  assert (Hall : List.filter (BackupInv.archivable w)
                   (Dict.keys (Backup._file_sizes s1))
                 = Dict.keys (Backup._file_sizes s1)).
  { apply filter_keeps_all. rewrite <- Hn, length_map. lia. }
  rewrite Hall, (planned_keys _ Hkeys) in Hps.
  assert (Hsame : Backup.processed_size (Backup.stats final)
                  = Backup.total_size (Backup.stats final)) by lia.
  split; [lia|]. split; [exact Hsame|].
  unfold Backup.progress_percent. rewrite Hsame.
  destruct (Backup.total_size (Backup.stats final)) as [|p|p]; simpl;
    [reflexivity| |];
    unfold Qeq, Qdiv, Qmult, Qinv, inject_Z; simpl; lia.
Qed.

Lemma backup_without_skips_reaches_100_witness :
  Backup.processed_files
    (Backup.stats (snd (Backup.run Samples.tree_world Samples.plain_backup)))
  = 2
  /\ Backup.processed_size
       (Backup.stats (snd (Backup.run Samples.tree_world
                             Samples.plain_backup)))
     = 18
  /\ (Backup.progress_percent
        (Backup.stats (snd (Backup.run Samples.tree_world
                              Samples.plain_backup)))
      == 100)%Q.
Proof.
  destruct (backup_without_skips_reaches_100 Samples.tree_world
              Samples.plain_backup
              (snd (Backup.run Samples.tree_world Samples.plain_backup)))
    as (Hf & Hs & Hp).
  - vm_compute. repeat constructor; intros H; inversion H; subst;
      repeat match goal with H' : _ ∈ _ |- _ => inversion H'; subst; clear H' end.
  - vm_compute. reflexivity.
  - vm_compute. reflexivity.
  - split; [rewrite Hf; reflexivity|].
    split; [rewrite Hs; reflexivity | exact Hp].
Defined.

(** ** Restore: opening an encrypted archive with the wrong password *)

Section WrongKey.
Import Restore RestoreInv.

Lemma read_first_entry b es p first rest passed :
  map Zip.filename es = first :: rest ->
  exists e, In e es
            /\ Zip.read (Zip.mkHandle b es p) first passed
               = Zip.decrypt b e (if truthy passed then passed else p).
Proof.
  intros Hn.
  destruct (getinfo_in_listed first es) as [e He].
  { unfold Zip.namelist. rewrite Hn. now left. }
  exists e. split; [now apply getinfo_in_Some in He as [_ ?]|].
  unfold Zip.read, Zip.getinfo. simpl. now rewrite He.
Qed.

Lemma decrypt_aes_wrong e key p :
  Zip.encryption e = Zip.WZ_AES key ->
  truthy p = false \/ p <> Some key ->
  Zip.decrypt Zip.AESZipFile e (if truthy p then p else None)
  = Raise (RuntimeError (if truthy p then Zip.msg_bad_password
                         else Zip.msg_password_required)).
Proof.
  intros He Hw. unfold Zip.decrypt. rewrite He.
  destruct (truthy p) eqn:Ht; [|reflexivity].
  destruct Hw as [Hw|Hw]; [discriminate|].
  destruct p as [p|]; [|discriminate].
  unfold Zip.bytes_eqb. rewrite bool_decide_eq_false_2; [reflexivity|].
  congruence.
Qed.

Lemma decrypt_std_aes e key p :
  Zip.encryption e = Zip.WZ_AES key ->
  exists x, Zip.decrypt Zip.ZipFile e p = Raise x /\ is_RuntimeError x = true.
Proof.
  intros He. unfold Zip.decrypt. rewrite He. destruct p; eauto.
Qed.
End WrongKey.

(** X21.  Opening an archive whose entries are AES-encrypted with a password
    other than the one supplied, or with none supplied, raises
    [RuntimeError("Incorrect password")].  On the way the [zipfile] archive
    that was tried first is closed, but the [pyzipper] archive that was
    opened after it is not: [open_archive] leaves without calling [close]
    on it. *)
Theorem wrong_password_leaves_the_archive_open w pw es key s :
  Restore.archive_file w = Some (Zip.Container es) ->
  es <> [] ->
  (forall e, In e es -> Zip.encryption e = Zip.WZ_AES key) ->
  Restore.pyzipper_installed w = true ->
  truthy pw = false \/ pw <> Some key ->
  Restore.open_archive w pw s
  = (Raise (RuntimeError Restore.msg_incorrect),
     Restore.mkState (Restore.stats s) (Restore.archive s)
                     (S (Restore.open_handles s)) (Restore.target s)
                     (Restore.log s
                      ++ [Restore.Opened Zip.ZipFile; Restore.Closed;
                          Restore.Opened Zip.AESZipFile])).
Proof.
  intros Harch Hne Henc Hpz Hw.
  destruct es as [|e0 es']; [congruence|].
  unfold Restore.open_archive, Restore.open_handle. rewrite Harch.
  unfold try_except, bind, lift, Restore.set_open_handles, Restore.emit,
    modify, ret, Zip.open_read.
  assert (Hh : forall b,
             (if truthy pw
              then Zip.setpassword pw (Zip.mkHandle b (e0 :: es') None)
              else Zip.mkHandle b (e0 :: es') None)
             = Zip.mkHandle b (e0 :: es') (if truthy pw then pw else None)).
  { intros b. unfold Zip.setpassword. simpl. now destruct (truthy pw). }
  rewrite !Hh. unfold Zip.namelist. cbn [Zip.entries map].
  destruct (read_first_entry Zip.ZipFile (e0 :: es')
              (if truthy pw then pw else None) (Zip.filename e0)
              (map Zip.filename es') pw eq_refl) as (e1 & Hin1 & ->).
  destruct (decrypt_std_aes e1 key
              (if truthy pw then pw
               else if truthy pw then pw else None) (Henc e1 Hin1))
    as (x & -> & Hx).
  rewrite Hx. unfold Restore.close_handle, bind, Restore.set_open_handles,
    Restore.emit, modify, raise. simpl. rewrite Hpz. simpl.
  destruct (read_first_entry Zip.AESZipFile (e0 :: es')
              (if truthy pw then pw else None) (Zip.filename e0)
              (map Zip.filename es') None eq_refl) as (e2 & Hin2 & ->).
  simpl truthy. cbv iota.
  rewrite (decrypt_aes_wrong e2 key pw (Henc e2 Hin2) Hw).
  rewrite <- !app_assoc. simpl.
  destruct (truthy pw); reflexivity.
Qed.

Lemma wrong_password_leaves_the_archive_open_witness :
  Restore.open_handles
    (snd (Restore.open_archive (Samples.calm_restore Samples.tree_archive)
            (Some [x6e; x6f])
            (Restore.initial (Samples.calm_restore Samples.tree_archive))))
  = 1%nat.
Proof.
  rewrite (wrong_password_leaves_the_archive_open
             (Samples.calm_restore Samples.tree_archive)
             (Some [x6e; x6f])
             [Zip.mkEntry "file1.txt" Samples.content_1 9
                (Zip.WZ_AES Samples.the_password);
              Zip.mkEntry "subdir/file2.txt" Samples.content_2 9
                (Zip.WZ_AES Samples.the_password)]
             Samples.the_password).
  - reflexivity.
  - reflexivity.
  - discriminate.
  - intros e [<-|[<-|[]]]; reflexivity.
  - reflexivity.
  - right. discriminate.
Defined.

(** ** Files that cannot be read or written do not stop a run *)

Section BackupRobust.
Import Backup BackupInv.

Lemma writestr_writer w c arcname file_data :
  password c = None \/ truthy (password c) = true ->
  exists entry,
    Zip.writestr (RoundTrip.writer w c) arcname file_data = Ok entry.
Proof.
  intros [Hp|Hp];
    unfold Zip.writestr, RoundTrip.writer, _get_zip_class;
    rewrite ?Hp; simpl; [eauto|].
  destruct (password c) as [p|]; [|discriminate]. simpl.
  destruct (pyzipper_installed w); simpl; eauto.
Qed.

Lemma ends_backup_report c s (Q : unit -> State -> Prop) :
  (forall s', archive s' = archive s -> backup_file s' = backup_file s ->
              _file_sizes s' = _file_sizes s -> Q tt s') ->
  ends (report c) s Q.
Proof.
  intros H. unfold report. destruct (progress_callback c).
  - apply ends_get, ends_modify, H; reflexivity.
  - apply ends_ret, H; reflexivity.
Qed.

(** one turn of the archiving loop when only [OSError]s occur *)
Lemma ends_archive_file w c file_path s (Q : unit -> State -> Prop) :
  password c = None \/ truthy (password c) = true ->
  (forall p e, open_rb w p = Raise e -> is_OSError e = true) ->
  (forall p e, writestr_raises w p = Some e -> is_OSError e = true) ->
  is_Some (Dict.get file_path (_file_sizes s)) ->
  archive s = Some (RoundTrip.writer w c) ->
  on_disk s ->
  (forall s', archive s' = archive s -> on_disk s' ->
              _file_sizes s' = _file_sizes s -> Q tt s') ->
  ends (archive_file w c file_path) s Q.
Proof.
  intros Hp Hread Hwrite [sz Hsz] Ha [es Hb] HQ.
  unfold archive_file. apply ends_bind.
  pose proof (_add_file_to_archive_exact w file_path sz _ es s Hsz Ha Hb)
    as Hadd.
  assert (Hturn : exists b mid,
             _add_file_to_archive w file_path file_path s = (Ok b, mid)
             /\ archive mid = archive s /\ on_disk mid
             /\ _file_sizes mid = _file_sizes s).
  { rewrite Hadd.
    destruct (open_rb w file_path) as [content|e] eqn:Ho.
    - destruct (writestr_writer w c file_path content Hp) as [entry ->].
      destruct (writestr_raises w file_path) as [e|] eqn:Hw.
      + rewrite (Hwrite _ _ Hw). exists false, (skipped s).
        repeat split; auto. now exists es.
      + eexists true, _. split; [reflexivity|].
        unfold processed, on_disk. simpl. eauto.
    - rewrite (Hread _ _ Ho). exists false, (skipped s).
      repeat split; auto. now exists es. }
  destruct Hturn as (b & mid & Hrun & Ham & Hom & Hdm).
  exists b, mid. split; [exact Hrun|].
  apply ends_get. unfold when. destruct (_ =? 0).
  - apply ends_backup_report. intros s' Ha' Hb' Hd'. apply HQ; try congruence.
    destruct Hom as [es' Hes']. exists es'. congruence.
  - apply ends_ret, HQ; auto.
Qed.

Lemma ends_archive_loop w c l :
  password c = None \/ truthy (password c) = true ->
  (forall p e, open_rb w p = Raise e -> is_OSError e = true) ->
  (forall p e, writestr_raises w p = Some e -> is_OSError e = true) ->
  forall s (Q : unit -> State -> Prop),
    (forall p, In p l -> is_Some (Dict.get p (_file_sizes s))) ->
    archive s = Some (RoundTrip.writer w c) ->
    on_disk s ->
    (forall s', on_disk s' -> Q tt s') ->
    ends (for_each l (archive_file w c)) s Q.
Proof.
  intros Hp Hread Hwrite.
  induction l as [|p l IH]; intros s Q Hget Ha Hb HQ; simpl.
  - apply ends_ret, HQ, Hb.
  - apply ends_bind.
    apply (ends_archive_file w c p s _ Hp Hread Hwrite); auto.
    { apply Hget. now left. }
    intros s1 Ha1 Hb1 Hd1. apply IH; auto.
    + intros q Hq. rewrite Hd1. apply Hget. now right.
    + congruence.
Qed.
End BackupRobust.

(** X22.  Once the preparation has passed and the archive can be created, a
    backup in which the only failures are [OSError]s, raised when a file is
    opened or read or when its entry is written, ends normally: each such
    file is skipped and the run goes on.  The password must be absent or not
    empty. *)
Theorem backup_skips_and_goes_on w c s1 :
  Backup.prepare w (Backup.initial w) = (Ok tt, s1) ->
  Backup.parent_exists w = true ->
  Backup.password c = None \/ truthy (Backup.password c) = true ->
  (forall p e, Backup.open_rb w p = Raise e -> is_OSError e = true) ->
  (forall p e, Backup.writestr_raises w p = Some e -> is_OSError e = true) ->
  exists final,
    Backup.run w c = (Ok tt, final)
    /\ exists es, Backup.backup_file final = Some (Zip.Container es).
Proof.
  intros Hprep Hparent Hp Hread Hwrite.
  cut (ends (Backup.write_phase w c) s1 (fun _ s' => BackupInv.on_disk s')).
  { intros ([] & final & Hrun & Hdisk). exists final. split; [|exact Hdisk].
    unfold Backup.run, Backup.create_archive, bind. now rewrite Hprep. }
  unfold Backup.write_phase. apply ends_try_except.
  unfold Backup.write_archive. apply ends_bind.
  set (s2 := Backup.mkState (Backup.stats s1) (Backup._file_sizes s1)
               (Some (RoundTrip.writer w c)) (Some (Zip.Container []))
               (Backup.log s1 ++ [Backup.Opened])).
  assert (Hcreate : Backup.manager_create_archive w c s1 = (Ok tt, s2)).
  { unfold s2, RoundTrip.writer, Backup.manager_create_archive.
    destruct (Backup._get_zip_class w _) as [zip_class use_password].
    rewrite Hparent. reflexivity. }
  exists tt, s2. split; [exact Hcreate|].
  apply ends_try_finally. unfold Backup.write_entries.
  apply ends_bind, ends_backup_report. intros s3 Ha3 Hb3 Hd3.
  apply ends_get, ends_bind, ends_try_except.
  apply (ends_archive_loop w c _ Hp Hread Hwrite).
  - intros p Hin. apply dict_get_key. now apply list_elem_of_In.
  - rewrite Ha3. reflexivity.
  - exists []. rewrite Hb3. reflexivity.
  - intros s4 [es4 Hb4]. apply ends_get, ends_bind.
    assert (Hwhen : forall b,
               ends (when b (Backup.report c)) s4
                    (fun _ s' => Backup.backup_file s'
                                 = Some (Zip.Container es4))).
    { intros b. unfold when. destruct b.
      - apply ends_backup_report. intros s' _ Hb' _. congruence.
      - now apply ends_ret. }
    eapply ends_weaken; [apply Hwhen|]. intros [] s5 Hb5. simpl.
    apply ends_get. rewrite Hb5. apply ends_modify.
    unfold Backup.close_archive. apply ends_bind, ends_modify, ends_modify.
    simpl. now exists es4.
Qed.

Lemma backup_skips_and_goes_on_witness :
  exists final,
    Backup.run (Samples.mixed_world false) Samples.plain_backup
    = (Ok tt, final)
    /\ exists es, Backup.backup_file final = Some (Zip.Container es).
Proof.
  apply (backup_skips_and_goes_on (Samples.mixed_world false)
           Samples.plain_backup
           (snd (Backup.prepare (Samples.mixed_world false)
                   (Backup.initial (Samples.mixed_world false))))).
  - vm_compute. reflexivity.
  - reflexivity.
  - left. reflexivity.
  - intros p e. simpl. destruct (String.eqb p "locked.txt"); [|discriminate].
    intros [= <-]. reflexivity.
  - intros p e. simpl. discriminate.
Defined.

Section RestoreRobust.
Import Restore RestoreInv.



End RestoreRobust.


